(** * CodeLoom: progress read model, settings record, AI retry wrapper, code runner

    A shallow embedding of the parts of the application that carry
    invariants:

    - the Express handlers of the server ([/api/courses], [/api/progress],
      [/api/settings]) over the five SQLite tables, with the statements the
      handlers prepare and the way the driver binds their parameters;
    - the percentage arithmetic of [GET /api/courses], on JavaScript numbers
      (IEEE-754 binary64);
    - [withRetry] of the Gemini service module;
    - [runCode] of the [CodeIDE] component.

    Part I holds the definitions, Part II the facts proved about them. *)

From Stdlib Require Import String Ascii List Bool Arith ZArith.
From Stdlib Require Import QArith Qround Qpower Lia Lqa.
From Stdlib Require Import DecimalString SpecFloat.
Import ListNotations.

(* ================================================================= *)
(** * Part I: definitions *)
(* ================================================================= *)

(** ** JavaScript string helpers *)

Module JS.
Local Open Scope string_scope.

(** [s.includes(sub)] *)
Fixpoint includes (s sub : string) : bool :=
  if String.prefix sub s then true
  else match s with
       | EmptyString => false
       | String _ rest => includes rest sub
       end.

(** [parts.join(sep)] for an array of strings *)
Definition join (sep : string) (parts : list string) : string :=
  String.concat sep parts.

(** The line separator ['\n'] *)
Definition newline : string := String (ascii_of_nat 10) EmptyString.

(** Truthiness of a string: only [''] is falsy.  An absent property
    ([undefined]) is falsy as well and is represented by [""] below. *)
Definition truthy (s : string) : bool := negb (String.eqb s "").

(** [a || b] on strings *)
Definition or_else (a b : string) : string := if truthy a then a else b.

(** An integer as a template literal prints it *)
Definition string_of_Z (z : Z) : string := NilZero.string_of_int (Z.to_int z).

End JS.

(** ** JavaScript numbers

    [/] and [*] on Numbers return the exact quotient or product rounded to
    the nearest binary64 value, ties to even (ECMAScript, Number::divide and
    Number::multiply).  Values are kept as rationals; [fl] is that rounding
    for a 53-bit significand.  The exponent range is left unbounded: the
    operands met here are row and array counts and the constants 5 and 100,
    far from overflow and from the subnormal range.  [Math.round] rounds to
    the nearest integer, ties towards plus infinity. *)

Module Binary64.
Local Open Scope Q_scope.

(** The [e] with [2^e <= x < 2^(e+1)], for [x > 0]. *)
Definition binade (x : Q) : Z :=
  let d := (Z.log2 (Qnum x) - Z.log2 (Zpos (Qden x)))%Z in
  if Qle_bool (2 ^ d) x then d else (d - 1)%Z.

Definition round_half_even (x : Q) : Z :=
  let f := Qfloor x in
  match Qcompare (x - inject_Z f) (1 # 2) with
  | Lt => f
  | Gt => (f + 1)%Z
  | Eq => if Z.even f then f else (f + 1)%Z
  end.

(** Nearest value [m * 2^e] with [2^52 <= m <= 2^53], for [x > 0]. *)
Definition fl_pos (x : Q) : Q :=
  let e := (binade x - 52)%Z in
  inject_Z (round_half_even (x / 2 ^ e)) * 2 ^ e.

Definition fl (x : Q) : Q :=
  match Qcompare x 0 with
  | Eq => 0
  | Gt => fl_pos x
  | Lt => - fl_pos (- x)
  end.

Definition js_div (a b : Q) : Q := fl (a / b).
Definition js_mul (a b : Q) : Q := fl (a * b).
Definition Math_round (x : Q) : Z := Qfloor (x + (1 # 2)).

(** The value of a finite [spec_float] of the Standard Library's own
    IEEE-754 specification, to compare [fl] with it. *)
Definition SF2Q (f : spec_float) : Q :=
  match f with
  | S754_finite s m e => (if s then -1 else 1) * inject_Z (Zpos m) * 2 ^ e
  | _ => 0
  end.

Definition b64_of_Z (z : Z) : spec_float := binary_normalize 53 1024 z 0 false.

(** [(c / t) * 100] computed by the Standard Library's binary64 operations *)
Definition SF_percentage (c t : Z) : spec_float :=
  SFmul 53 1024 (SFdiv 53 1024 (b64_of_Z c) (b64_of_Z t)) (b64_of_Z 100).

(** [n / 2] as a binary64 value (exact for the small [n] used here) *)
Definition SF_half (n : Z) : spec_float :=
  SFdiv 53 1024 (b64_of_Z n) (b64_of_Z 2).

(** Whether [fl] and the Standard Library's operations give the same
    [(c / t) * 100] *)
Definition agrees_with_SpecFloat (c t : Z) : bool :=
  Qeq_bool (SF2Q (SF_percentage c t))
           (js_mul (js_div (inject_Z c) (inject_Z t)) (inject_Z 100)).

End Binary64.

(** ** The relational store

    One record per table of the [db.exec] schema; a table is the list of its
    rows in insertion (rowid) order, which is the order a [SELECT] without
    [ORDER BY] scans them in.  Text columns hold strings, as the [Course],
    [Module], [Lesson] and [StepProgress] interfaces type them; a string
    stands for well-formed text, which the driver stores and returns
    unchanged.  [order_index] is never written by any statement and stays
    [NULL]. *)

Module Store.

Record course_row := {
  c_id : string;
  c_title : string;
  c_description : string;
  c_image_url : string;
  c_created_at : string
}.

Record module_row := {
  m_id : string;
  m_course_id : string;
  m_title : string;
  m_order_index : option Z
}.

Record lesson_row := {
  l_id : string;
  l_module_id : string;
  l_title : string;
  l_concept : string;
  l_example : string;
  l_practice_guided : string;
  l_practice_independent : string;
  l_language : string;
  l_order_index : option Z
}.

Record progress_row := {
  p_id : Z;
  p_lesson_id : string;
  p_step_id : string;
  p_status : string;
  p_updated_at : string
}.

Record settings_row := {
  s_id : Z;
  s_theme : string;
  s_voice_enabled : Z
}.

Record database := {
  courses : list course_row;
  modules : list module_row;
  lessons : list lesson_row;
  step_progress : list progress_row;
  settings : list settings_row
}.

Definition empty : database :=
  {| courses := []; modules := []; lessons := []; step_progress := []; settings := [] |}.

Definition with_courses (d : database) (t : list course_row) : database :=
  {| courses := t; modules := modules d; lessons := lessons d;
     step_progress := step_progress d; settings := settings d |}.

Definition with_modules (d : database) (t : list module_row) : database :=
  {| courses := courses d; modules := t; lessons := lessons d;
     step_progress := step_progress d; settings := settings d |}.

Definition with_lessons (d : database) (t : list lesson_row) : database :=
  {| courses := courses d; modules := modules d; lessons := t;
     step_progress := step_progress d; settings := settings d |}.

Definition with_step_progress (d : database) (t : list progress_row) : database :=
  {| courses := courses d; modules := modules d; lessons := lessons d;
     step_progress := t; settings := settings d |}.

Definition with_settings (d : database) (t : list settings_row) : database :=
  {| courses := courses d; modules := modules d; lessons := lessons d;
     step_progress := step_progress d; settings := t |}.

End Store.

(** ** The driver: prepared statements and parameter binding

    A handler either returns or throws; a throw leaves the database as the
    statements run so far have made it (no handler opens a transaction).

    [Statement.get], [.all] and [.run] first bind the values they are given
    to the [?] placeholders of the statement.  With the number of values
    equal to the number of placeholders the statement executes.  With fewer
    values than placeholders, better-sqlite3 throws a [RangeError] ("Too few
    parameter values were provided"): this is [Strict].  The SQLite C
    interface underneath leaves an unbound placeholder [NULL]: this is
    [PadNull].  The handlers are defined for both, and every result below
    is proved for both. *)

Module Sql.
Import Store.
Local Open Scope string_scope.

Inductive exception :=
| RangeError (message : string)
| SqliteError (code : string).

Inductive outcome (A : Type) :=
| Returned (a : A)
| Thrown (e : exception).
Arguments Returned {A} a.
Arguments Thrown {A} e.

Definition handler (A : Type) : Type := database -> database * outcome A.

Definition ret {A} (a : A) : handler A := fun d => (d, Returned a).

Definition bind {A B} (m : handler A) (k : A -> handler B) : handler B :=
  fun d =>
    match m d with
    | (d', Returned a) => k a d'
    | (d', Thrown e) => (d', Thrown e)
    end.

Notation "x <- m ;; k" := (bind m (fun x => k))
  (at level 61, m at next level, right associativity).
Notation "m ;;; k" := (bind m (fun _ => k))
  (at level 61, right associativity).

(** [arr.map(f)] with a callback that may throw *)
Fixpoint mapM {A B} (f : A -> handler B) (l : list A) : handler (list B) :=
  match l with
  | [] => ret []
  | x :: rest => y <- f x ;; ys <- mapM f rest ;; ret (y :: ys)
  end.

(** [for (const x of l) { ... }] carrying a loop variable *)
Fixpoint foldM {A S} (f : S -> A -> handler S) (l : list A) (s : S) : handler S :=
  match l with
  | [] => ret s
  | x :: rest => s' <- f s x ;; foldM f rest s'
  end.

Inductive arity_policy := Strict | PadNull.

Definition bind_parameters (policy : arity_policy) (placeholders supplied : nat)
  : outcome unit :=
  if Nat.eqb supplied placeholders then Returned tt
  else if Nat.ltb placeholders supplied
       then Thrown (RangeError "Too many parameter values were provided")
       else match policy with
            | Strict => Thrown (RangeError "Too few parameter values were provided")
            | PadNull => Returned tt
            end.

(** [stmt.get(...)] and [stmt.all(...)]: a query with [placeholders]
    question marks, called with [supplied] values *)
Definition query {R} (policy : arity_policy) (placeholders supplied : nat)
  (q : database -> R) : handler R :=
  fun d =>
    match bind_parameters policy placeholders supplied with
    | Returned _ => (d, Returned (q d))
    | Thrown e => (d, Thrown e)
    end.

(** [stmt.run(...)]: a statement that fails leaves the database unchanged *)
Definition run (policy : arity_policy) (placeholders supplied : nat)
  (u : database -> outcome database) : handler unit :=
  fun d =>
    match bind_parameters policy placeholders supplied with
    | Returned _ =>
        match u d with
        | Returned d' => (d', Returned tt)
        | Thrown e => (d, Thrown e)
        end
    | Thrown e => (d, Thrown e)
    end.

(** *** The statements of the server, by their SQL text *)

(** [SELECT * FROM courses] *)
Definition select_courses (d : database) : list course_row := courses d.

(** [SELECT * FROM modules WHERE course_id = ?] *)
Definition select_modules_where_course_id (course_id : string) (d : database)
  : list module_row :=
  filter (fun m => String.eqb (m_course_id m) course_id) (modules d).

(** [SELECT * FROM lessons WHERE module_id = ?] *)
Definition select_lessons_where_module_id (module_id : string) (d : database)
  : list lesson_row :=
  filter (fun l => String.eqb (l_module_id l) module_id) (lessons d).

(** [SELECT COUNT( * ) as count FROM step_progress
     WHERE lesson_id IN (?, ..., ?) AND status = 'completed'] *)
Definition is_completed_for (ids : list string) (r : progress_row) : bool :=
  existsb (String.eqb (p_lesson_id r)) ids && String.eqb (p_status r) "completed".

Definition count_completed_where_lesson_id_in (ids : list string) (d : database) : Z :=
  Z.of_nat (length (filter (is_completed_for ids) (step_progress d))).

(** [INSERT INTO courses (id, title, description, image_url) VALUES (?, ?, ?, ?)];
    [id] is the primary key, [created_at] defaults to [CURRENT_TIMESTAMP] *)
Definition insert_course (now id title description image_url : string)
  (d : database) : outcome database :=
  if existsb (fun c => String.eqb (c_id c) id) (courses d)
  then Thrown (SqliteError "SQLITE_CONSTRAINT_PRIMARYKEY")
  else Returned (with_courses d (courses d ++
         [{| c_id := id; c_title := title; c_description := description;
             c_image_url := image_url; c_created_at := now |}])).

(** [INSERT INTO modules (id, course_id, title) VALUES (?, ?, ?)] *)
Definition insert_module (id course_id title : string) (d : database)
  : outcome database :=
  if existsb (fun m => String.eqb (m_id m) id) (modules d)
  then Thrown (SqliteError "SQLITE_CONSTRAINT_PRIMARYKEY")
  else Returned (with_modules d (modules d ++
         [{| m_id := id; m_course_id := course_id; m_title := title;
             m_order_index := None |}])).

(** [INSERT INTO lessons (id, module_id, title, concept, example,
     practice_guided, practice_independent, language) VALUES (?, ..., ?)] *)
Definition insert_lesson
  (id module_id title concept example practice_guided practice_independent language : string)
  (d : database) : outcome database :=
  if existsb (fun l => String.eqb (l_id l) id) (lessons d)
  then Thrown (SqliteError "SQLITE_CONSTRAINT_PRIMARYKEY")
  else Returned (with_lessons d (lessons d ++
         [{| l_id := id; l_module_id := module_id; l_title := title;
             l_concept := concept; l_example := example;
             l_practice_guided := practice_guided;
             l_practice_independent := practice_independent;
             l_language := language; l_order_index := None |}])).

(** [SELECT * FROM step_progress] *)
Definition select_step_progress (d : database) : list progress_row := step_progress d.

(** A bound parameter of the pair lookup: [None] is [NULL], and
    [column = NULL] is true of no row. *)
Definition column_equals (column : string) (parameter : option string) : bool :=
  match parameter with
  | Some v => String.eqb column v
  | None => false
  end.

Definition pair_matches (lesson_id step_id : option string) (r : progress_row) : bool :=
  column_equals (p_lesson_id r) lesson_id && column_equals (p_step_id r) step_id.

(** [SELECT * FROM step_progress WHERE lesson_id = ? AND step_id = ?] *)
Definition select_step_progress_where_pair (lesson_id step_id : option string)
  (d : database) : option progress_row :=
  find (pair_matches lesson_id step_id) (step_progress d).

(** [UPDATE step_progress SET status = ?, updated_at = CURRENT_TIMESTAMP
     WHERE lesson_id = ? AND step_id = ?], on one row and on the table *)
Definition overwrite (now status lesson_id step_id : string) (r : progress_row)
  : progress_row :=
  if pair_matches (Some lesson_id) (Some step_id) r
  then {| p_id := p_id r; p_lesson_id := p_lesson_id r; p_step_id := p_step_id r;
          p_status := status; p_updated_at := now |}
  else r.

Definition update_step_progress_where_pair (now status lesson_id step_id : string)
  (d : database) : outcome database :=
  Returned (with_step_progress d
    (map (overwrite now status lesson_id step_id) (step_progress d))).

(** The next [INTEGER PRIMARY KEY AUTOINCREMENT] value (rows are never
    deleted, so the largest id ever used is the largest id present). *)
Definition next_progress_id (d : database) : Z :=
  fold_right Z.max 0%Z (map p_id (step_progress d)) + 1.

(** [INSERT INTO step_progress (lesson_id, step_id, status) VALUES (?, ?, ?)],
    under [UNIQUE(lesson_id, step_id)] *)
Definition insert_step_progress (now lesson_id step_id status : string)
  (d : database) : outcome database :=
  if existsb (pair_matches (Some lesson_id) (Some step_id)) (step_progress d)
  then Thrown (SqliteError "SQLITE_CONSTRAINT_UNIQUE")
  else Returned (with_step_progress d (step_progress d ++
         [{| p_id := next_progress_id d; p_lesson_id := lesson_id;
             p_step_id := step_id; p_status := status; p_updated_at := now |}])).

(** [SELECT * FROM settings WHERE id = 1] *)
Definition select_settings_where_id_1 (d : database) : option settings_row :=
  find (fun r => Z.eqb (s_id r) 1) (settings d).

(** [INSERT INTO settings (id) VALUES (1)]; [theme] defaults to ['dark'],
    [voice_enabled] to [1] *)
Definition insert_settings_id_1 (d : database) : outcome database :=
  if existsb (fun r => Z.eqb (s_id r) 1) (settings d)
  then Thrown (SqliteError "SQLITE_CONSTRAINT_PRIMARYKEY")
  else Returned (with_settings d (settings d ++
         [{| s_id := 1; s_theme := "dark"; s_voice_enabled := 1 |}])).

(** [UPDATE settings SET theme = ?, voice_enabled = ? WHERE id = 1] *)
Definition update_settings_where_id_1 (theme : string) (voice_enabled : Z)
  (d : database) : outcome database :=
  Returned (with_settings d
    (map (fun r =>
            if Z.eqb (s_id r) 1
            then {| s_id := s_id r; s_theme := theme; s_voice_enabled := voice_enabled |}
            else r)
         (settings d))).

End Sql.

(** ** The API handlers *)

Module Server.
Import Store Sql JS.
Local Open Scope string_scope.

(** What a request reads from outside the database: the SQL clock, and the
    successive values of [Date.now()] and of
    [Math.random().toString(36).substr(2, 9)], numbered by call. *)
Record environment := {
  CURRENT_TIMESTAMP : string;
  Date_now : nat -> Z;
  Math_random_base36 : nat -> string
}.

(** Request bodies.  An absent [id] or [image_url] is [""]. *)
Record lesson_body := {
  lb_id : string;
  lb_title : string;
  lb_concept : string;
  lb_example : string;
  lb_practice_guided : string;
  lb_practice_independent : string;
  lb_language : string
}.

Record module_body := {
  mb_id : string;
  mb_title : string;
  mb_lessons : list lesson_body
}.

Record course_body := {
  cb_id : string;
  cb_title : string;
  cb_description : string;
  cb_image_url : string;
  cb_modules : list module_body
}.

Record progress_body := {
  pb_lesson_id : string;
  pb_step_id : string;
  pb_status : string
}.

Record settings_body := {
  sb_theme : string;
  sb_voice_enabled : bool
}.

(** Response payloads of [GET /api/courses]:
    [{ ...mod, lessons }] and [{ ...course, modules: fullModules, progress }] *)
Record module_json := {
  mj_module : module_row;
  mj_lessons : list lesson_row
}.

Record course_json := {
  cj_course : course_row;
  cj_modules : list module_json;
  cj_progress : Z
}.

Inductive success := Success.

(** [totalSteps > 0 ? Math.round((completedCount / totalSteps) * 100) : 0].
    Both counts are exact as Numbers: an array length is below [2^32] and a
    row count below [2^53]. *)
Definition percentage (completedCount totalSteps : Z) : Z :=
  if (0 <? totalSteps)%Z
  then Binary64.Math_round
         (Binary64.js_mul
            (Binary64.js_div (inject_Z completedCount) (inject_Z totalSteps))
            (inject_Z 100))
  else 0%Z.

Section Handlers.

Variable policy : arity_policy.
Variable env : environment.

(** The progress lines of [GET /api/courses], from [allLessonIds] on *)
Definition course_progress (allLessonIds : list string) : handler Z :=
  let totalSteps := (Z.of_nat (length allLessonIds) * 5)%Z in
  completedCount <-
    (if Nat.ltb 0 (length allLessonIds)
     then query policy (length allLessonIds) (length allLessonIds)
            (count_completed_where_lesson_id_in allLessonIds)
     else ret 0%Z) ;;
  ret (percentage completedCount totalSteps).

(** [app.get("/api/courses")] *)
Definition get_courses : handler (list course_json) :=
  all_courses <- query policy 0 0 select_courses ;;
  mapM (fun course =>
          course_modules <- query policy 1 1
                              (select_modules_where_course_id (c_id course)) ;;
          fullModules <- mapM (fun mod_ =>
                                 mod_lessons <- query policy 1 1
                                   (select_lessons_where_module_id (m_id mod_)) ;;
                                 ret {| mj_module := mod_; mj_lessons := mod_lessons |})
                              course_modules ;;
          let allLessonIds := flat_map (fun m => map l_id (mj_lessons m)) fullModules in
          progress <- course_progress allLessonIds ;;
          ret {| cj_course := course; cj_modules := fullModules;
                 cj_progress := progress |})
       all_courses.

(** The lesson loop of [app.post("/api/courses")]; [k] counts the ids
    generated so far in this request. *)
Definition insert_lessons (moduleId : string) (body_lessons : list lesson_body)
  (k : nat) : handler nat :=
  foldM (fun k lesson =>
           let lessonId :=
             or_else (lb_id lesson)
               ("l" ++ string_of_Z (Date_now env (S k)) ++ "_" ++ Math_random_base36 env k) in
           run policy 8 8
             (insert_lesson lessonId moduleId (lb_title lesson) (lb_concept lesson)
                (lb_example lesson) (lb_practice_guided lesson)
                (lb_practice_independent lesson) (lb_language lesson)) ;;;
           ret (if truthy (lb_id lesson) then k else S k))
        body_lessons k.

(** The module loop *)
Definition insert_modules (courseId : string) (body_modules : list module_body)
  (k : nat) : handler nat :=
  foldM (fun k mod_ =>
           let moduleId :=
             or_else (mb_id mod_)
               ("m" ++ string_of_Z (Date_now env (S k)) ++ "_" ++ Math_random_base36 env k) in
           run policy 3 3 (insert_module moduleId courseId (mb_title mod_)) ;;;
           insert_lessons moduleId (mb_lessons mod_)
             (if truthy (mb_id mod_) then k else S k))
        body_modules k.

(** [app.post("/api/courses")]; the response is [{ id: courseId }].  The
    handler destructures [title], [description], [image_url] and [modules]
    from the body and nothing else. *)
Definition post_courses (body : course_body) : handler string :=
  let courseId := "c" ++ string_of_Z (Date_now env 0) in
  run policy 4 4
    (insert_course (CURRENT_TIMESTAMP env) courseId (cb_title body) (cb_description body)
       (or_else (cb_image_url body)
          ("https://picsum.photos/seed/" ++ courseId ++ "/800/450"))) ;;;
  insert_modules courseId (cb_modules body) 0 ;;;
  ret courseId.

(** [app.get("/api/progress")] *)
Definition get_progress : handler (list progress_row) :=
  query policy 0 0 select_step_progress.

(** The values the pair lookup runs with when [supplied] of them are
    given: a missing one is [NULL] (reached only under [PadNull]). *)
Definition supplied_parameter (supplied : list string) (i : nat) : option string :=
  nth_error supplied i.

(** [app.post("/api/progress")].  The lookup statement has two
    placeholders and [.get()] is called with no value. *)
Definition post_progress (body : progress_body) : handler success :=
  let lesson_id := pb_lesson_id body in
  let step_id := pb_step_id body in
  let status := pb_status body in
  existing <- query policy 2 0
                (select_step_progress_where_pair
                   (supplied_parameter [] 0) (supplied_parameter [] 1)) ;;
  match existing with
  | Some _ =>
      run policy 3 3
        (update_step_progress_where_pair (CURRENT_TIMESTAMP env) status lesson_id step_id)
  | None =>
      run policy 3 3
        (insert_step_progress (CURRENT_TIMESTAMP env) lesson_id step_id status)
  end ;;;
  ret Success.

(** [app.get("/api/settings")] *)
Definition get_settings : handler (option settings_row) :=
  found <- query policy 0 0 select_settings_where_id_1 ;;
  match found with
  | Some row => ret (Some row)
  | None =>
      run policy 0 0 insert_settings_id_1 ;;;
      query policy 0 0 select_settings_where_id_1
  end.

(** [app.post("/api/settings")] *)
Definition post_settings (body : settings_body) : handler success :=
  run policy 2 2
    (update_settings_where_id_1 (sb_theme body)
       (if sb_voice_enabled body then 1 else 0)%Z) ;;;
  ret Success.

End Handlers.

(** *** The read model as functions of the database

    What [get_courses] returns, written without the driver: proved equal to
    the handler in Part II. *)

Definition completed_rows (allLessonIds : list string) (table : list progress_row)
  : list progress_row :=
  filter (is_completed_for allLessonIds) table.

(** Lines 157-172 of the server: the progress of a course from the ids of
    its lessons and the [step_progress] table *)
Definition progress (allLessonIds : list string) (table : list progress_row) : Z :=
  let totalSteps := (Z.of_nat (length allLessonIds) * 5)%Z in
  let completedCount :=
    if Nat.ltb 0 (length allLessonIds)
    then Z.of_nat (length (completed_rows allLessonIds table))
    else 0%Z in
  percentage completedCount totalSteps.

Definition module_view (d : database) (m : module_row) : module_json :=
  {| mj_module := m; mj_lessons := select_lessons_where_module_id (m_id m) d |}.

Definition lesson_ids_of (fullModules : list module_json) : list string :=
  flat_map (fun m => map l_id (mj_lessons m)) fullModules.

Definition course_view (d : database) (c : course_row) : course_json :=
  let fullModules := map (module_view d) (select_modules_where_course_id (c_id c) d) in
  {| cj_course := c;
     cj_modules := fullModules;
     cj_progress := progress (lesson_ids_of fullModules) (step_progress d) |}.

(** The [(lesson_id, step_id)] key of a row *)
Definition pair_of (r : progress_row) : string * string := (p_lesson_id r, p_step_id r).

(** *** The round trip of a course

    [references_resolve]: every module row belongs to a stored course and
    every lesson row to a stored module, as the [FOREIGN KEY] clauses of the
    schema declare.  The [_matches] relations compare what was posted with
    what is read back; an id is compared only when the request carried one. *)

Definition references_resolve (d : database) : Prop :=
  (forall m, In m (modules d) -> In (m_course_id m) (map c_id (courses d))) /\
  (forall l, In l (lessons d) -> In (l_module_id l) (map m_id (modules d))).

Definition lesson_matches (b : lesson_body) (r : lesson_row) : Prop :=
  l_title r = lb_title b /\
  l_concept r = lb_concept b /\
  l_example r = lb_example b /\
  l_practice_guided r = lb_practice_guided b /\
  l_practice_independent r = lb_practice_independent b /\
  l_language r = lb_language b /\
  (truthy (lb_id b) = true -> l_id r = lb_id b).

Definition module_matches (b : module_body) (j : module_json) : Prop :=
  m_title (mj_module j) = mb_title b /\
  (truthy (mb_id b) = true -> m_id (mj_module j) = mb_id b) /\
  Forall2 lesson_matches (mb_lessons b) (mj_lessons j).

Definition course_matches (b : course_body) (j : course_json) : Prop :=
  c_title (cj_course j) = cb_title b /\
  c_description (cj_course j) = cb_description b /\
  Forall2 module_matches (cb_modules b) (cj_modules j).

(** A module row with the lesson rows inserted for it *)
Definition group : Type := module_row * list lesson_row.

Definition group_id (g : group) : string := m_id (fst g).

Definition group_json (g : group) : module_json :=
  {| mj_module := fst g; mj_lessons := snd g |}.

Definition group_matches (courseId : string) (b : module_body) (g : group) : Prop :=
  m_course_id (fst g) = courseId /\
  Forall (fun r => l_module_id r = group_id g) (snd g) /\
  module_matches b (group_json g).

(** The upsert as the specification words it ([recordStep]): look the pair
    up; overwrite [status] and refresh [updated_at] if it is there, insert
    a new row otherwise. *)
Definition spec_recordStep (now lesson_id step_id status : string) (d : database)
  : database :=
  match select_step_progress_where_pair (Some lesson_id) (Some step_id) d with
  | Some _ =>
      match update_step_progress_where_pair now status lesson_id step_id d with
      | Returned d' => d'
      | Thrown _ => d
      end
  | None =>
      match insert_step_progress now lesson_id step_id status d with
      | Returned d' => d'
      | Thrown _ => d
      end
  end.

(** The percentage as the specification words it:
    [round(100 * completed / total)], on exact rationals, halves upwards. *)
Definition spec_percentage (completedCount totalSteps : Z) : Z :=
  if (0 <? totalSteps)%Z
  then Qfloor ((inject_Z 100 * inject_Z completedCount / inject_Z totalSteps + (1 # 2))%Q)
  else 0%Z.

(** Whether [100 * completed / total] lies half way between two integers *)
Definition is_tie (completedCount totalSteps : Z) : bool :=
  (Z.eqb ((200 * completedCount) mod (2 * totalSteps)) totalSteps)%Z.

(** The rows of a table for one [(lesson_id, step_id)] pair *)
Definition rows_for (lesson_id step_id : string) (d : database) : list progress_row :=
  filter (pair_matches (Some lesson_id) (Some step_id)) (step_progress d).

(** The five stages of a lesson ([LessonStep]) *)
Definition lesson_steps : list string :=
  ["explanation"; "example"; "guided"; "independent"; "feedback"].

End Server.

(** ** The Gemini service module: [withRetry] *)

Module Gemini.
Import JS.
Local Open Scope string_scope.

(** A rejection value, by the two properties [withRetry] reads from it
    ([error?.message], [error?.status]); [None] is [undefined]. *)
Record api_error := {
  message : option string;
  status : option string
}.

Inductive result (T : Type) :=
| Resolved (value : T)
| Rejected (error : api_error).
Arguments Resolved {T} value.
Arguments Rejected {T} error.

(** What a caller can observe of a run, in order *)
Inductive event :=
| Call (attempt : nat)
| Warn (text : string)
| Sleep (ms : Z).

Definition message_includes (error : api_error) (needle : string) : bool :=
  match message error with
  | Some m => includes m needle
  | None => false
  end.

Definition isQuotaError (error : api_error) : bool :=
  message_includes error "429"
  || message_includes error "quota"
  || match status error with
     | Some s => String.eqb s "RESOURCE_EXHAUSTED"
     | None => false
     end.

Definition max_retries_exceeded : api_error :=
  {| message := Some "Max retries exceeded"; status := None |}.

Definition retry_warning (delay : Z) (i retries : nat) : string :=
  "Gemini Quota exceeded, retrying in " ++ string_of_Z delay ++ "ms... (Attempt "
  ++ string_of_Z (Z.of_nat (i + 1)) ++ "/" ++ string_of_Z (Z.of_nat retries) ++ ")".

(** The [for] loop, entered with loop variable [i] and [remaining]
    iterations to go ([i + remaining = retries]); [fn i] is the outcome of
    the call made in iteration [i]. *)
Fixpoint retry_loop {T} (fn : nat -> result T) (retries remaining i : nat) (delay : Z)
  : list event * result T :=
  match remaining with
  | O => ([], Rejected max_retries_exceeded)
  | S remaining' =>
      match fn i with
      | Resolved value => ([Call i], Resolved value)
      | Rejected error =>
          if isQuotaError error && Nat.ltb i (retries - 1)
          then
            let '(later, r) := retry_loop fn retries remaining' (S i) (delay * 2) in
            (Call i :: Warn (retry_warning delay i retries) :: Sleep delay :: later, r)
          else ([Call i], Rejected error)
      end
  end.

(** [withRetry(fn, retries = 3, delay = 1000)] *)
Definition withRetry {T} (fn : nat -> result T) (retries : nat) (delay : Z)
  : list event * result T :=
  retry_loop fn retries retries 0 delay.

Definition calls (trace : list event) : list nat :=
  flat_map (fun e => match e with Call i => [i] | _ => [] end) trace.

Definition sleeps (trace : list event) : list Z :=
  flat_map (fun e => match e with Sleep ms => [ms] | _ => [] end) trace.

(** The first [n] doubling delays: [delay], [2 * delay], [4 * delay], ... *)
Definition backoff (delay : Z) (n : nat) : list Z :=
  map (fun j => (delay * 2 ^ Z.of_nat j)%Z) (seq 0 n).

End Gemini.

(** ** The [CodeIDE] component: [runCode] *)

Module CodeIDE.
Import JS.
Local Open Scope string_scope.

(** A caught value, as [formatError] tells values apart.  For a value that
    is neither an [Error], a string nor an [Event], [json] is what
    [JSON.stringify] returns ([None] when it throws) and [str] is
    [String(err)]. *)
Inductive thrown :=
| ErrorObject (message : string)
| StringValue (s : string)
| EventObject (type : string)
| OtherValue (json : option string) (str : string).

Definition formatError (err : thrown) : string :=
  match err with
  | ErrorObject message => message
  | StringValue s => s
  | EventObject type => "Event: " ++ type
  | OtherValue (Some json) _ => json
  | OtherValue None str => str
  end.

Inductive tab := editor | preview.

(** The value of the global [console.log] *)
Inductive log_function :=
| native_log
| capture_log
| other_log (tag : nat).

Record Lesson := {
  id : string;
  title : string;
  concept : string;
  example : string;
  practice_guided : string;
  practice_independent : string;
  language : string
}.

(** A feedback request as it reaches the service:
    [getCodeFeedback(lesson, code, output)] *)
Record feedback_request := {
  fr_lesson : Lesson;
  fr_code : string;
  fr_output : string
}.

(** The component state ([useState]), the globals and refs [runCode]
    touches, the local array [logs] of the JavaScript branch, and a record
    of the requests sent and of the values handed to [onFeedback]. *)
Record world (F : Type) := {
  output : string;
  isRunning : bool;
  activeTab : tab;
  pyodide : bool;
  console_log : log_function;
  preview_document : option string;
  logs : list string;
  requests : list feedback_request;
  delivered : list F
}.
Arguments output {F} w.
Arguments isRunning {F} w.
Arguments activeTab {F} w.
Arguments pyodide {F} w.
Arguments console_log {F} w.
Arguments preview_document {F} w.
Arguments logs {F} w.
Arguments requests {F} w.
Arguments delivered {F} w.

(** What [eval(code)] does while the capturing function is installed: the
    calls that reach it, each with the [String(a)] of its arguments; the
    value the user code leaves in [console.log]; the value it throws, if
    any. *)
Record evaluation := {
  console_calls : list (list string);
  console_log_left : log_function;
  raised : option thrown
}.

(** The collaborators of a run *)
Record collaborators (F : Type) := {
  eval : string -> evaluation;
  runPythonAsync : string -> string + thrown;
  getCodeFeedback : Lesson -> string -> string -> F + thrown
}.
Arguments eval {F} c.
Arguments runPythonAsync {F} c.
Arguments getCodeFeedback {F} c.

Section Run.

Variable F : Type.

Definition M (A : Type) : Type := world F -> world F * (A + thrown).

Definition ret {A} (a : A) : M A := fun w => (w, inl a).
Definition throw {A} (err : thrown) : M A := fun w => (w, inr err).

Definition bind {A B} (m : M A) (k : A -> M B) : M B :=
  fun w =>
    match m w with
    | (w', inl a) => k a w'
    | (w', inr err) => (w', inr err)
    end.

Notation "x <- m ;; k" := (bind m (fun x => k))
  (at level 61, m at next level, right associativity).
Notation "m ;;; k" := (bind m (fun _ => k))
  (at level 61, right associativity).

(** [try { body } catch (err) { handler }] *)
Definition try_catch {A} (body : M A) (handler : thrown -> M A) : M A :=
  fun w =>
    match body w with
    | (w', inl a) => (w', inl a)
    | (w', inr err) => handler err w'
    end.

(** [try { body } finally { cleanup }], for a [cleanup] that does not throw *)
Definition try_finally {A} (body : M A) (cleanup : world F -> world F) : M A :=
  fun w => let (w', r) := body w in (cleanup w', r).

Definition update (f : world F -> world F) : M unit := fun w => (f w, inl tt).

Definition setOutput (s : string) (w : world F) : world F :=
  {| output := s; isRunning := isRunning w; activeTab := activeTab w;
     pyodide := pyodide w; console_log := console_log w;
     preview_document := preview_document w; logs := logs w;
     requests := requests w; delivered := delivered w |}.

Definition setIsRunning (b : bool) (w : world F) : world F :=
  {| output := output w; isRunning := b; activeTab := activeTab w;
     pyodide := pyodide w; console_log := console_log w;
     preview_document := preview_document w; logs := logs w;
     requests := requests w; delivered := delivered w |}.

Definition setActiveTab (t : tab) (w : world F) : world F :=
  {| output := output w; isRunning := isRunning w; activeTab := t;
     pyodide := pyodide w; console_log := console_log w;
     preview_document := preview_document w; logs := logs w;
     requests := requests w; delivered := delivered w |}.

Definition set_console_log (f : log_function) (w : world F) : world F :=
  {| output := output w; isRunning := isRunning w; activeTab := activeTab w;
     pyodide := pyodide w; console_log := f;
     preview_document := preview_document w; logs := logs w;
     requests := requests w; delivered := delivered w |}.

Definition set_logs (l : list string) (w : world F) : world F :=
  {| output := output w; isRunning := isRunning w; activeTab := activeTab w;
     pyodide := pyodide w; console_log := console_log w;
     preview_document := preview_document w; logs := l;
     requests := requests w; delivered := delivered w |}.

(** [doc.open(); doc.write(code); doc.close()] when the iframe is mounted *)
Definition write_preview (code : string) (w : world F) : world F :=
  {| output := output w; isRunning := isRunning w; activeTab := activeTab w;
     pyodide := pyodide w; console_log := console_log w;
     preview_document :=
       match preview_document w with
       | Some _ => Some code
       | None => None
       end;
     logs := logs w; requests := requests w; delivered := delivered w |}.

Definition record_request (r : feedback_request) (w : world F) : world F :=
  {| output := output w; isRunning := isRunning w; activeTab := activeTab w;
     pyodide := pyodide w; console_log := console_log w;
     preview_document := preview_document w; logs := logs w;
     requests := requests w ++ [r]; delivered := delivered w |}.

(** [onFeedback(feedback)] *)
Definition onFeedback (f : F) (w : world F) : world F :=
  {| output := output w; isRunning := isRunning w; activeTab := activeTab w;
     pyodide := pyodide w; console_log := console_log w;
     preview_document := preview_document w; logs := logs w;
     requests := requests w; delivered := delivered w ++ [f] |}.

Variable env : collaborators F.

(** The installed function: [(...args) => logs.push(args.map(a => String(a)).join(' '))] *)
Definition capture (args : list string) (w : world F) : world F :=
  set_logs (logs w ++ [join " " args]) w.

(** [eval(code)] under the capturing function *)
Definition eval_code (code : string) : M unit :=
  fun w =>
    let ev := eval env code in
    let w1 := fold_left (fun w args => capture args w) (console_calls ev) w in
    let w2 := set_console_log (console_log_left ev) w1 in
    (w2, match raised ev with
         | None => inl tt
         | Some err => inr err
         end).

(** The [javascript] branch *)
Definition run_javascript (code : string) : M unit :=
  fun w =>
    let originalLog := console_log w in
    (update (set_logs []) ;;;
     update (set_console_log capture_log) ;;;
     try_finally
       (try_catch
          (eval_code code ;;;
           fun w => update (setOutput (or_else (join newline (logs w)) "Code executed successfully (no output).")) w)
          (fun err => update (setOutput ("Error: " ++ formatError err))))
       (set_console_log originalLog)) w.

(** The [html] branch *)
Definition run_html (code : string) : M unit :=
  update (setActiveTab preview) ;;;
  update (write_preview code) ;;;
  update (setOutput "HTML rendered in preview.").

(** The [python] branch *)
Definition run_python (code : string) : M unit :=
  fun w =>
    (if negb (pyodide w)
     then update (setOutput "Python runtime not ready.")
     else
       try_catch
         (fun w => match runPythonAsync env code with
                   | inl result =>
                       update (setOutput (or_else result "Code executed successfully.")) w
                   | inr err => throw err w
                   end)
         (fun err => update (setOutput ("Python Error: " ++ formatError err)))) w.

(** The language dispatch of [runCode] *)
Definition execute (lesson : Lesson) (code : string) : M unit :=
  if String.eqb (language lesson) "javascript" then run_javascript code
  else if String.eqb (language lesson) "html" then run_html code
  else if String.eqb (language lesson) "python" then run_python code
  else ret tt.

(** [await getCodeFeedback(lesson, code, output); onFeedback(feedback)];
    [output] is the constant of the render that created [runCode]. *)
Definition request_feedback (lesson : Lesson) (code rendered_output : string) : M unit :=
  update (record_request
            {| fr_lesson := lesson; fr_code := code; fr_output := rendered_output |}) ;;;
  match getCodeFeedback env lesson code rendered_output with
  | inl feedback => update (onFeedback feedback)
  | inr err => throw err
  end.

(** [runCode].  The world it is called on is the one the last render saw,
    so the [output] in scope is [output w]. *)
Definition runCode (lesson : Lesson) (code : string) : M unit :=
  fun w =>
    let rendered_output := output w in
    (update (setIsRunning true) ;;;
     update (setOutput "") ;;;
     try_finally
       (try_catch
          (execute lesson code ;;;
           request_feedback lesson code rendered_output)
          (fun err => update (setOutput ("System Error: " ++ formatError err))))
       (setIsRunning false)) w.

(** The run up to the feedback request: what [execute] leaves on screen *)
Definition run_only (lesson : Lesson) (code : string) : M unit :=
  update (setIsRunning true) ;;;
  update (setOutput "") ;;;
  execute lesson code.

End Run.

End CodeIDE.

(** ** Sample data *)

Module Samples.
Import Store Sql Server JS.
Local Open Scope string_scope.

Definition numbered (prefix : string) (n : nat) : string :=
  prefix ++ string_of_Z (Z.of_nat n).

Definition completed (n : Z) (lesson_id step_id : string) : progress_row :=
  {| p_id := n; p_lesson_id := lesson_id; p_step_id := step_id;
     p_status := "completed"; p_updated_at := "2026-01-01 00:00:00" |}.

(** One lesson, a completed row for each of its five stages and a
    completed row for a sixth step id *)
Definition six_steps_of_l1 : list progress_row :=
  [ completed 1 "l1" "explanation"; completed 2 "l1" "example";
    completed 3 "l1" "guided"; completed 4 "l1" "independent";
    completed 5 "l1" "feedback"; completed 6 "l1" "bonus" ].

Definition plain_lesson (module_id : string) (n : nat) : lesson_row :=
  {| l_id := numbered "l" n; l_module_id := module_id;
     l_title := numbered "Lesson " n; l_concept := ""; l_example := "";
     l_practice_guided := ""; l_practice_independent := "";
     l_language := "javascript"; l_order_index := None |}.

(** The first [n] of the [(lesson, step)] pairs of lessons [l1 .. l8], as
    completed rows *)
Definition first_completed (n : nat) : list progress_row :=
  map (fun '(k, (lesson_id, step_id)) => completed (Z.of_nat k) lesson_id step_id)
      (combine (seq 1 n)
               (firstn n (list_prod (map (numbered "l") (seq 1 8)) lesson_steps))).

(** A course of one module and eight lessons, with 23 completed steps *)
Definition eight_lessons_23_steps : database :=
  {| courses := [ {| c_id := "c1"; c_title := "Web Development Fundamentals";
                     c_description := "HTML, CSS and JavaScript";
                     c_image_url := "https://picsum.photos/seed/web/800/450";
                     c_created_at := "2026-01-01 00:00:00" |} ];
     modules := [ {| m_id := "m1"; m_course_id := "c1"; m_title := "HTML Basics";
                     m_order_index := None |} ];
     lessons := map (plain_lesson "m1") (seq 1 8);
     step_progress := first_completed 23;
     settings := [] |}.

Definition clock : environment :=
  {| CURRENT_TIMESTAMP := "2026-01-01 00:00:00";
     Date_now := fun n => (1700000000000 + Z.of_nat n)%Z;
     Math_random_base36 := fun n => numbered "k3j9x2q" n |}.

Definition l1_explanation (status : string) : progress_body :=
  {| pb_lesson_id := "l1"; pb_step_id := "explanation"; pb_status := status |}.

Definition default_settings : settings_row :=
  {| s_id := 1; s_theme := "dark"; s_voice_enabled := 1 |}.

Definition light_without_voice : settings_body :=
  {| sb_theme := "light"; sb_voice_enabled := false |}.

(** Rejections of the AI service *)
Definition quota_error : Gemini.api_error :=
  {| Gemini.message := Some "429 Too Many Requests"; Gemini.status := None |}.

Definition exhausted_error : Gemini.api_error :=
  {| Gemini.message := None; Gemini.status := Some "RESOURCE_EXHAUSTED" |}.

Definition network_error : Gemini.api_error :=
  {| Gemini.message := Some "fetch failed"; Gemini.status := None |}.

(** A call that is rate-limited twice and then answers *)
Definition third_time_lucky (i : nat) : Gemini.result string :=
  match i with
  | O => Gemini.Rejected quota_error
  | S O => Gemini.Rejected exhausted_error
  | _ => Gemini.Resolved "ok"
  end.

(** A call that is rate-limited once and then fails for another reason *)
Definition quota_then_network (i : nat) : Gemini.result string :=
  match i with
  | O => Gemini.Rejected quota_error
  | _ => Gemini.Rejected network_error
  end.

(** A JavaScript lesson and a Python lesson *)
Definition js_lesson : CodeIDE.Lesson :=
  {| CodeIDE.id := "l9"; CodeIDE.title := "Console output";
     CodeIDE.concept := "console.log prints a line";
     CodeIDE.example := "console.log('hi')";
     CodeIDE.practice_guided := "Print your name";
     CodeIDE.practice_independent := "Print two lines";
     CodeIDE.language := "javascript" |}.

Definition python_lesson : CodeIDE.Lesson :=
  {| CodeIDE.id := "l3"; CodeIDE.title := "Variables and Types";
     CodeIDE.concept := "Variables are containers for storing data values";
     CodeIDE.example := "name = 'Loom'";
     CodeIDE.practice_guided := "Create a variable";
     CodeIDE.practice_independent := "Calculate the area of a rectangle";
     CodeIDE.language := "python" |}.

(** The component as it is after an earlier run, runtime not loaded *)
Definition after_earlier_run : CodeIDE.world string :=
  {| CodeIDE.output := "previous output"; CodeIDE.isRunning := false;
     CodeIDE.activeTab := CodeIDE.editor; CodeIDE.pyodide := false;
     CodeIDE.console_log := CodeIDE.native_log;
     CodeIDE.preview_document := None; CodeIDE.logs := [];
     CodeIDE.requests := []; CodeIDE.delivered := [] |}.

(** User code that logs [hello world] and [2] and returns *)
Definition logs_two_lines : CodeIDE.evaluation :=
  {| CodeIDE.console_calls := [["hello"; "world"]; ["2"]];
     CodeIDE.console_log_left := CodeIDE.capture_log;
     CodeIDE.raised := None |}.

(** User code that logs [hi], replaces [console.log] and throws *)
Definition logs_then_throws : CodeIDE.evaluation :=
  {| CodeIDE.console_calls := [["hi"]];
     CodeIDE.console_log_left := CodeIDE.other_log 7;
     CodeIDE.raised := Some (CodeIDE.ErrorObject "boom") |}.

(** User code that logs [hi] and returns *)
Definition logs_hi : CodeIDE.evaluation :=
  {| CodeIDE.console_calls := [["hi"]];
     CodeIDE.console_log_left := CodeIDE.capture_log;
     CodeIDE.raised := None |}.

(** Collaborators: the AI service answers, or is out of quota *)
Definition service_answers (ev : CodeIDE.evaluation) : CodeIDE.collaborators string :=
  {| CodeIDE.eval := fun _ => ev;
     CodeIDE.runPythonAsync := fun _ => inl "None";
     CodeIDE.getCodeFeedback := fun _ _ _ => inl "{isCorrect: true}" |}.

Definition service_out_of_quota (ev : CodeIDE.evaluation) : CodeIDE.collaborators string :=
  {| CodeIDE.eval := fun _ => ev;
     CodeIDE.runPythonAsync := fun _ => inl "None";
     CodeIDE.getCodeFeedback :=
       fun _ _ _ => inr (CodeIDE.ErrorObject "429 quota exceeded") |}.

(** A course as the builder posts it after a JSON import: it carries a
    course id; its first module and that module's first lesson carry ids,
    the rest do not. *)
Definition imported_course : course_body :=
  {| cb_id := "webdev";
     cb_title := "Intro to JavaScript";
     cb_description := "Values, variables and functions";
     cb_image_url := "";
     cb_modules :=
       [ {| mb_id := "m10"; mb_title := "Values";
            mb_lessons :=
              [ {| lb_id := "l10"; lb_title := "Numbers";
                   lb_concept := "Numbers are double-precision floats";
                   lb_example := "console.log(0.1 + 0.2)";
                   lb_practice_guided := "Print 1 / 3";
                   lb_practice_independent := "Print the area of a circle";
                   lb_language := "javascript" |};
                {| lb_id := ""; lb_title := "Strings";
                   lb_concept := "Strings are sequences of UTF-16 code units";
                   lb_example := "console.log('a' + 'b')";
                   lb_practice_guided := "Print your name";
                   lb_practice_independent := "Print your name reversed";
                   lb_language := "javascript" |} ] |};
         {| mb_id := ""; mb_title := "Markup";
            mb_lessons :=
              [ {| lb_id := ""; lb_title := "Headings";
                   lb_concept := "h1 to h6";
                   lb_example := "<h1>Hello</h1>";
                   lb_practice_guided := "Add a paragraph";
                   lb_practice_independent := "Create a list";
                   lb_language := "html" |} ] |} ] |}.

(** A course as the builder leaves it when [Add Lesson] is clicked twice
    within one millisecond: both lessons get the id [l] + [Date.now()]. *)
Definition same_lesson_twice : course_body :=
  {| cb_id := "";
     cb_title := "Untitled";
     cb_description := "";
     cb_image_url := "";
     cb_modules :=
       [ {| mb_id := "m1767225600000"; mb_title := "New Module";
            mb_lessons :=
              [ {| lb_id := "l1767225600123"; lb_title := "New Lesson";
                   lb_concept := ""; lb_example := "";
                   lb_practice_guided := ""; lb_practice_independent := "";
                   lb_language := "javascript" |};
                {| lb_id := "l1767225600123"; lb_title := "New Lesson";
                   lb_concept := ""; lb_example := "";
                   lb_practice_guided := ""; lb_practice_independent := "";
                   lb_language := "javascript" |} ] |} ] |}.

End Samples.

(** ** Start-up seeding and the server as a whole *)

Module Startup.
Import Store Sql Server JS.
Local Open Scope string_scope.

(** [for (const x of l) { ... }] *)
Fixpoint forM_ {A} (l : list A) (f : A -> handler unit) : handler unit :=
  match l with
  | [] => ret tt
  | x :: rest => f x ;;; forM_ rest f
  end.

(** The [courses] literal of the seeding block *)
Definition seed_courses : list course_body :=
  [ {| cb_id := "c1";
       cb_title := "Web Development Fundamentals";
       cb_description :=
         "Master the core technologies of the web: HTML, CSS, and JavaScript.";
       cb_image_url := "https://picsum.photos/seed/web/800/450";
       cb_modules :=
         [ {| mb_id := "m1"; mb_title := "HTML Basics";
              mb_lessons :=
                [ {| lb_id := "l1"; lb_title := "What is HTML?";
                     lb_concept := "HTML (HyperText Markup Language) is the standard markup language for documents designed to be displayed in a web browser.";
                     lb_example :=
                       join newline [ "<!DOCTYPE html>"; "<html>"; "<body>";
                                      "<h1>Hello World</h1>"; "</body>"; "</html>" ];
                     lb_practice_guided := "Add a paragraph tag below the heading.";
                     lb_practice_independent := "Create a list of your favorite fruits.";
                     lb_language := "html" |} ] |};
           {| mb_id := "m2"; mb_title := "CSS Styling";
              mb_lessons :=
                [ {| lb_id := "l2"; lb_title := "CSS Selectors";
                     lb_concept := "CSS is used to style HTML elements. Selectors are used to 'find' (or select) the HTML elements you want to style.";
                     lb_example :=
                       join newline [ "h1 {"; "  color: blue;";
                                      "  text-align: center;"; "}" ];
                     lb_practice_guided := "Change the color of h1 to red.";
                     lb_practice_independent :=
                       "Style a paragraph with a green background and white text.";
                     lb_language := "css" |} ] |} ] |};
    {| cb_id := "c2";
       cb_title := "Python for Beginners";
       cb_description :=
         "Start your coding journey with one of the most popular programming languages.";
       cb_image_url := "https://picsum.photos/seed/python/800/450";
       cb_modules :=
         [ {| mb_id := "m3"; mb_title := "Python Basics";
              mb_lessons :=
                [ {| lb_id := "l3"; lb_title := "Variables and Types";
                     lb_concept := "Python is a high-level, interpreted programming language. Variables are containers for storing data values.";
                     lb_example :=
                       join newline [ "name = 'Loom'"; "age = 1";
                                      "print(f'{name} is {age} year old.')" ];
                     lb_practice_guided :=
                       "Create a variable 'city' and assign it your city name.";
                     lb_practice_independent :=
                       "Calculate the area of a rectangle with width 5 and height 10.";
                     lb_language := "python" |} ] |} ] |} ].

(** [SELECT COUNT( * ) as count FROM courses] *)
Definition count_courses (d : database) : nat := length (courses d).

Section Seeding.

Variable policy : arity_policy.

(** [now] is the SQL clock, for [created_at] *)
Variable now : string.

Definition seed_lesson (mod_ : module_body) (lesson : lesson_body) : handler unit :=
  run policy 8 8
    (insert_lesson (lb_id lesson) (mb_id mod_) (lb_title lesson) (lb_concept lesson)
       (lb_example lesson) (lb_practice_guided lesson)
       (lb_practice_independent lesson) (lb_language lesson)).

Definition seed_module (course : course_body) (mod_ : module_body) : handler unit :=
  run policy 3 3 (insert_module (mb_id mod_) (cb_id course) (mb_title mod_)) ;;;
  forM_ (mb_lessons mod_) (seed_lesson mod_).

Definition seed_course (course : course_body) : handler unit :=
  run policy 4 4
    (insert_course now (cb_id course) (cb_title course) (cb_description course)
       (cb_image_url course)) ;;;
  forM_ (cb_modules course) (seed_module course).

(** The block "Seed initial courses if empty", run when the server module
    is loaded *)
Definition seed : handler unit :=
  courseCount <- query policy 0 0 count_courses ;;
  if Nat.eqb courseCount 0
  then forM_ seed_courses seed_course
  else ret tt.

End Seeding.

(** [keeps P h]: from a database with [P], [h] leaves a database with [P],
    whether it returns or throws. *)
Definition keeps {A} (P : database -> Prop) (h : handler A) : Prop :=
  forall d, P d -> P (fst (h d)).

(** [statement_keeps P u]: the statement [u], when it succeeds, leaves a
    database with [P]. *)
Definition statement_keeps (P : database -> Prop) (u : database -> outcome database)
  : Prop :=
  forall d d', P d -> u d = Returned d' -> P d'.

(** A request to one of the six database routes, with what it reads from
    outside the database *)
Inductive request :=
| GET_courses
| POST_courses (env : environment) (body : course_body)
| GET_progress
| POST_progress (env : environment) (body : progress_body)
| GET_settings
| POST_settings (body : settings_body).

(** The database after a request is served *)
Definition after (policy : arity_policy) (r : request) (d : database) : database :=
  match r with
  | GET_courses => fst (get_courses policy d)
  | POST_courses env body => fst (post_courses policy env body d)
  | GET_progress => fst (get_progress policy d)
  | POST_progress env body => fst (post_progress policy env body d)
  | GET_settings => fst (get_settings policy d)
  | POST_settings body => fst (post_settings policy body d)
  end.

(** The databases the server can be in: a new file is seeded at the first
    start; after that the server serves requests and may be started again. *)
Inductive reachable (policy : arity_policy) : database -> Prop :=
| first_start (now : string) :
    reachable policy (fst (seed policy now Store.empty))
| restart (now : string) (d : database) :
    reachable policy d -> reachable policy (fst (seed policy now d))
| served (r : request) (d : database) :
    reachable policy d -> reachable policy (after policy r d).

(** The settings table holds no row, or the one row with id 1 and a voice
    flag of 0 or 1. *)
Definition settings_singleton (d : database) : Prop :=
  settings d = [] \/
  exists theme voice,
    settings d = [{| s_id := 1; s_theme := theme; s_voice_enabled := voice |}] /\
    (voice = 0 \/ voice = 1)%Z.

(** The [PRIMARY KEY] and [UNIQUE] constraints of the schema *)
Definition keys_unique (d : database) : Prop :=
  NoDup (map c_id (courses d)) /\
  NoDup (map m_id (modules d)) /\
  NoDup (map l_id (lessons d)) /\
  NoDup (map p_id (step_progress d)) /\
  NoDup (map pair_of (step_progress d)).

(** What holds of the tables whatever statement is run next *)
Definition well_keyed (d : database) : Prop :=
  courses d <> [] /\ keys_unique d /\ settings_singleton d.

(** [references_resolve] is the two [FOREIGN KEY] clauses. *)
Definition consistent (d : database) : Prop :=
  well_keyed d /\ references_resolve d.

End Startup.

(** ** The chat proxy *)

Module ModalChat.
Import JS.
Local Open Scope string_scope.

Section Proxy.

(** The types of the [messages] of the request and of a parsed JSON body *)
Variable Messages Json : Type.

(** What the handler sends upstream *)
Record upstream_request := {
  url : string;
  method : string;
  content_type : string;
  authorization : string;
  body_model : string;
  body_messages : Messages;
  body_max_tokens : Z
}.

(** An upstream response: its status, and what [text()] and [json()]
    resolve to ([None] when they reject) *)
Record upstream_response := {
  status : Z;
  text : option string;
  json : option Json
}.

(** [response.ok] *)
Definition ok (r : upstream_response) : bool :=
  ((200 <=? status r) && (status r <=? 299))%Z.

Inductive fetched :=
| Failed
| Answered (r : upstream_response).

Inductive reply_body :=
| Error (error : string) (details : option string)
| Data (data : Json).

Record reply := {
  reply_status : Z;
  reply_json : reply_body
}.

(** What the handler does: the upstream calls, the number of
    [console.error] calls, and the response *)
Record handled := {
  calls : list upstream_request;
  errors_logged : nat;
  answer : reply
}.

(** [app.post("/api/modal-chat")]; [modalApiKey] is
    [process.env.MODAL_API_KEY], [""] when unset *)
Definition modal_chat (modalApiKey : string) (messages : Messages)
  (fetch : upstream_request -> fetched) : handled :=
  if negb (truthy modalApiKey)
  then {| calls := []; errors_logged := 0;
          answer := {| reply_status := 500;
                       reply_json := Error "MODAL_API_KEY is not configured." None |} |}
  else
    let sent :=
      {| url := "https://api.us-west-2.modal.direct/v1/chat/completions";
         method := "POST";
         content_type := "application/json";
         authorization := "Bearer " ++ modalApiKey;
         body_model := "zai-org/GLM-5-FP8";
         body_messages := messages;
         body_max_tokens := 500 |} in
    let proxy_failure :=
      {| calls := [sent]; errors_logged := 1;
         answer := {| reply_status := 500;
                      reply_json :=
                        Error "Internal server error when proxying to Modal API" None |} |} in
    match fetch sent with
    | Failed => proxy_failure
    | Answered modalResponse =>
        if negb (ok modalResponse)
        then match text modalResponse with
             | Some errorText =>
                 {| calls := [sent]; errors_logged := 1;
                    answer := {| reply_status := status modalResponse;
                                 reply_json :=
                                   Error "Failed to get response from Modal API"
                                         (Some errorText) |} |}
             | None => proxy_failure
             end
        else match json modalResponse with
             | Some data =>
                 {| calls := [sent]; errors_logged := 0;
                    answer := {| reply_status := 200; reply_json := Data data |} |}
             | None => proxy_failure
             end
    end.

End Proxy.

End ModalChat.

(** ** The sidebar *)

Module Sidebar.
Import Store.
Local Open Scope string_scope.

Inductive lesson_status :=
| status_completed
| status_in_progress
| status_not_started.

(** [getLessonStatus]; [stepProgress] is the array fetched from
    [GET /api/progress]. *)
Definition getLessonStatus (stepProgress : list progress_row) (lessonId : string)
  : lesson_status :=
  let lessonSteps := filter (fun p => String.eqb (p_lesson_id p) lessonId) stepProgress in
  let completedSteps :=
    length (filter (fun p => String.eqb (p_status p) "completed") lessonSteps) in
  if Nat.eqb completedSteps 5 then status_completed
  else if Nat.ltb 0 completedSteps then status_in_progress
  else status_not_started.

(** The rows the sidebar counts for a lesson *)
Definition completed_steps_of (stepProgress : list progress_row) (lessonId : string)
  : list progress_row :=
  filter (fun p => String.eqb (p_status p) "completed")
    (filter (fun p => String.eqb (p_lesson_id p) lessonId) stepProgress).

End Sidebar.

(** ** The dashboard *)

Module Dashboard.
Import Store Server.
Local Open Scope string_scope.

(** [n || 0] for a number [n] *)
Definition or_0 (n : Z) : Z := if Z.eqb n 0 then 0%Z else n.

(** The three [StatCard] values, before [toString()]; the courses are the
    ones fetched from [GET /api/courses], whose [progress] is a number. *)
Definition available_courses (courses : list course_json) : nat := length courses.

Definition active_learning (courses : list course_json) : nat :=
  length (filter (fun c => ((0 <? or_0 (cj_progress c)) &&
                            (or_0 (cj_progress c) <? 100))%Z) courses).

Definition completed_courses (courses : list course_json) : nat :=
  length (filter (fun c => (or_0 (cj_progress c) =? 100)%Z) courses).

(** The label of the button of a [CourseCard] *)
Definition button_label (course : course_json) : string :=
  if (0 <? or_0 (cj_progress course))%Z then "Continue Learning" else "Start Course".

End Dashboard.

(** ** The application shell *)

Module App.
Import Store Sql Server JS.
Local Open Scope string_scope.

(** [LessonStep] *)
Inductive LessonStep := explanation | example | guided | independent | feedback.

(** The string a [LessonStep] is *)
Definition step_name (step : LessonStep) : string :=
  match step with
  | explanation => "explanation"
  | example => "example"
  | guided => "guided"
  | independent => "independent"
  | feedback => "feedback"
  end.

Inductive view := home | lesson | dashboard | builder.

(** The [useState] cells of [App]; [None] is [null] *)
Record state := {
  courses : list course_json;
  stepProgress : list progress_row;
  currentCourseId : option string;
  currentLessonId : option string;
  activeView : view;
  currentStep : LessonStep;
  userCode : string;
  voiceEnabled : bool;
  isLoading : bool
}.

Definition setCourses (v : list course_json) (st : state) : state :=
  {| courses := v; stepProgress := stepProgress st;
     currentCourseId := currentCourseId st; currentLessonId := currentLessonId st;
     activeView := activeView st; currentStep := currentStep st;
     userCode := userCode st; voiceEnabled := voiceEnabled st;
     isLoading := isLoading st |}.

Definition setStepProgress (v : list progress_row) (st : state) : state :=
  {| courses := courses st; stepProgress := v;
     currentCourseId := currentCourseId st; currentLessonId := currentLessonId st;
     activeView := activeView st; currentStep := currentStep st;
     userCode := userCode st; voiceEnabled := voiceEnabled st;
     isLoading := isLoading st |}.

Definition setCurrentCourseId (v : option string) (st : state) : state :=
  {| courses := courses st; stepProgress := stepProgress st;
     currentCourseId := v; currentLessonId := currentLessonId st;
     activeView := activeView st; currentStep := currentStep st;
     userCode := userCode st; voiceEnabled := voiceEnabled st;
     isLoading := isLoading st |}.

Definition setCurrentLessonId (v : option string) (st : state) : state :=
  {| courses := courses st; stepProgress := stepProgress st;
     currentCourseId := currentCourseId st; currentLessonId := v;
     activeView := activeView st; currentStep := currentStep st;
     userCode := userCode st; voiceEnabled := voiceEnabled st;
     isLoading := isLoading st |}.

Definition setActiveView (v : view) (st : state) : state :=
  {| courses := courses st; stepProgress := stepProgress st;
     currentCourseId := currentCourseId st; currentLessonId := currentLessonId st;
     activeView := v; currentStep := currentStep st;
     userCode := userCode st; voiceEnabled := voiceEnabled st;
     isLoading := isLoading st |}.

Definition setCurrentStep (v : LessonStep) (st : state) : state :=
  {| courses := courses st; stepProgress := stepProgress st;
     currentCourseId := currentCourseId st; currentLessonId := currentLessonId st;
     activeView := activeView st; currentStep := v;
     userCode := userCode st; voiceEnabled := voiceEnabled st;
     isLoading := isLoading st |}.

Definition setUserCode (v : string) (st : state) : state :=
  {| courses := courses st; stepProgress := stepProgress st;
     currentCourseId := currentCourseId st; currentLessonId := currentLessonId st;
     activeView := activeView st; currentStep := currentStep st;
     userCode := v; voiceEnabled := voiceEnabled st;
     isLoading := isLoading st |}.

(** The inner loop of [findLesson], over the modules of one course *)
Fixpoint findLesson_in (course_modules : list module_json) (lessonId : string)
  : option lesson_row :=
  match course_modules with
  | [] => None
  | mod_ :: rest =>
      match find (fun l => String.eqb (l_id l) lessonId) (mj_lessons mod_) with
      | Some found => Some found
      | None => findLesson_in rest lessonId
      end
  end.

(** [findLesson], over the [courses] of the state *)
Fixpoint findLesson (courses : list course_json) (lessonId : string)
  : option lesson_row :=
  match courses with
  | [] => None
  | course :: rest =>
      match findLesson_in (cj_modules course) lessonId with
      | Some found => Some found
      | None => findLesson rest lessonId
      end
  end.

(** [handleSelectLesson] *)
Definition handleSelectLesson (lessonId : string) (st : state) : state :=
  let st := setCurrentLessonId (Some lessonId) st in
  let st := setActiveView lesson st in
  let st := setCurrentStep explanation st in
  match findLesson (courses st) lessonId with
  | Some found => setUserCode (l_example found) st
  | None => st
  end.

(** [handleSelectCourse] *)
Definition handleSelectCourse (courseId : string) (st : state) : state :=
  let st := setCurrentCourseId (Some courseId) st in
  match find (fun c => String.eqb (c_id (cj_course c)) courseId) (courses st) with
  | Some course =>
      match cj_modules course with
      | first_module :: _ =>
          match mj_lessons first_module with
          | first_lesson :: _ => handleSelectLesson (l_id first_lesson) st
          | [] => st
          end
      | [] => st
      end
  | None => st
  end.

(** [handleStepChange], with the server it talks to.  A request the
    handler fails on is answered with status 500 and a body that is no JSON:
    the response of the POST is not looked at, and [json()] of a failed GET
    rejects, which ends in the [catch]. *)
Definition handleStepChange (policy : arity_policy) (env : environment)
  (step : LessonStep) (sys : state * database) : state * database :=
  let (st, d) := sys in
  let st := setCurrentStep step st in
  match currentLessonId st with
  | Some lessonId =>
      if truthy lessonId
      then
        let d := fst (post_progress policy env
                        {| pb_lesson_id := lessonId; pb_step_id := step_name step;
                           pb_status := "completed" |} d) in
        let (d, coursesRes) := get_courses policy d in
        let (d, progressRes) := get_progress policy d in
        match coursesRes, progressRes with
        | Returned coursesData, Returned progressData =>
            (setStepProgress progressData (setCourses coursesData st), d)
        | _, _ => (st, d)
        end
      else (st, d)
  | None => (st, d)
  end.

End App.

(** ** The instructor panel: stepping through a lesson *)

Module InstructorPanel.
Import App.

Definition steps : list LessonStep :=
  [explanation; example; guided; independent; feedback].

Definition same_step (a b : LessonStep) : bool :=
  match a, b with
  | explanation, explanation | example, example | guided, guided
  | independent, independent | feedback, feedback => true
  | _, _ => false
  end.

(** [Array.prototype.indexOf] *)
Fixpoint indexOf (l : list LessonStep) (x : LessonStep) : Z :=
  match l with
  | [] => (-1)%Z
  | y :: rest =>
      if same_step y x then 0%Z
      else let i := indexOf rest x in if (i <? 0)%Z then (-1)%Z else (i + 1)%Z
  end.

(** The [onClick] of "Next Step" *)
Definition next_step_click {S} (currentStep : LessonStep)
  (onStepChange : LessonStep -> S -> S) (s : S) : S :=
  let nextIdx := (indexOf steps currentStep + 1)%Z in
  if (nextIdx <? Z.of_nat (length steps))%Z
  then match nth_error steps (Z.to_nat nextIdx) with
       | Some step => onStepChange step s
       | None => s
       end
  else s.

(** "Next Step" pressed in the running application *)
Definition press_next (policy : Sql.arity_policy) (env : Server.environment)
  (sys : state * Store.database) : state * Store.database :=
  next_step_click (currentStep (fst sys)) (handleStepChange policy env) sys.

(** "Next Step" pressed once for each environment of the list *)
Definition press_next_times (policy : Sql.arity_policy) (envs : list Server.environment)
  (sys : state * Store.database) : state * Store.database :=
  fold_left (fun sys env => press_next policy env sys) envs sys.

End InstructorPanel.

(** ** Reading the client against the catalogue *)

Module Catalogue.
Import Store Server.

(** The lessons of the fetched courses, in the order [findLesson] visits
    them *)
Definition all_lessons (courses : list course_json) : list lesson_row :=
  flat_map (fun course => flat_map mj_lessons (cj_modules course)) courses.

(** The rows of a table for one lesson *)
Definition rows_of_lesson (lessonId : string) (table : list progress_row)
  : list progress_row :=
  filter (fun p => String.eqb (p_lesson_id p) lessonId) table.

(** The stages "Next Step" can enter *)
Definition entered_by_next : list string :=
  ["example"; "guided"; "independent"; "feedback"]%string.

(** A table whose rows for the lesson have distinct step ids, each of them
    a stage "Next Step" can enter *)
Definition only_entered_by_next (lessonId : string) (table : list progress_row) : Prop :=
  NoDup (map p_step_id (rows_of_lesson lessonId table)) /\
  forall r, In r table -> p_lesson_id r = lessonId -> In (p_step_id r) entered_by_next.

End Catalogue.

(** ** Sample states of the client *)

Module ClientSamples.
Import Store Sql Server App.
Local Open Scope string_scope.

(** The database of a new installation *)
Definition seeded : database :=
  fst (Startup.seed Strict "2026-01-01 00:00:00" Store.empty).

(** The application after its first fetch from a new installation *)
Definition at_home : state :=
  {| courses := map (course_view seeded) (Store.courses seeded);
     stepProgress := [];
     currentCourseId := None; currentLessonId := None;
     activeView := home; currentStep := explanation;
     userCode := ""; voiceEnabled := true; isLoading := false |}.

(** The second seed lesson, as the code panel receives it, and an HTML
    lesson *)
Definition css_lesson : CodeIDE.Lesson :=
  {| CodeIDE.id := "l2"; CodeIDE.title := "CSS Selectors";
     CodeIDE.concept := "CSS is used to style HTML elements.";
     CodeIDE.example := "h1 { color: blue; }";
     CodeIDE.practice_guided := "Change the color of h1 to red.";
     CodeIDE.practice_independent := "Style a paragraph";
     CodeIDE.language := "css" |}.

Definition html_lesson : CodeIDE.Lesson :=
  {| CodeIDE.id := "l1"; CodeIDE.title := "What is HTML?";
     CodeIDE.concept := "HTML is the standard markup language.";
     CodeIDE.example := "<h1>Hello</h1>";
     CodeIDE.practice_guided := "Add a paragraph tag below the heading.";
     CodeIDE.practice_independent := "Create a list of your favorite fruits.";
     CodeIDE.language := "html" |}.

(** The code panel of a Python lesson once the runtime is there *)
Definition runtime_loaded : CodeIDE.world string :=
  {| CodeIDE.output := "Python runtime ready."; CodeIDE.isRunning := false;
     CodeIDE.activeTab := CodeIDE.editor; CodeIDE.pyodide := true;
     CodeIDE.console_log := CodeIDE.native_log;
     CodeIDE.preview_document := None; CodeIDE.logs := [];
     CodeIDE.requests := []; CodeIDE.delivered := [] |}.

End ClientSamples.

(** ** The lesson builder *)

Module LessonBuilder.
Import JS.
Local Open Scope string_scope.

(** The objects of the builder: a lesson has the seven fields of
    [newLesson], a module [id], [title] and [lessons], the course [id],
    [title], [description] and [modules]. *)
Record Module_ := {
  module_id : string;
  module_title : string;
  lessons : list CodeIDE.Lesson
}.

Record Course := {
  course_id : string;
  course_title : string;
  description : string;
  modules : list Module_
}.

(** The initial [useState] value *)
Definition initial : Course :=
  {| course_id := ""; course_title := ""; description := ""; modules := [] |}.

(** [{ ...m, lessons: v }] and [{ ...m, title: v }] *)
Definition with_lessons (m : Module_) (v : list CodeIDE.Lesson) : Module_ :=
  {| module_id := module_id m; module_title := module_title m; lessons := v |}.

Definition with_module_title (m : Module_) (v : string) : Module_ :=
  {| module_id := module_id m; module_title := v; lessons := lessons m |}.

(** [{ ...prev, modules: v }], [{ ...course, title: v }] and
    [{ ...course, description: v }] *)
Definition with_modules (c : Course) (v : list Module_) : Course :=
  {| course_id := course_id c; course_title := course_title c;
     description := description c; modules := v |}.

Definition with_title (c : Course) (v : string) : Course :=
  {| course_id := course_id c; course_title := v;
     description := description c; modules := modules c |}.

Definition with_description (c : Course) (v : string) : Course :=
  {| course_id := course_id c; course_title := course_title c;
     description := v; modules := modules c |}.

(** [handleAddModule]; [now] is [Date.now()] *)
Definition handleAddModule (now : Z) (prev : Course) : Course :=
  let newModule :=
    {| module_id := "m" ++ string_of_Z now; module_title := "New Module";
       lessons := [] |} in
  with_modules prev (modules prev ++ [newModule]).

Definition newLesson (now : Z) : CodeIDE.Lesson :=
  {| CodeIDE.id := "l" ++ string_of_Z now;
     CodeIDE.title := "New Lesson";
     CodeIDE.concept := "";
     CodeIDE.example := "";
     CodeIDE.practice_guided := "";
     CodeIDE.practice_independent := "";
     CodeIDE.language := "javascript" |}.

(** [handleAddLesson] *)
Definition handleAddLesson (now : Z) (moduleId : string) (prev : Course) : Course :=
  with_modules prev
    (map (fun m => if String.eqb (module_id m) moduleId
                   then with_lessons m (lessons m ++ [newLesson now])
                   else m)
         (modules prev)).

(** [Partial<Lesson>]: [None] is an absent key *)
Record updates := {
  u_id : option string;
  u_title : option string;
  u_concept : option string;
  u_example : option string;
  u_practice_guided : option string;
  u_practice_independent : option string;
  u_language : option string
}.

Definition given (u : option string) (old : string) : string :=
  match u with
  | Some v => v
  | None => old
  end.

(** [{ ...l, ...updates }] *)
Definition merge (l : CodeIDE.Lesson) (u : updates) : CodeIDE.Lesson :=
  {| CodeIDE.id := given (u_id u) (CodeIDE.id l);
     CodeIDE.title := given (u_title u) (CodeIDE.title l);
     CodeIDE.concept := given (u_concept u) (CodeIDE.concept l);
     CodeIDE.example := given (u_example u) (CodeIDE.example l);
     CodeIDE.practice_guided := given (u_practice_guided u) (CodeIDE.practice_guided l);
     CodeIDE.practice_independent :=
       given (u_practice_independent u) (CodeIDE.practice_independent l);
     CodeIDE.language := given (u_language u) (CodeIDE.language l) |}.

(** [handleUpdateLesson] *)
Definition handleUpdateLesson (moduleId lessonId : string) (u : updates) (prev : Course)
  : Course :=
  with_modules prev
    (map (fun m => if String.eqb (module_id m) moduleId
                   then with_lessons m
                          (map (fun l => if String.eqb (CodeIDE.id l) lessonId
                                         then merge l u else l)
                               (lessons m))
                   else m)
         (modules prev)).

(** [handleRemoveLesson] *)
Definition handleRemoveLesson (moduleId lessonId : string) (prev : Course) : Course :=
  with_modules prev
    (map (fun m => if String.eqb (module_id m) moduleId
                   then with_lessons m
                          (filter (fun l => negb (String.eqb (CodeIDE.id l) lessonId))
                                  (lessons m))
                   else m)
         (modules prev)).

(** The lesson fields the form has an input for *)
Inductive lesson_field :=
| field_title
| field_language
| field_concept
| field_example
| field_practice_independent.

Definition no_updates : updates :=
  {| u_id := None; u_title := None; u_concept := None; u_example := None;
     u_practice_guided := None; u_practice_independent := None; u_language := None |}.

(** [{ title: v }], [{ language: v }], ... *)
Definition only (field : lesson_field) (v : string) : updates :=
  match field with
  | field_title =>
      {| u_id := None; u_title := Some v; u_concept := None; u_example := None;
         u_practice_guided := None; u_practice_independent := None; u_language := None |}
  | field_language =>
      {| u_id := None; u_title := None; u_concept := None; u_example := None;
         u_practice_guided := None; u_practice_independent := None; u_language := Some v |}
  | field_concept =>
      {| u_id := None; u_title := None; u_concept := Some v; u_example := None;
         u_practice_guided := None; u_practice_independent := None; u_language := None |}
  | field_example =>
      {| u_id := None; u_title := None; u_concept := None; u_example := Some v;
         u_practice_guided := None; u_practice_independent := None; u_language := None |}
  | field_practice_independent =>
      {| u_id := None; u_title := None; u_concept := None; u_example := None;
         u_practice_guided := None; u_practice_independent := Some v; u_language := None |}
  end.

(** What the form of the builder can do to the course: the [onChange] and
    [onClick] handlers of the editor section *)
Inductive action :=
| SetTitle (v : string)
| SetDescription (v : string)
| SetModuleTitle (moduleId v : string)
| AddModule (now : Z)
| AddLesson (now : Z) (moduleId : string)
| RemoveLesson (moduleId lessonId : string)
| EditLesson (moduleId lessonId : string) (field : lesson_field) (v : string).

Definition act (course : Course) (a : action) : Course :=
  match a with
  | SetTitle v => with_title course v
  | SetDescription v => with_description course v
  | SetModuleTitle moduleId v =>
      with_modules course
        (map (fun m => if String.eqb (module_id m) moduleId
                       then with_module_title m v else m)
             (modules course))
  | AddModule now => handleAddModule now course
  | AddLesson now moduleId => handleAddLesson now moduleId course
  | RemoveLesson moduleId lessonId => handleRemoveLesson moduleId lessonId course
  | EditLesson moduleId lessonId field v =>
      handleUpdateLesson moduleId lessonId (only field v) course
  end.

(** The course after a sequence of form actions on a new builder *)
Definition built (actions : list action) : Course := fold_left act actions initial.

(** What [App.handleSaveCourse] posts, as the server destructures it
    ([image_url] is absent from the builder's course) *)
Definition posted (course : Course) : Server.course_body :=
  {| Server.cb_id := course_id course;
     Server.cb_title := course_title course;
     Server.cb_description := description course;
     Server.cb_image_url := "";
     Server.cb_modules :=
       map (fun m =>
              {| Server.mb_id := module_id m;
                 Server.mb_title := module_title m;
                 Server.mb_lessons :=
                   map (fun l =>
                          {| Server.lb_id := CodeIDE.id l;
                             Server.lb_title := CodeIDE.title l;
                             Server.lb_concept := CodeIDE.concept l;
                             Server.lb_example := CodeIDE.example l;
                             Server.lb_practice_guided := CodeIDE.practice_guided l;
                             Server.lb_practice_independent :=
                               CodeIDE.practice_independent l;
                             Server.lb_language := CodeIDE.language l |})
                       (lessons m) |})
           (modules course) |}.

End LessonBuilder.

(** ** The Gemini service module: speech and prompts *)

Module Speech.
Import JS Gemini.
Local Open Scope string_scope.

(** What a call of [generateSpeech] does: the trace of [withRetry], the
    number of [console.warn] and [console.error] calls of its [catch], and
    the value it resolves to ([None] is [null] or [undefined]) *)
Record spoken := {
  trace : list event;
  quota_warnings : nat;
  errors_logged : nat;
  audio : option string
}.

(** [generateSpeech]; [fn i] is the outcome of the i-th call of the
    function given to [withRetry], the audio of the first candidate when it
    resolves. *)
Definition generateSpeech (fn : nat -> result (option string)) : spoken :=
  let (trace, outcome) := withRetry fn 3 1500 in
  match outcome with
  | Resolved base64Audio =>
      {| trace := trace; quota_warnings := 0; errors_logged := 0;
         audio := base64Audio |}
  | Rejected err =>
      let isQuota := message_includes err "quota" || message_includes err "429" in
      {| trace := trace;
         quota_warnings := if isQuota then 1 else 0;
         errors_logged := if isQuota then 0 else 1;
         audio := None |}
  end.

End Speech.

Module Instructor.
Import JS.
Local Open Scope string_scope.

Inductive role := user | model.

(** [ChatMessage] *)
Record ChatMessage := {
  message_role : role;
  text : string;
  timestamp : Z;
  hasCodeUpdate : option bool
}.

(** An entry of [contents]: [{ role, parts: [{ text }] }] *)
Record content := {
  content_role : role;
  part_text : string
}.

Definition of_message (h : ChatMessage) : content :=
  {| content_role := message_role h; part_text := text h |}.

(** [option string] for an optional argument: [None] is [undefined] *)
Definition given_truthy (s : option string) : bool :=
  match s with
  | Some v => truthy v
  | None => false
  end.

Definition code_fence : string := "```".

(** Lines 191-211 of the service: the [contents] of the request *)
Definition contents (lesson : CodeIDE.Lesson) (step : App.LessonStep)
  (history : list ChatMessage) (userInput userCode : option string) : list content :=
  let contents := map of_message history in
  if given_truthy userInput || given_truthy userCode
  then
    let prompt := if given_truthy userInput
                  then match userInput with Some v => v | None => "" end
                  else "" in
    let prompt :=
      match userCode with
      | Some code =>
          if truthy code
          then prompt ++ newline ++ newline ++ "User's current code:" ++ newline
               ++ code_fence ++ CodeIDE.language lesson ++ newline
               ++ code ++ newline ++ code_fence
          else prompt
      | None => prompt
      end in
    contents ++ [{| content_role := user; part_text := prompt |}]
  else if Nat.eqb (length history) 0
       then contents ++ [{| content_role := user;
                            part_text := "Start the " ++ App.step_name step
                                         ++ " step for this lesson." |}]
       else contents.

End Instructor.

(** ** The code panel between two runs *)

Module Preview.
Import JS CodeIDE.
Local Open Scope string_scope.

(** Lines 318-342 of the component: the editor is rendered on the editor
    tab and the iframe on the preview tab, so that [iframeRef.current] is
    null exactly on the editor tab. *)
Definition iframe_as_rendered {F} (w : world F) : Prop :=
  preview_document w = None <-> activeTab w = editor.

(** The render that follows a state change: on the editor tab the iframe is
    unmounted; an iframe mounted by this render holds an empty document. *)
Definition render {F} (w : world F) : world F :=
  {| output := output w; isRunning := isRunning w; activeTab := activeTab w;
     pyodide := pyodide w; console_log := console_log w;
     preview_document :=
       match activeTab w with
       | editor => None
       | preview =>
           match preview_document w with
           | Some doc => Some doc
           | None => Some ""
           end
       end;
     logs := logs w; requests := requests w; delivered := delivered w |}.

(** The languages [runCode] has a branch for *)
Definition runnable (language : string) : bool :=
  String.eqb language "javascript" || String.eqb language "html"
  || String.eqb language "python".

End Preview.

(** ** Loading the Python runtime *)

Module PyodideLoader.
Import JS CodeIDE.
Local Open Scope string_scope.

(** The page around the component: whether [window.loadPyodide] is defined
    after [n] waits of the polling loop, and what the call
    [window.loadPyodide({ indexURL })] settles to. *)
Record page := {
  script_loaded : nat -> bool;
  started : unit + thrown
}.

(** The state [loadPyodide] touches, with a record of the waits and of the
    values given to [console.error] *)
Record loader := {
  ld_output : string;
  ld_pyodide : bool;
  ld_waits : list Z;
  ld_errors : list thrown
}.

(** The polling loop, entered with [attempts] and [budget] further
    iterations allowed ([attempts + budget = 50]); the result is the final
    value of [attempts]. *)
Fixpoint poll (p : page) (budget attempts : nat) : nat :=
  if script_loaded p attempts then attempts
  else match budget with
       | O => attempts
       | S budget' => poll p budget' (S attempts)
       end.

(** The [catch] of [loadPyodide] *)
Definition failed (err : thrown) (st : loader) : loader :=
  {| ld_output := "Failed to load Python runtime: " ++ formatError err;
     ld_pyodide := ld_pyodide st;
     ld_waits := ld_waits st;
     ld_errors := ld_errors st ++ [err] |}.

Definition script_not_found : thrown :=
  ErrorObject
    "Pyodide script not found or failed to load. Check your internet connection.".

(** [loadPyodide] *)
Definition loadPyodide (p : page) (st : loader) : loader :=
  if ld_pyodide st then st
  else
    let attempts := poll p 50 0 in
    let st := {| ld_output := "Loading Python runtime...";
                 ld_pyodide := ld_pyodide st;
                 ld_waits := ld_waits st ++ repeat 100%Z attempts;
                 ld_errors := ld_errors st |} in
    if negb (script_loaded p attempts)
    then failed script_not_found st
    else match started p with
         | inl _ =>
             {| ld_output := "Python runtime ready.";
                ld_pyodide := true;
                ld_waits := ld_waits st;
                ld_errors := ld_errors st |}
         | inr err => failed err st
         end.

End PyodideLoader.

(** ** The instructor panel: decoding the audio *)

Module PCM.
Local Open Scope Z_scope.

(** [s.charCodeAt(i)]; [None] is [NaN].  The string is the result of
    [atob], whose characters have codes 0 to 255. *)
Definition charCodeAt (s : string) (i : nat) : option Z :=
  match String.get i s with
  | Some c => Some (Z.of_nat (nat_of_ascii c))
  | None => None
  end.

(** The integer the operators [<<] and [|] see: [NaN] is 0 *)
Definition ToInt32 (c : option Z) : Z :=
  match c with
  | Some v => v
  | None => 0
  end.

(** The conversion of a store into an [Int16Array] *)
Definition ToInt16 (v : Z) : Z :=
  let m := v mod 65536 in
  if m <? 32768 then m else m - 65536.

(** [a[k] = v] on a typed array: a store outside the array does nothing *)
Fixpoint store (a : list Z) (k : nat) (v : Z) : list Z :=
  match a, k with
  | [], _ => []
  | _ :: rest, O => v :: rest
  | x :: rest, S k' => x :: store rest k' v
  end.

(** [(binaryString.charCodeAt(i + 1) << 8) | binaryString.charCodeAt(i)] *)
Definition word_at (binaryString : string) (i : nat) : Z :=
  Z.lor (Z.shiftl (ToInt32 (charCodeAt binaryString (i + 1))) 8)
        (ToInt32 (charCodeAt binaryString i)).

(** [for (let i = 0; i < len; i += 2) bytes[i / 2] = ...], entered at [i]
    with at most [iterations] iterations to go *)
Fixpoint fill (binaryString : string) (iterations i : nat) (bytes : list Z) : list Z :=
  match iterations with
  | O => bytes
  | S iterations' =>
      if Nat.ltb i (String.length binaryString)
      then fill binaryString iterations' (i + 2)
             (store bytes (i / 2) (ToInt16 (word_at binaryString i)))
      else bytes
  end.

(** The [Int16Array] named [bytes] after the loop; [new Int16Array(len / 2)]
    has [floor(len / 2)] elements, all 0 *)
Definition int16_of (binaryString : string) : list Z :=
  let len := String.length binaryString in
  fill binaryString len 0%nat (repeat 0 (Nat.div len 2)).

(** [float32Data]: [bytes[i] / 32768], which binary32 holds exactly *)
Definition float32_of (binaryString : string) : list Q :=
  map (fun b => Qmake b 32768) (int16_of binaryString).

(** 16-bit little-endian PCM, as the speech model sends it: the low byte
    of each sample, then its high byte *)
Definition byte (v : Z) : ascii := ascii_of_nat (Z.to_nat (v mod 256)).

Fixpoint pcm16le (samples : list Z) : string :=
  match samples with
  | [] => EmptyString
  | x :: rest => String (byte x) (String (byte (x / 256)) (pcm16le rest))
  end.

End PCM.

(** ** The application shell: fetching and saving *)

Module AppData.
Import Store Sql Server JS App.
Local Open Scope string_scope.

Definition setVoiceEnabled (v : bool) (st : state) : state :=
  {| courses := courses st; stepProgress := stepProgress st;
     currentCourseId := currentCourseId st; currentLessonId := currentLessonId st;
     activeView := activeView st; currentStep := currentStep st;
     userCode := userCode st; voiceEnabled := v;
     isLoading := isLoading st |}.

Definition setIsLoading (v : bool) (st : state) : state :=
  {| courses := courses st; stepProgress := stepProgress st;
     currentCourseId := currentCourseId st; currentLessonId := currentLessonId st;
     activeView := activeView st; currentStep := currentStep st;
     userCode := userCode st; voiceEnabled := voiceEnabled st;
     isLoading := v |}.

(** [fetchData], with the server it talks to.  The three requests are
    sent before any response is read.  A request the handler fails on is
    answered with a body that is no JSON, and so is a settings response
    without a row: [json()] rejects, and the [catch] is reached before any
    state is set. *)
Definition fetchData (policy : arity_policy) (sys : state * database)
  : state * database :=
  let (st, d) := sys in
  let st := setIsLoading true st in
  let (d, coursesRes) := get_courses policy d in
  let (d, progressRes) := get_progress policy d in
  let (d, settRes) := get_settings policy d in
  let st :=
    match coursesRes, progressRes, settRes with
    | Returned coursesData, Returned progressData, Returned (Some sett) =>
        setVoiceEnabled (Z.eqb (s_voice_enabled sett) 1)
          (setStepProgress progressData (setCourses coursesData st))
    | _, _, _ => st
    end in
  (setIsLoading false st, d).

(** [handleSaveCourse]; [body] is the posted course as the server reads
    it, and [res.ok] holds when the handler returned. *)
Definition handleSaveCourse (policy : arity_policy) (env : environment)
  (body : course_body) (sys : state * database) : state * database :=
  let (st, d) := sys in
  let (d, res) := post_courses policy env body d in
  match res with
  | Returned _ =>
      let (st, d) := fetchData policy (st, d) in
      (setActiveView home st, d)
  | Thrown _ => (st, d)
  end.

End AppData.

(** ** The instructor panel: speaking a message *)

Module Voice.
Import JS Gemini Speech.
Local Open Scope string_scope.

Inductive voice_type := ai | local.

(** The two players: [playLocalVoice(text, messageId)] and
    [playPCM(base64, messageId, text)] *)
Inductive sound :=
| LocalVoice (text : string) (messageId : Z)
| AiVoice (base64 : string) (messageId : Z) (text : string).

(** A call of [handleSpeak] suspended at [await generateSpeech(cleanText)]:
    the number of its request and the variables of the call *)
Record suspended := {
  call_request : nat;
  call_text : string;
  call_messageId : Z;
  call_cleanText : string
}.

(** The state [handleSpeak] reads and writes, with a record of the texts
    given to [generateSpeech], of the calls suspended at their [await], of
    the fallback warnings, of the timers set by [setTimeout] that have not
    fired, and of the sounds started *)
Record panel := {
  voiceType : voice_type;
  showVoiceToast : bool;
  requested : list string;
  awaiting : list suspended;
  fallback_warnings : nat;
  toast_timers : list Z;
  played : list sound
}.

(** [useState('local')], [useState(false)] *)
Definition initial : panel :=
  {| voiceType := local; showVoiceToast := false; requested := []; awaiting := [];
     fallback_warnings := 0; toast_timers := []; played := [] |}.

Definition setVoiceType (v : voice_type) (p : panel) : panel :=
  {| voiceType := v; showVoiceToast := showVoiceToast p;
     requested := requested p; awaiting := awaiting p;
     fallback_warnings := fallback_warnings p; toast_timers := toast_timers p;
     played := played p |}.

Definition setShowVoiceToast (b : bool) (p : panel) : panel :=
  {| voiceType := voiceType p; showVoiceToast := b;
     requested := requested p; awaiting := awaiting p;
     fallback_warnings := fallback_warnings p; toast_timers := toast_timers p;
     played := played p |}.

Definition setTimeout (ms : Z) (p : panel) : panel :=
  {| voiceType := voiceType p; showVoiceToast := showVoiceToast p;
     requested := requested p; awaiting := awaiting p;
     fallback_warnings := fallback_warnings p; toast_timers := toast_timers p ++ [ms];
     played := played p |}.

Definition warn (p : panel) : panel :=
  {| voiceType := voiceType p; showVoiceToast := showVoiceToast p;
     requested := requested p; awaiting := awaiting p;
     fallback_warnings := S (fallback_warnings p); toast_timers := toast_timers p;
     played := played p |}.

Definition play (s : sound) (p : panel) : panel :=
  {| voiceType := voiceType p; showVoiceToast := showVoiceToast p;
     requested := requested p; awaiting := awaiting p;
     fallback_warnings := fallback_warnings p; toast_timers := toast_timers p;
     played := played p ++ [s] |}.

(** [generateSpeech(cleanText)] is called and the call of [handleSpeak]
    waits for it *)
Definition request (c : suspended) (p : panel) : panel :=
  {| voiceType := voiceType p; showVoiceToast := showVoiceToast p;
     requested := requested p ++ [call_cleanText c]; awaiting := awaiting p ++ [c];
     fallback_warnings := fallback_warnings p; toast_timers := toast_timers p;
     played := played p |}.

Definition is_request (n : nat) (c : suspended) : bool := Nat.eqb (call_request c) n.

(** The call that waits for request [n] goes on *)
Definition resume (n : nat) (p : panel) : panel :=
  {| voiceType := voiceType p; showVoiceToast := showVoiceToast p;
     requested := requested p;
     awaiting := filter (fun c => negb (is_request n c)) (awaiting p);
     fallback_warnings := fallback_warnings p; toast_timers := toast_timers p;
     played := played p |}.

(** The timer set first fires *)
Definition timer_fired (p : panel) : panel :=
  {| voiceType := voiceType p; showVoiceToast := showVoiceToast p;
     requested := requested p; awaiting := awaiting p;
     fallback_warnings := fallback_warnings p; toast_timers := tl (toast_timers p);
     played := played p |}.

(** The [else] branch of [handleSpeak] *)
Definition fall_back (text : string) (messageId : Z) (p : panel) : panel :=
  play (LocalVoice text messageId)
    (setTimeout 5000 (setShowVoiceToast true (setVoiceType local (warn p)))).

(** Every suspended call waits for a request that was made. *)
Definition well_numbered (p : panel) : bool :=
  forallb (fun c => Nat.ltb (call_request c) (length (requested p))) (awaiting p).

(** What happens in the panel: [handleSpeak] is called from a render whose
    voice type was [rendered]; a speech request settles; one of the buttons
    AI and Local is pressed; the timer of the toast fires. *)
Inductive action :=
| Speak (rendered : voice_type) (text : string) (messageId : Z)
| SpeechSettles (n : nat)
| SelectVoice (v : voice_type)
| ToastTimer.

(** The actions that are not a press of the AI button *)
Definition leaves_voice (a : action) : bool :=
  match a with
  | SelectVoice ai => false
  | _ => true
  end.

(** The actions that are not a call of [handleSpeak] from a render with
    the AI voice *)
Definition local_render (a : action) : bool :=
  match a with
  | Speak ai _ _ => false
  | _ => true
  end.

(** The actions other than the settling of request [n] *)
Definition other_than (n : nat) (a : action) : bool :=
  match a with
  | SpeechSettles m => negb (Nat.eqb m n)
  | _ => true
  end.

Section Speak.

(** [stripCodeBlocks], and the speech service: [tts n text i] is the
    outcome of the i-th call made for the n-th request. *)
Variable stripCodeBlocks : string -> string.
Variable tts : nat -> string -> nat -> result (option string).

(** [handleSpeak] up to its [await generateSpeech(cleanText)].  [rendered]
    is the [voiceType] of the render that made the function: the callers,
    [loadInitialResponse] and [handleSend], call it after an [await] of
    their own, so [rendered] need not be the [voiceType] of the panel at
    the call. *)
Definition handleSpeak (rendered : voice_type) (text : string) (messageId : Z)
  (p : panel) : panel :=
  let cleanText := stripCodeBlocks text in
  if negb (truthy cleanText) then p
  else
    match rendered with
    | local => play (LocalVoice cleanText messageId) p
    | ai =>
        request {| call_request := length (requested p); call_text := text;
                   call_messageId := messageId; call_cleanText := cleanText |} p
    end.

(** What [generateSpeech] resolves to for a suspended call *)
Definition base64_of (c : suspended) : option string :=
  audio (generateSpeech (tts (call_request c) (call_cleanText c))).

(** [if (base64)] is not taken: [null], [undefined] or an empty string *)
Definition no_audio (c : suspended) : bool :=
  match base64_of c with
  | Some data => negb (truthy data)
  | None => true
  end.

(** [handleSpeak] after its [await generateSpeech(cleanText)] *)
Definition handleSpeak_goes_on (c : suspended) (p : panel) : panel :=
  match base64_of c with
  | Some data =>
      if truthy data
      then play (AiVoice data (call_messageId c) (call_cleanText c)) p
      else fall_back (call_text c) (call_messageId c) p
  | None => fall_back (call_text c) (call_messageId c) p
  end.

Definition step (a : action) (p : panel) : panel :=
  match a with
  | Speak rendered text messageId => handleSpeak rendered text messageId p
  | SpeechSettles n =>
      match find (is_request n) (awaiting p) with
      | Some c => handleSpeak_goes_on c (resume n p)
      | None => p
      end
  | SelectVoice v => setVoiceType v p
  | ToastTimer =>
      match toast_timers p with
      | [] => p
      | _ :: _ => setShowVoiceToast false (timer_fired p)
      end
  end.

Definition run (actions : list action) (p : panel) : panel :=
  fold_left (fun p a => step a p) actions p.

End Speak.

End Voice.

(** ** The instructor panel: what is read aloud *)

Module StripCode.
Import JS.
Local Open Scope string_scope.

(** Strings are read as sequences of code units below 256. *)

Definition fence : string := "```".

(** [s.slice(n)] *)
Fixpoint drop (n : nat) (s : string) : string :=
  match n, s with
  | O, _ => s
  | S n', String _ rest => drop n' rest
  | S _, EmptyString => EmptyString
  end.

(** Where the lazy [[\s\S]*?] followed by the closing fence ends: the text
    after the first fence of [s], if there is one *)
Fixpoint after_fence (s : string) : option string :=
  if String.prefix fence s then Some (drop 3 s)
  else match s with
       | EmptyString => None
       | String _ rest => after_fence rest
       end.

(** [text.replace(/```[\s\S]*?```/g, '')]: at each position from the left,
    a fence followed later by a fence is a match, which is dropped, and the
    search goes on after it; where there is no match the character is kept
    and the search goes on at the next position.  [fuel] bounds the number
    of positions visited. *)
Fixpoint replace_blocks (fuel : nat) (text : string) : string :=
  match fuel with
  | O => text
  | S fuel' =>
      match text with
      | EmptyString => EmptyString
      | String c rest =>
          if String.prefix fence text
          then match after_fence (drop 3 text) with
               | Some tail => replace_blocks fuel' tail
               | None => String c (replace_blocks fuel' rest)
               end
          else String c (replace_blocks fuel' rest)
      end
  end.

(** White space and line terminators below 256 *)
Definition is_space (c : ascii) : bool :=
  let n := nat_of_ascii c in
  (Nat.leb 9 n && Nat.leb n 13) || Nat.eqb n 32 || Nat.eqb n 160.

Fixpoint trim_start (s : string) : string :=
  match s with
  | EmptyString => EmptyString
  | String c rest => if is_space c then trim_start rest else s
  end.

Fixpoint trim_end (s : string) : string :=
  match s with
  | EmptyString => EmptyString
  | String c rest =>
      match trim_end rest with
      | EmptyString => if is_space c then EmptyString else String c EmptyString
      | kept => String c kept
      end
  end.

(** [s.trim()] *)
Definition trim (s : string) : string := trim_end (trim_start s).

(** [stripCodeBlocks] *)
Definition stripCodeBlocks (text : string) : string :=
  trim (replace_blocks (String.length text) text).

End StripCode.

(** ** The lesson builder: importing a course *)

Module CourseImport.
Import JS.
Local Open Scope string_scope.

(** A value of [JSON.parse] *)
#[warnings="-register-all"]
Inductive json :=
| JNull
| JBool (b : bool)
| JNumber (q : Q)
| JString (s : string)
| JArray (items : list json)
| JObject (fields : list (string * json)).

(** Truthiness; [None] is [undefined] *)
Definition js_truthy (v : option json) : bool :=
  match v with
  | None => false
  | Some JNull => false
  | Some (JBool b) => b
  | Some (JNumber q) => negb (Qeq_bool q 0)
  | Some (JString s) => truthy s
  | Some (JArray _) => true
  | Some (JObject _) => true
  end.

(** The own property [key] of a parsed object: of two members with the
    same name [JSON.parse] keeps the later one *)
Fixpoint member (fields : list (string * json)) (key : string) : option json :=
  match fields with
  | [] => None
  | (k, v) :: rest =>
      match member rest key with
      | Some later => Some later
      | None => if String.eqb k key then Some v else None
      end
  end.

(** [parsed.title] and [parsed.modules]: the outer [None] is the
    [TypeError] of a property read on [null]; the inner [None] is
    [undefined], which is what a boolean, a number, a string and an array
    give for these two names. *)
Definition property (parsed : json) (key : string) : option (option json) :=
  match parsed with
  | JNull => None
  | JObject fields => Some (member fields key)
  | _ => Some None
  end.

Inductive status := idle | success | error | loading.

(** The state the import handlers write: the course (any parsed value once
    one is imported), the status, the delays of the timers set, the number
    of alerts and of [console.error] calls *)
Inductive course_value :=
| Built (course : LessonBuilder.Course)
| Imported (parsed : json).

Record builder := {
  course : course_value;
  status_of : status;
  timers : list Z;
  alerts : nat;
  errors_logged : nat
}.

Definition setCourse (v : json) (b : builder) : builder :=
  {| course := Imported v; status_of := status_of b; timers := timers b;
     alerts := alerts b; errors_logged := errors_logged b |}.

Definition setStatus (s : status) (b : builder) : builder :=
  {| course := course b; status_of := s; timers := timers b;
     alerts := alerts b; errors_logged := errors_logged b |}.

(** [setTimeout(() => setStatus('idle'), 3000)] *)
Definition idle_in_3000 (b : builder) : builder :=
  {| course := course b; status_of := status_of b; timers := timers b ++ [3000%Z];
     alerts := alerts b; errors_logged := errors_logged b |}.

Section Handlers.

(** [JSON.parse]: [None] when it throws *)
Variable parse : string -> option json.

(** [handleImportJson] *)
Definition handleImportJson (jsonInput : string) (b : builder) : builder :=
  let failed := idle_in_3000 (setStatus error b) in
  match parse jsonInput with
  | None => failed
  | Some parsed =>
      match property parsed "title" with
      | None => failed
      | Some title =>
          if js_truthy title
          then match property parsed "modules" with
               | None => failed
               | Some modules =>
                   if js_truthy modules
                   then idle_in_3000 (setStatus success (setCourse parsed b))
                   else failed
               end
          else failed
      end
  end.

(** The [catch] and [finally] of the [onload] handler *)
Definition upload_failed (b : builder) : builder :=
  idle_in_3000
    (setStatus error
       {| course := course b; status_of := status_of b; timers := timers b;
          alerts := S (alerts b); errors_logged := S (errors_logged b) |}).

(** [handleFileUpload] for a chosen file, once it is read: [text] is the
    decoded content, [by_model] what [parseCurriculumFromFile] settles to
    ([None] when it rejects) *)
Definition handleFileUpload (file_type text : string) (by_model : option json)
  (b : builder) : builder :=
  let b := setStatus loading b in
  if String.eqb file_type "application/json"
  then match parse text with
       | Some parsed => idle_in_3000 (setStatus success (setCourse parsed b))
       | None => upload_failed b
       end
  else match by_model with
       | Some parsed =>
           let accepted :=
             if js_truthy (Some parsed)
             then match property parsed "title" with
                  | Some title => js_truthy title
                  | None => false
                  end
             else false in
           if accepted
           then idle_in_3000 (setStatus success (setCourse parsed b))
           else upload_failed b
       | None => upload_failed b
       end.

End Handlers.

(** A parsed value with a truthy [title] and truthy [modules] *)
Definition has_title_and_modules (parsed : json) : Prop :=
  exists fields,
    parsed = JObject fields /\
    js_truthy (member fields "title") = true /\
    js_truthy (member fields "modules") = true.

End CourseImport.

(* ================================================================= *)
(** * Part II: facts *)
(* ================================================================= *)

(** ** Rounding to binary64 is monotone *)

Section Binary64Facts.
Import Binary64.
Local Open Scope Q_scope.

Lemma pow2_pos (e : Z) : 0 < 2 ^ e.
Proof. apply Qpower_0_lt; reflexivity. Qed.

Lemma pow2_add (a b : Z) : 2 ^ (a + b) == 2 ^ a * 2 ^ b.
Proof. apply Qpower_plus. discriminate. Qed.

Lemma pow2_le (a b : Z) : (a <= b)%Z -> 2 ^ a <= 2 ^ b.
Proof. intros H. apply Qpower_le_compat_l; [exact H | discriminate]. Qed.

Lemma pow2_inject (n : Z) : (0 <= n)%Z -> inject_Z (2 ^ n) == 2 ^ n.
Proof. intros H. now rewrite Zpower_Qpower. Qed.

Lemma log2_bracket (p : positive) :
  2 ^ Z.log2 (Zpos p) <= inject_Z (Zpos p) /\
  inject_Z (Zpos p) < 2 ^ (Z.log2 (Zpos p) + 1).
Proof.
  destruct (Z.log2_spec (Zpos p)) as [H1 H2]; [lia|].
  pose proof (Z.log2_nonneg (Zpos p)) as Hn.
  split.
  - rewrite <- pow2_inject by lia. rewrite <- Zle_Qle. exact H1.
  - rewrite <- pow2_inject by lia. rewrite <- Zlt_Qlt.
    replace (Z.log2 (Z.pos p) + 1)%Z with (Z.succ (Z.log2 (Z.pos p))) by lia.
    exact H2.
Qed.

Lemma binade_spec (x : Q) : 0 < x -> 2 ^ binade x <= x /\ x < 2 ^ (binade x + 1).
Proof.
  intros Hx. unfold binade.
  destruct x as [n q]. simpl Qnum. simpl Qden.
  destruct n as [|p|p]; try (exfalso; revert Hx; unfold Qlt; simpl; lia).
  set (d := (Z.log2 (Z.pos p) - Z.log2 (Z.pos q))%Z).
  destruct (log2_bracket p) as [Hp1 Hp2].
  destruct (log2_bracket q) as [Hq1 Hq2].
  assert (Hqpos : 0 < inject_Z (Z.pos q)) by (unfold Qlt; simpl; lia).
  assert (Hx' : Z.pos p # q == inject_Z (Z.pos p) / inject_Z (Z.pos q))
    by apply Qmake_Qdiv.
  assert (Hup : Z.pos p # q < 2 ^ (d + 1)).
  { rewrite Hx'. apply Qlt_shift_div_r; [exact Hqpos|].
    eapply Qlt_le_trans; [exact Hp2|].
    assert (Hd : 2 ^ (Z.log2 (Z.pos p) + 1) == 2 ^ (d + 1) * 2 ^ Z.log2 (Z.pos q)).
    { rewrite <- pow2_add. unfold d.
      replace (Z.log2 (Z.pos p) - Z.log2 (Z.pos q) + 1 + Z.log2 (Z.pos q))%Z
        with (Z.log2 (Z.pos p) + 1)%Z by lia. reflexivity. }
    rewrite Hd.
    apply Qmult_le_l; [apply pow2_pos | exact Hq1]. }
  assert (Hlo : 2 ^ (d - 1) < Z.pos p # q).
  { rewrite Hx'. apply Qlt_shift_div_l; [exact Hqpos|].
    eapply Qlt_le_trans; [|exact Hp1].
    assert (Hd : 2 ^ Z.log2 (Z.pos p) == 2 ^ (d - 1) * 2 ^ (Z.log2 (Z.pos q) + 1)).
    { rewrite <- pow2_add. unfold d.
      replace (Z.log2 (Z.pos p) - Z.log2 (Z.pos q) - 1 + (Z.log2 (Z.pos q) + 1))%Z
        with (Z.log2 (Z.pos p)) by lia. reflexivity. }
    rewrite Hd.
    apply Qmult_lt_l; [apply pow2_pos | exact Hq2]. }
  destruct (Qle_bool (2 ^ d) (Z.pos p # q)) eqn:E.
  - split; [now apply Qle_bool_imp_le | exact Hup].
  - split; [now apply Qlt_le_weak|].
    replace (d - 1 + 1)%Z with d by lia.
    apply Qnot_le_lt. intros C. apply Qle_bool_iff in C. congruence.
Qed.

Lemma binade_mono (x y : Q) : 0 < x -> x <= y -> (binade x <= binade y)%Z.
Proof.
  intros Hx Hxy.
  destruct (binade_spec x Hx) as [Hx1 _].
  destruct (binade_spec y) as [_ Hy2]; [eapply Qlt_le_trans; eauto|].
  destruct (Z_lt_le_dec (binade y) (binade x)) as [C|C]; [|exact C].
  exfalso.
  assert (2 ^ (binade y + 1) <= 2 ^ binade x) by (apply pow2_le; lia).
  apply (Qlt_irrefl y). eapply Qlt_le_trans; [exact Hy2|].
  eapply Qle_trans; [eassumption|]. eapply Qle_trans; eassumption.
Qed.

Lemma round_half_even_bounds (x : Q) :
  (Qfloor x <= round_half_even x <= Qfloor x + 1)%Z.
Proof.
  unfold round_half_even.
  destruct (Qcompare _ _); [destruct (Z.even _)| |]; lia.
Qed.

Lemma round_half_even_mono (x y : Q) :
  x <= y -> (round_half_even x <= round_half_even y)%Z.
Proof.
  intros Hxy.
  pose proof (Qfloor_resp_le _ _ Hxy) as Hf.
  pose proof (round_half_even_bounds x) as Bx.
  pose proof (round_half_even_bounds y) as By.
  destruct (Z.eq_dec (Qfloor x) (Qfloor y)) as [E|N]; [|lia].
  unfold round_half_even in *. rewrite E in *.
  destruct (Qcompare_spec (x - inject_Z (Qfloor y)) (1 # 2)) as [Hx|Hx|Hx];
  destruct (Qcompare_spec (y - inject_Z (Qfloor y)) (1 # 2)) as [Hy|Hy|Hy];
  try destruct (Z.even (Qfloor y)); try lia; exfalso; lra.
Qed.

Lemma round_half_even_Z (n : Z) : round_half_even (inject_Z n) = n.
Proof.
  unfold round_half_even. rewrite Qfloor_Z.
  destruct (Qcompare_spec (inject_Z n - inject_Z n) (1 # 2)) as [H|H|H];
    try reflexivity; exfalso; lra.
Qed.

Lemma scaled_range (x : Q) : 0 < x ->
  2 ^ 52 <= x / 2 ^ (binade x - 52) /\ x / 2 ^ (binade x - 52) < 2 ^ 53.
Proof.
  intros Hx. destruct (binade_spec x Hx) as [H1 H2].
  split.
  - apply Qle_shift_div_l; [apply pow2_pos|].
    rewrite <- pow2_add. replace (52 + (binade x - 52))%Z with (binade x) by lia.
    exact H1.
  - apply Qlt_shift_div_r; [apply pow2_pos|].
    rewrite <- pow2_add.
    replace (53 + (binade x - 52))%Z with (binade x + 1)%Z by lia. exact H2.
Qed.

Lemma fl_pos_bounds (x : Q) : 0 < x ->
  2 ^ binade x <= fl_pos x /\ fl_pos x <= 2 ^ (binade x + 1).
Proof.
  intros Hx. destruct (scaled_range x Hx) as [H1 H2]. unfold fl_pos.
  set (e := (binade x - 52)%Z) in *.
  split.
  - replace (binade x) with (52 + e)%Z at 1 by (unfold e; lia). rewrite pow2_add.
    apply Qmult_le_r; [apply pow2_pos|].
    rewrite <- (pow2_inject 52) by lia. rewrite <- Zle_Qle.
    rewrite <- (round_half_even_Z (2 ^ 52)). apply round_half_even_mono.
    rewrite pow2_inject by lia. exact H1.
  - replace (binade x + 1)%Z with (53 + e)%Z by (unfold e; lia). rewrite pow2_add.
    apply Qmult_le_r; [apply pow2_pos|].
    rewrite <- (pow2_inject 53) by lia. rewrite <- Zle_Qle.
    rewrite <- (round_half_even_Z (2 ^ 53)). apply round_half_even_mono.
    rewrite pow2_inject by lia. now apply Qlt_le_weak.
Qed.

Lemma fl_pos_mono (x y : Q) : 0 < x -> x <= y -> fl_pos x <= fl_pos y.
Proof.
  intros Hx Hxy.
  assert (Hy : 0 < y) by (eapply Qlt_le_trans; eauto).
  pose proof (binade_mono x y Hx Hxy) as Hb.
  destruct (Z.eq_dec (binade x) (binade y)) as [E|N].
  - unfold fl_pos. rewrite E.
    apply Qmult_le_r; [apply pow2_pos|].
    rewrite <- Zle_Qle. apply round_half_even_mono.
    apply Qmult_le_r; [apply Qinv_lt_0_compat, pow2_pos | exact Hxy].
  - destruct (fl_pos_bounds x Hx) as [_ Ux]. destruct (fl_pos_bounds y Hy) as [Ly _].
    eapply Qle_trans; [exact Ux|]. eapply Qle_trans; [|exact Ly].
    apply pow2_le. lia.
Qed.

Lemma fl_pos_gt0 (x : Q) : 0 < x -> 0 < fl_pos x.
Proof.
  intros Hx. destruct (fl_pos_bounds x Hx) as [L _].
  eapply Qlt_le_trans; [apply (pow2_pos (binade x)) | exact L].
Qed.

Lemma fl_nonneg (x : Q) : 0 <= x -> 0 <= fl x.
Proof.
  intros Hx. unfold fl.
  destruct (Qcompare_spec x 0) as [H|H|H].
  - apply Qle_refl.
  - exfalso; lra.
  - apply Qlt_le_weak, fl_pos_gt0, H.
Qed.

Lemma fl_mono (x y : Q) : 0 <= x -> x <= y -> fl x <= fl y.
Proof.
  intros Hx Hxy. unfold fl at 1.
  destruct (Qcompare_spec x 0) as [H|H|H].
  - apply fl_nonneg. lra.
  - exfalso; lra.
  - unfold fl. destruct (Qcompare_spec y 0) as [H'|H'|H']; try (exfalso; lra).
    now apply fl_pos_mono.
Qed.

Lemma fl_zero (x : Q) : x == 0 -> fl x = 0.
Proof. intros H. unfold fl. apply Qeq_alt in H. now rewrite H. Qed.

Lemma fl_one : fl 1 == 1.
Proof. vm_compute. reflexivity. Qed.

Lemma fl_hundred : fl (inject_Z 100) == inject_Z 100.
Proof. vm_compute. reflexivity. Qed.

Lemma Math_round_nonneg (x : Q) : 0 <= x -> (0 <= Math_round x)%Z.
Proof.
  intros H. unfold Math_round.
  change 0%Z with (Qfloor 0). apply Qfloor_resp_le. lra.
Qed.

Lemma Math_round_le (x : Q) (n : Z) : x <= inject_Z n -> (Math_round x <= n)%Z.
Proof.
  intros H. unfold Math_round.
  assert (Hlt : inject_Z (Qfloor (x + (1 # 2))) < inject_Z (n + 1)).
  { eapply Qle_lt_trans; [apply Qfloor_le|].
    rewrite inject_Z_plus. change (inject_Z 1) with 1. lra. }
  rewrite <- Zlt_Qlt in Hlt. lia.
Qed.

(** On a grid of small counts [fl] gives what the Standard Library's
    binary64 division and multiplication give. *)
Example fl_agrees_with_SpecFloat :
  forallb (fun t => forallb (fun c => agrees_with_SpecFloat (Z.of_nat c) (Z.of_nat t))
                            (seq 0 51))
          (seq 1 50) = true.
Proof. vm_compute. reflexivity. Qed.

End Binary64Facts.

(** ** Lists *)

Section ListFacts.

Lemma filter_nothing {A} (p : A -> bool) (l : list A) :
  (forall x, In x l -> p x = false) -> filter p l = [].
Proof.
  induction l as [|x rest IH]; simpl; intros H; [reflexivity|].
  rewrite (H x) by auto. apply IH. intros y Hy. apply H. auto.
Qed.

Lemma filter_everything {A} (p : A -> bool) (l : list A) :
  (forall x, In x l -> p x = true) -> filter p l = l.
Proof.
  induction l as [|x rest IH]; simpl; intros H; [reflexivity|].
  rewrite (H x) by auto. f_equal. apply IH. intros y Hy. apply H. auto.
Qed.

Lemma Forall2_right {A B} (R : A -> B -> Prop) (P : B -> Prop) (l1 : list A) (l2 : list B) :
  Forall2 R l1 l2 -> (forall a b, R a b -> P b) -> Forall P l2.
Proof. intros H HR. induction H; constructor; eauto. Qed.

Lemma Forall2_map_right {A B C} (R : A -> C -> Prop) (f : B -> C) (l1 : list A) (l2 : list B) :
  Forall2 (fun a b => R a (f b)) l1 l2 -> Forall2 R l1 (map f l2).
Proof. intros H. induction H; simpl; constructor; auto. Qed.

(** A primary key that passed the uniqueness check is new. *)
Lemma key_is_new {A} (key : A -> string) (id : string) (table : list A) :
  existsb (fun x => String.eqb (key x) id) table = false ->
  ~ In id (map key table).
Proof.
  intros H Hin. apply in_map_iff in Hin. destruct Hin as [x [Hx Hin]].
  assert (existsb (fun x => String.eqb (key x) id) table = true).
  { apply existsb_exists. exists x. split; [exact Hin|]. now apply String.eqb_eq. }
  congruence.
Qed.

End ListFacts.

(** ** The driver layer on well-formed calls *)

Section DriverFacts.
Import Store Sql.

Lemma bind_parameters_exact (policy : arity_policy) (n : nat) :
  bind_parameters policy n n = Returned tt.
Proof. unfold bind_parameters. now rewrite Nat.eqb_refl. Qed.

Lemma query_exact {R} (policy : arity_policy) (n : nat) (q : database -> R) (d : database) :
  query policy n n q d = (d, Returned (q d)).
Proof. unfold query. now rewrite bind_parameters_exact. Qed.

Lemma run_exact (policy : arity_policy) (n : nat) (u : database -> outcome database)
  (d : database) :
  run policy n n u d =
  match u d with
  | Returned d' => (d', Returned tt)
  | Thrown e => (d, Thrown e)
  end.
Proof. unfold run. now rewrite bind_parameters_exact. Qed.

Lemma mapM_pure {A B} (f : A -> handler B) (g : A -> B) (d : database) (l : list A) :
  (forall x, f x d = (d, Returned (g x))) ->
  mapM f l d = (d, Returned (map g l)).
Proof.
  intros Hf. induction l as [|x rest IH]; simpl.
  - reflexivity.
  - unfold bind. rewrite Hf. fold (mapM f rest). rewrite IH. reflexivity.
Qed.

End DriverFacts.

(** ** The read model *)

Section ReadModel.
Import Store Sql Server.

Lemma course_progress_eq (policy : arity_policy) (ids : list string) (d : database) :
  course_progress policy ids d = (d, Returned (progress ids (step_progress d))).
Proof.
  unfold course_progress, progress, bind, ret.
  destruct (Nat.ltb 0 (length ids)).
  - rewrite query_exact. reflexivity.
  - reflexivity.
Qed.

(** [GET /api/courses] reads and never writes: it returns one view per
    course row, in table order. *)
Lemma get_courses_eq (policy : arity_policy) (d : database) :
  get_courses policy d = (d, Returned (map (course_view d) (courses d))).
Proof.
  unfold get_courses, bind. rewrite query_exact. unfold select_courses.
  apply mapM_pure. intros c.
  rewrite query_exact.
  rewrite (mapM_pure _ (module_view d)).
  - rewrite course_progress_eq. reflexivity.
  - intros m. rewrite query_exact. reflexivity.
Qed.

Lemma quotient_range (c t : Z) :
  (0 <= c)%Z -> (0 < t)%Z ->
  (0 <= inject_Z c / inject_Z t)%Q /\
  ((c <= t)%Z -> (inject_Z c / inject_Z t <= 1)%Q).
Proof.
  intros Hc Ht.
  assert (Hc' : (0 <= inject_Z c)%Q) by (change 0%Q with (inject_Z 0); now rewrite <- Zle_Qle).
  assert (Ht' : (0 < inject_Z t)%Q) by (change 0%Q with (inject_Z 0); now rewrite <- Zlt_Qlt).
  split.
  - apply Qle_shift_div_l; [exact Ht'|]. lra.
  - intros Hct. apply Qle_shift_div_r; [exact Ht'|].
    rewrite Qmult_1_l. now rewrite <- Zle_Qle.
Qed.

Lemma percentage_zero (t : Z) : percentage 0 t = 0%Z.
Proof.
  unfold percentage. destruct (0 <? t)%Z; [|reflexivity].
  unfold Binary64.js_div, Binary64.js_mul.
  rewrite (fl_zero (inject_Z 0 / inject_Z t)) by (unfold Qdiv; apply Qmult_0_l).
  reflexivity.
Qed.

Lemma percentage_nonneg (c t : Z) : (0 <= c)%Z -> (0 <= percentage c t)%Z.
Proof.
  intros Hc. unfold percentage.
  destruct (0 <? t)%Z eqn:Ht; [|lia].
  apply Z.ltb_lt in Ht.
  destruct (quotient_range c t Hc Ht) as [Hq _].
  apply Math_round_nonneg. unfold Binary64.js_mul, Binary64.js_div.
  apply fl_nonneg.
  apply Qmult_le_0_compat; [now apply fl_nonneg | discriminate].
Qed.

Lemma percentage_le_100 (c t : Z) :
  (0 <= c <= t)%Z -> (percentage c t <= 100)%Z.
Proof.
  intros [Hc Hct]. unfold percentage.
  destruct (0 <? t)%Z eqn:Ht; [|lia].
  apply Z.ltb_lt in Ht.
  destruct (quotient_range c t Hc Ht) as [Hq0 Hq1]. specialize (Hq1 Hct).
  apply Math_round_le. unfold Binary64.js_mul, Binary64.js_div.
  set (q := Binary64.fl (inject_Z c / inject_Z t)).
  assert (Hq_lo : (0 <= q)%Q) by (now apply fl_nonneg).
  assert (Hq_hi : (q <= 1)%Q).
  { apply Qle_trans with (Binary64.fl 1).
    - unfold q. now apply fl_mono.
    - apply Qle_lteq. right. exact fl_one. }
  apply Qle_trans with (Binary64.fl (inject_Z 100)).
  - apply fl_mono.
    + apply Qmult_le_0_compat; [exact Hq_lo | discriminate].
    + apply Qle_trans with (1 * inject_Z 100)%Q.
      * apply Qmult_le_r; [reflexivity | exact Hq_hi].
      * rewrite Qmult_1_l. apply Qle_refl.
  - apply Qle_lteq. right. exact fl_hundred.
Qed.

End ReadModel.

(** ** The range of the computed progress *)

Section ProgressRange.
Import Store Sql Server.
Local Open Scope nat_scope.

(** The completed rows of a table with one row per pair have pairwise
    distinct pairs. *)
Lemma completed_rows_distinct (L : list string) (T : list progress_row) :
  NoDup (map pair_of T) -> NoDup (map pair_of (completed_rows L T)).
Proof.
  unfold completed_rows.
  induction T as [|row rows IH]; simpl; intros Hdistinct; [constructor|].
  apply NoDup_cons_iff in Hdistinct. destruct Hdistinct as [Hfresh Hrows].
  destruct (is_completed_for L row); simpl; [|now apply IH].
  apply NoDup_cons; [|now apply IH].
  intros Hin. apply Hfresh.
  apply in_map_iff in Hin. destruct Hin as [other [Hpair Hother]].
  apply filter_In in Hother.
  apply in_map_iff. exists other. tauto.
Qed.

Lemma completed_row_lesson (L : list string) (T : list progress_row) (r : progress_row) :
  In r (completed_rows L T) -> In (p_lesson_id r) L /\ p_status r = "completed"%string.
Proof.
  unfold completed_rows, is_completed_for. intros H.
  apply filter_In in H. destruct H as [_ H].
  apply andb_true_iff in H. destruct H as [H1 H2].
  apply existsb_exists in H1. destruct H1 as [x [Hx Heq]].
  apply String.eqb_eq in Heq. apply String.eqb_eq in H2. subst. auto.
Qed.

(** With one row per pair and every completed step among the five stages,
    a course has at most five completed rows per lesson. *)
Lemma completed_rows_bounded (L : list string) (T : list progress_row) :
  NoDup (map pair_of T) ->
  (forall r, In r (completed_rows L T) -> In (p_step_id r) lesson_steps) ->
  length (completed_rows L T) <= 5 * length L.
Proof.
  intros Hnodup Hsteps.
  rewrite <- (length_map pair_of).
  replace (5 * length L) with (length (list_prod L lesson_steps))
    by (rewrite length_prod; simpl; lia).
  apply NoDup_incl_length.
  - now apply completed_rows_distinct.
  - intros [l s] Hin. apply in_map_iff in Hin.
    destruct Hin as [r [Hr Hin]]. unfold pair_of in Hr. inversion Hr; subst.
    apply in_prod.
    + now apply (completed_row_lesson L T).
    + now apply Hsteps.
Qed.

Lemma progress_le_100 (L : list string) (T : list progress_row) :
  length (completed_rows L T) <= 5 * length L -> (progress L T <= 100)%Z.
Proof.
  intros H. unfold progress.
  destruct (Nat.ltb 0 (length L)).
  - apply percentage_le_100. lia.
  - rewrite percentage_zero. lia.
Qed.

(** C3, as amended.  For every list [L] of lesson ids and every
    [step_progress] table [T]: the computed progress is never negative; it
    is 0 when [L] is empty or [T] has no completed row for [L]; and it is at
    most 100 whenever [T] holds at most five completed rows per lesson of
    [L], which is the case when [T] has one row per [(lesson_id, step_id)]
    pair and the completed rows for [L] all carry one of the five named
    stages.  Rows with any other step id are counted like the rest. *)
Theorem progress_range (L : list string) (T : list progress_row) :
  (0 <= progress L T)%Z /\
  (L = [] \/ completed_rows L T = [] -> progress L T = 0%Z) /\
  (length (completed_rows L T) <= 5 * length L -> (progress L T <= 100)%Z) /\
  (NoDup (map pair_of T) ->
   (forall r, In r (completed_rows L T) -> In (p_step_id r) lesson_steps) ->
   (progress L T <= 100)%Z).
Proof.
  repeat split.
  - unfold progress. apply percentage_nonneg.
    destruct (Nat.ltb 0 (length L)); lia.
  - intros [HL | HT]; unfold progress.
    + subst L. reflexivity.
    + rewrite HT. simpl. destruct (Nat.ltb 0 (length L)); apply percentage_zero.
  - apply progress_le_100.
  - intros Hnodup Hsteps. apply progress_le_100.
    now apply completed_rows_bounded.
Qed.

(** C3 as stated fails: one lesson with six completed rows, the sixth for a
    step id outside the five stages, has progress 120. *)
Lemma progress_above_100 :
  NoDup (map pair_of Samples.six_steps_of_l1) /\
  progress ["l1"%string] Samples.six_steps_of_l1 = 120%Z /\
  ~ (0 <= progress ["l1"%string] Samples.six_steps_of_l1 <= 100)%Z.
Proof.
  split; [|split].
  - repeat constructor; simpl; intuition discriminate.
  - vm_compute. reflexivity.
  - vm_compute. intros [_ H]. apply H. reflexivity.
Qed.

(** The scenarios of the specification: none, three and all of the ten
    steps of a course of two lessons. *)
Example percentage_scenarios :
  percentage 0 10 = 0%Z /\ percentage 3 10 = 30%Z /\ percentage 10 10 = 100%Z.
Proof. vm_compute. repeat split. Qed.

(** Up to seven lessons per course the handler's percentage is the
    specification's, whatever the number of completed steps. *)
Example percentage_exact_up_to_7_lessons :
  forallb (fun n =>
             forallb (fun c =>
                        Z.eqb (percentage (Z.of_nat c) (Z.of_nat n * 5))
                              (spec_percentage (Z.of_nat c) (Z.of_nat n * 5)))
                     (seq 0 (5 * n + 1)))
          (seq 0 8) = true.
Proof. vm_compute. reflexivity. Qed.

(** Up to forty lessons per course the handler's percentage is the
    specification's or one below it, and it is one below only at a tie. *)
Example percentage_one_below_only_at_ties :
  forallb (fun n =>
             forallb (fun c =>
                        let p := percentage (Z.of_nat c) (Z.of_nat n * 5) in
                        let s := spec_percentage (Z.of_nat c) (Z.of_nat n * 5) in
                        Z.eqb p s
                        || (Z.eqb p (s - 1) && is_tie (Z.of_nat c) (Z.of_nat n * 5)))
                     (seq 0 (5 * n + 1)))
          (seq 0 41) = true.
Proof. vm_compute. reflexivity. Qed.

(** C2 at 8 lessons and 23 completed steps: [GET /api/courses] answers 57,
    and [round(100 * 23 / 40)] is 58.  In binary64 [23 / 40] is just below
    0.575 and its product with 100 just below 57.5, by [fl] and by the
    Standard Library's operations alike. *)
Theorem get_courses_8_lessons_23_steps (policy : arity_policy) :
  exists view,
    get_courses policy Samples.eight_lessons_23_steps
      = (Samples.eight_lessons_23_steps, Returned [view]) /\
    length (lesson_ids_of (cj_modules view)) = 8 /\
    length (completed_rows (lesson_ids_of (cj_modules view))
              (step_progress Samples.eight_lessons_23_steps)) = 23 /\
    cj_progress view = 57%Z /\
    spec_percentage 23 (8 * 5) = 58%Z /\
    Binary64.agrees_with_SpecFloat 23 40 = true /\
    SFcompare (Binary64.SF_percentage 23 40) (Binary64.SF_half 115) = Some Lt.
Proof.
  rewrite get_courses_eq. eexists. split; [reflexivity|].
  vm_compute. repeat split; reflexivity.
Qed.

End ProgressRange.

(** ** [POST /api/progress] *)

Section ProgressWrites.
Import Store Sql Server.
Local Open Scope string_scope.

Lemma pair_matches_iff (lesson_id step_id : string) (r : progress_row) :
  pair_matches (Some lesson_id) (Some step_id) r = true <->
  pair_of r = (lesson_id, step_id).
Proof.
  unfold pair_matches, pair_of. simpl.
  rewrite andb_true_iff, !String.eqb_eq.
  split; [intros [-> ->]; reflexivity | intros H; inversion H; auto].
Qed.

Lemma no_row_for_absent_pair (lesson_id step_id : string) (T : list progress_row) :
  ~ In (lesson_id, step_id) (map pair_of T) ->
  forall r, In r T -> pair_matches (Some lesson_id) (Some step_id) r = false.
Proof.
  intros Habsent r Hr.
  destruct (pair_matches (Some lesson_id) (Some step_id) r) eqn:E; [|reflexivity].
  exfalso. apply Habsent. apply pair_matches_iff in E. rewrite <- E. now apply in_map.
Qed.

(** With one row per pair, the rows for a pair are the row the lookup finds. *)
Lemma one_row_per_pair (lesson_id step_id : string) (T : list progress_row)
  (found : progress_row) :
  NoDup (map pair_of T) ->
  find (pair_matches (Some lesson_id) (Some step_id)) T = Some found ->
  filter (pair_matches (Some lesson_id) (Some step_id)) T = [found].
Proof.
  induction T as [|row rows IH]; simpl; intros Hdistinct Hfind; [discriminate|].
  apply NoDup_cons_iff in Hdistinct. destruct Hdistinct as [Hfresh Hrows].
  destruct (pair_matches (Some lesson_id) (Some step_id) row) eqn:Hrow.
  - inversion Hfind; subst found. f_equal.
    apply filter_nothing. apply no_row_for_absent_pair.
    apply pair_matches_iff in Hrow. now rewrite <- Hrow.
  - now apply IH.
Qed.

Lemma overwrite_keeps_pair (now status lesson_id step_id : string) (r : progress_row) :
  pair_of (overwrite now status lesson_id step_id r) = pair_of r.
Proof. unfold overwrite. destruct (pair_matches _ _ r); reflexivity. Qed.

Lemma filter_overwritten (now status lesson_id step_id : string) (T : list progress_row) :
  filter (pair_matches (Some lesson_id) (Some step_id))
         (map (overwrite now status lesson_id step_id) T)
  = map (overwrite now status lesson_id step_id)
        (filter (pair_matches (Some lesson_id) (Some step_id)) T).
Proof.
  induction T as [|row rows IH]; simpl; [reflexivity|].
  assert (Hsame : pair_matches (Some lesson_id) (Some step_id)
                    (overwrite now status lesson_id step_id row)
                  = pair_matches (Some lesson_id) (Some step_id) row).
  { unfold overwrite. destruct (pair_matches (Some lesson_id) _ row) eqn:E; auto. }
  rewrite Hsame.
  destruct (pair_matches _ _ row); simpl; now rewrite IH.
Qed.

(** The upsert of the specification does what C1 says of every call: from a
    table with one row per pair it leaves one row for the pair of the call,
    with the status of the call, and a table with one row per pair. *)
Lemma spec_recordStep_upserts (now lesson_id step_id status : string) (d : database) :
  NoDup (map pair_of (step_progress d)) ->
  map p_status (rows_for lesson_id step_id (spec_recordStep now lesson_id step_id status d))
  = [status] /\
  NoDup (map pair_of (step_progress (spec_recordStep now lesson_id step_id status d))).
Proof.
  intros Hdistinct.
  unfold spec_recordStep, rows_for, select_step_progress_where_pair.
  destruct (find _ (step_progress d)) as [found|] eqn:Hfind.
  - unfold update_step_progress_where_pair. simpl.
    rewrite filter_overwritten, (one_row_per_pair _ _ _ found Hdistinct Hfind).
    apply find_some in Hfind. destruct Hfind as [_ Hmatch].
    split.
    + simpl. unfold overwrite. rewrite Hmatch. reflexivity.
    + rewrite map_map.
      rewrite (map_ext _ pair_of) by (intros r; apply overwrite_keeps_pair).
      exact Hdistinct.
  - assert (Hnone : forall r, In r (step_progress d) ->
                      pair_matches (Some lesson_id) (Some step_id) r = false).
    { intros r Hr.
      destruct (pair_matches (Some lesson_id) (Some step_id) r) eqn:E; [|reflexivity].
      pose proof (find_none _ _ Hfind r Hr). congruence. }
    unfold insert_step_progress.
    assert (Hexists : existsb (pair_matches (Some lesson_id) (Some step_id))
                        (step_progress d) = false).
    { destruct (existsb _ (step_progress d)) eqn:E; [|reflexivity].
      apply existsb_exists in E. destruct E as [r [Hr Hm]].
      rewrite (Hnone r Hr) in Hm. discriminate. }
    rewrite Hexists. simpl. rewrite filter_app, (filter_nothing _ _ Hnone).
    split.
    + simpl. unfold pair_matches. simpl. rewrite !String.eqb_refl. reflexivity.
    + rewrite map_app. simpl. apply NoDup_app.
      * exact Hdistinct.
      * constructor; [intros []|constructor].
      * intros pair Hold [Hnew|[]]. subst pair.
        apply in_map_iff in Hold. destruct Hold as [r [Hr Hin]].
        apply (proj2 (pair_matches_iff lesson_id step_id r)) in Hr.
        rewrite (Hnone r Hin) in Hr. discriminate.
Qed.

(** The lookup never finds a row: under [Strict] the handler throws at the
    lookup and writes nothing; under [PadNull] the lookup compares with
    [NULL], finds nothing, and the handler always takes the [INSERT]
    branch. *)
Lemma post_progress_eq (policy : arity_policy) (env : environment)
  (body : progress_body) (d : database) :
  post_progress policy env body d =
  match policy with
  | Strict => (d, Thrown (RangeError "Too few parameter values were provided"))
  | PadNull =>
      match insert_step_progress (CURRENT_TIMESTAMP env) (pb_lesson_id body)
              (pb_step_id body) (pb_status body) d with
      | Returned d' => (d', Returned Success)
      | Thrown e => (d, Thrown e)
      end
  end.
Proof.
  destruct policy; unfold post_progress, bind, query; simpl.
  - reflexivity.
  - assert (Hnone : select_step_progress_where_pair None None d = None).
    { unfold select_step_progress_where_pair.
      induction (step_progress d) as [|r rest IH]; simpl; auto. }
    rewrite Hnone. rewrite run_exact.
    destruct (insert_step_progress _ _ _ _ d); reflexivity.
Qed.

(** C1 at two calls for the pair [(l1, explanation)], first with
    [not_started], then with [completed], on an empty table.  The upsert of
    the specification leaves one row, with status [completed].  The handler
    leaves no row with that status: under [Strict] both calls throw and the
    table stays empty; under [PadNull] the second call fails on the
    [UNIQUE] constraint and the row of the first call stays as it was. *)
Theorem post_progress_twice (policy : arity_policy) :
  let first := Samples.l1_explanation "not_started" in
  let second := Samples.l1_explanation "completed" in
  let d1 := fst (post_progress policy Samples.clock first Store.empty) in
  let d2 := fst (post_progress policy Samples.clock second d1) in
  map p_status (rows_for "l1" "explanation" d2) <> ["completed"] /\
  snd (post_progress policy Samples.clock second d1) <> Returned Success /\
  map p_status
    (rows_for "l1" "explanation"
       (spec_recordStep "t2" "l1" "explanation" "completed"
          (spec_recordStep "t1" "l1" "explanation" "not_started" Store.empty)))
  = ["completed"].
Proof.
  destruct policy; vm_compute; repeat split; discriminate.
Qed.

End ProgressWrites.

(** ** The settings record *)

Section Settings.
Import Store Sql Server.

Lemma with_settings_same (d : database) : with_settings d (settings d) = d.
Proof. destruct d; reflexivity. Qed.

Lemma get_settings_on_empty (policy : arity_policy) (d : database) :
  settings d = [] ->
  get_settings policy d
  = (with_settings d [Samples.default_settings],
     Returned (Some Samples.default_settings)).
Proof.
  intros Hempty.
  unfold get_settings, bind. rewrite query_exact.
  unfold select_settings_where_id_1 at 1. rewrite Hempty. simpl.
  rewrite run_exact. unfold insert_settings_id_1. rewrite Hempty. simpl.
  rewrite query_exact. reflexivity.
Qed.

(** C6.  On an empty settings table [GET /api/settings] answers
    [{id: 1, theme: 'dark', voice_enabled: 1}] and leaves that row in the
    table; the next read finds it there, answers the same and writes
    nothing. *)
Theorem get_settings_lazily_creates (policy : arity_policy) (d : database) :
  settings d = [] ->
  let created := with_settings d [Samples.default_settings] in
  get_settings policy d = (created, Returned (Some Samples.default_settings)) /\
  settings created = [Samples.default_settings] /\
  get_settings policy created = (created, Returned (Some Samples.default_settings)).
Proof.
  intros Hempty. simpl. split; [|split].
  - now apply get_settings_on_empty.
  - reflexivity.
  - unfold get_settings, bind. rewrite query_exact. reflexivity.
Qed.

Lemma get_settings_lazily_creates_sample :
  let d := Samples.eight_lessons_23_steps in
  settings d = [] /\
  (let created := with_settings d [Samples.default_settings] in
   get_settings Strict d = (created, Returned (Some Samples.default_settings)) /\
   settings created = [Samples.default_settings] /\
   get_settings Strict created = (created, Returned (Some Samples.default_settings))).
Proof.
  split; [reflexivity|].
  apply (get_settings_lazily_creates Strict Samples.eight_lessons_23_steps).
  reflexivity.
Defined.

(** C10.  On an empty settings table [POST /api/settings] answers
    [{success: true}] and changes nothing: the [UPDATE] matches no row.  The
    [GET /api/settings] that follows creates and answers the defaults, not
    the posted values. *)
Theorem post_settings_on_empty_is_lost (policy : arity_policy) (body : settings_body)
  (d : database) :
  settings d = [] ->
  post_settings policy body d = (d, Returned Success) /\
  get_settings policy d
  = (with_settings d [Samples.default_settings],
     Returned (Some Samples.default_settings)).
Proof.
  intros Hempty. split.
  - unfold post_settings, bind. rewrite run_exact.
    unfold update_settings_where_id_1. rewrite Hempty. simpl.
    rewrite <- Hempty. rewrite with_settings_same. reflexivity.
  - now apply get_settings_on_empty.
Qed.

Lemma post_settings_on_empty_is_lost_sample :
  let d := Samples.eight_lessons_23_steps in
  settings d = [] /\
  post_settings Strict Samples.light_without_voice d = (d, Returned Success) /\
  get_settings Strict d
  = (with_settings d [Samples.default_settings],
     Returned (Some Samples.default_settings)).
Proof.
  split; [reflexivity|].
  apply (post_settings_on_empty_is_lost Strict Samples.light_without_voice
           Samples.eight_lessons_23_steps).
  reflexivity.
Defined.

End Settings.

(** ** [withRetry] *)

Section Retry.
Import Gemini.
Local Open Scope nat_scope.

Variable T : Type.
Variable fn : nat -> result T.
Variable retries : nat.

Lemma backoff_succ (delay : Z) (n : nat) :
  backoff delay (S n) = delay :: backoff (delay * 2) n.
Proof.
  unfold backoff. simpl. f_equal; [lia|].
  rewrite <- seq_shift, map_map. apply map_ext. intros j.
  rewrite Nat2Z.inj_succ, Z.pow_succ_r by lia. lia.
Qed.

(** Entered as [withRetry] enters it ([retries <= i + remaining]), the
    loop calls [fn] at [i, i+1, ...], at most [remaining] times, with one
    sleep between two calls and the sleeps doubling. *)
Lemma retry_loop_shape (remaining i : nat) (delay : Z) :
  retries <= i + remaining ->
  exists n, n <= remaining /\ (0 < remaining -> 0 < n) /\
    calls (fst (retry_loop fn retries remaining i delay)) = seq i n /\
    sleeps (fst (retry_loop fn retries remaining i delay)) = backoff delay (pred n).
Proof.
  revert i delay. induction remaining as [|remaining IH]; intros i delay Hinv; simpl.
  - exists 0. repeat split; auto.
  - destruct (fn i) as [value|error].
    + exists 1. simpl. repeat split; auto; lia.
    + destruct (isQuotaError error && Nat.ltb i (retries - 1)) eqn:Hretry.
      * apply andb_true_iff in Hretry. destruct Hretry as [_ Hlt].
        apply Nat.ltb_lt in Hlt.
        destruct (IH (S i) (delay * 2)%Z) as [n [Hn [Hpos [Hcalls Hsleeps]]]]; [lia|].
        destruct (retry_loop fn retries remaining (S i) (delay * 2)) as [later r].
        simpl in *.
        destruct n as [|n]; [exfalso; lia|].
        exists (S (S n)). simpl. rewrite Hcalls, Hsleeps. simpl pred.
        rewrite backoff_succ. repeat split; auto; lia.
      * exists 1. simpl. repeat split; auto; lia.
Qed.

Lemma retry_loop_calls_from (remaining i : nat) (delay : Z) (j : nat) :
  In j (calls (fst (retry_loop fn retries remaining i delay))) -> i <= j.
Proof.
  revert i delay. induction remaining as [|remaining IH]; intros i delay; simpl.
  - intros [].
  - destruct (fn i) as [value|error].
    + simpl. intros [H|[]]. lia.
    + destruct (isQuotaError error && Nat.ltb i (retries - 1)).
      * pose proof (IH (S i) (delay * 2)%Z) as IH'.
        destruct (retry_loop fn retries remaining (S i) (delay * 2)) as [later r].
        simpl in *. intros [H|H]; [lia|]. specialize (IH' H). lia.
      * simpl. intros [H|[]]. lia.
Qed.

(** A further call is made only after a quota failure. *)
Lemma retry_loop_retries_quota (remaining i : nat) (delay : Z) (j : nat) :
  i <= j ->
  In (S j) (calls (fst (retry_loop fn retries remaining i delay))) ->
  exists error, fn j = Rejected error /\ isQuotaError error = true.
Proof.
  revert i delay. induction remaining as [|remaining IH]; intros i delay Hij; simpl.
  - intros [].
  - destruct (fn i) as [value|error] eqn:Hfn.
    + simpl. intros [H|[]]. lia.
    + destruct (isQuotaError error && Nat.ltb i (retries - 1)) eqn:Hretry.
      * pose proof (IH (S i) (delay * 2)%Z) as IH'.
        destruct (retry_loop fn retries remaining (S i) (delay * 2)) as [later r].
        simpl in *. intros [H|H]; [lia|].
        destruct (Nat.eq_dec i j) as [E|N].
        -- subst j. exists error. split; [exact Hfn|].
           apply andb_true_iff in Hretry. tauto.
        -- apply IH'; [lia | exact H].
      * simpl. intros [H|[]]. lia.
Qed.

(** Any other failure is the result of the whole call, and no call follows it. *)
Lemma retry_loop_propagates (remaining i : nat) (delay : Z) (j : nat) (error : api_error) :
  In j (calls (fst (retry_loop fn retries remaining i delay))) ->
  fn j = Rejected error ->
  isQuotaError error = false ->
  snd (retry_loop fn retries remaining i delay) = Rejected error /\
  ~ In (S j) (calls (fst (retry_loop fn retries remaining i delay))).
Proof.
  revert i delay. induction remaining as [|remaining IH]; intros i delay; simpl.
  - intros [].
  - destruct (fn i) as [value|error'] eqn:Hfn.
    + simpl. intros [H|[]] Hj. subst j. congruence.
    + destruct (isQuotaError error' && Nat.ltb i (retries - 1)) eqn:Hretry.
      * pose proof (IH (S i) (delay * 2)%Z) as IH'.
        pose proof (retry_loop_calls_from remaining (S i) (delay * 2)%Z j) as Hfrom.
        destruct (retry_loop fn retries remaining (S i) (delay * 2)) as [later r].
        simpl in *. intros [H|H] Hj Hq.
        -- subst j. rewrite Hfn in Hj. inversion Hj; subst.
           apply andb_true_iff in Hretry. destruct Hretry. congruence.
        -- destruct (IH' H Hj Hq) as [Hr Hnot]. split; [exact Hr|].
           intros [C|C]; [|exact (Hnot C)].
           specialize (Hfrom H). lia.
      * simpl. intros [H|[]] Hj Hq. subst j.
        rewrite Hfn in Hj. inversion Hj; subst. split; [reflexivity|].
        intros [C|[]]. lia.
Qed.

(** With an iteration to go, the loop begins with a call of [fn]. *)
Lemma retry_loop_starts (remaining i : nat) (delay : Z) :
  exists rest, fst (retry_loop fn retries (S remaining) i delay) = Call i :: rest.
Proof.
  simpl. destruct (fn i) as [value|error]; [eexists; reflexivity|].
  destruct (isQuotaError error && Nat.ltb i (retries - 1)); [|eexists; reflexivity].
  destruct (retry_loop fn retries remaining (S i) (delay * 2)) as [later r].
  eexists. reflexivity.
Qed.

(** A quota-class failure with an attempt left is followed by the warning,
    the sleep and the next call. *)
Lemma retry_loop_goes_on (remaining i : nat) (delay : Z) (j : nat) (error : api_error) :
  i + remaining = retries ->
  In j (calls (fst (retry_loop fn retries remaining i delay))) ->
  fn j = Rejected error ->
  isQuotaError error = true ->
  S j < retries ->
  exists before after,
    fst (retry_loop fn retries remaining i delay)
    = before
      ++ Call j
         :: Warn (retry_warning (delay * 2 ^ Z.of_nat (j - i)) j retries)
         :: Sleep (delay * 2 ^ Z.of_nat (j - i))
         :: Call (S j) :: after.
Proof.
  revert i delay. induction remaining as [|remaining IH]; intros i delay Hinv; simpl.
  - intros [].
  - destruct (fn i) as [value|error'] eqn:Hfn.
    + simpl. intros [H|[]] Hj. subst j. congruence.
    + destruct (isQuotaError error' && Nat.ltb i (retries - 1)) eqn:Hretry.
      * apply andb_true_iff in Hretry. destruct Hretry as [_ Hlt].
        apply Nat.ltb_lt in Hlt.
        destruct remaining as [|remaining']; [lia|].
        destruct (retry_loop_starts remaining' (S i) (delay * 2)%Z) as [rest Hrest].
        pose proof (IH (S i) (delay * 2)%Z) as IH'.
        pose proof (retry_loop_calls_from (S remaining') (S i) (delay * 2)%Z j) as Hfrom.
        destruct (retry_loop fn retries (S remaining') (S i) (delay * 2)) as [later r].
        cbn [fst] in *. subst later. intros Hin Hj Hquota Hleft.
        destruct (Nat.eq_dec j i) as [->|Hne].
        -- exists [], rest. rewrite Nat.sub_diag. simpl Z.of_nat.
           rewrite Z.pow_0_r, Z.mul_1_r. reflexivity.
        -- assert (Hlater : In j (calls (Call (S i) :: rest))).
           { simpl in Hin. destruct Hin as [Hin|Hin]; [congruence | exact Hin]. }
           specialize (Hfrom Hlater).
           destruct (IH' ltac:(lia) Hlater Hj Hquota Hleft) as [before [after Htrace]].
           exists (Call i :: Warn (retry_warning delay i retries) :: Sleep delay :: before),
                  after.
           rewrite Htrace.
           replace (j - i) with (S (j - S i)) by lia.
           rewrite Nat2Z.inj_succ, Z.pow_succ_r by lia.
           replace (delay * (2 * 2 ^ Z.of_nat (j - S i)))%Z
             with (delay * 2 * 2 ^ Z.of_nat (j - S i))%Z by lia.
           reflexivity.
      * simpl. intros [H|[]] Hj Hquota Hleft. subst j.
        rewrite Hfn in Hj. inversion Hj; subst error'.
        rewrite Hquota in Hretry. simpl in Hretry.
        apply Nat.ltb_ge in Hretry. lia.
Qed.

(** A call after which the loop does not go on is the last one, and its
    outcome is the outcome of the loop. *)
Lemma retry_loop_ends_at (remaining i : nat) (delay : Z) (j : nat) :
  In j (calls (fst (retry_loop fn retries remaining i delay))) ->
  (forall error, fn j = Rejected error ->
     isQuotaError error && Nat.ltb j (retries - 1) = false) ->
  snd (retry_loop fn retries remaining i delay) = fn j /\
  ~ In (S j) (calls (fst (retry_loop fn retries remaining i delay))).
Proof.
  revert i delay. induction remaining as [|remaining IH]; intros i delay; simpl.
  - intros [].
  - destruct (fn i) as [value|error'] eqn:Hfn.
    + simpl. intros [H|[]] _. subst j. rewrite Hfn. split; [reflexivity|].
      intros [C|[]]. lia.
    + destruct (isQuotaError error' && Nat.ltb i (retries - 1)) eqn:Hretry.
      * pose proof (IH (S i) (delay * 2)%Z) as IH'.
        pose proof (retry_loop_calls_from remaining (S i) (delay * 2)%Z j) as Hfrom.
        destruct (retry_loop fn retries remaining (S i) (delay * 2)) as [later r].
        simpl in *. intros [H|H] Hstop.
        -- subst j. rewrite (Hstop error' Hfn) in Hretry. discriminate.
        -- destruct (IH' H Hstop) as [Hr Hnot]. split; [exact Hr|].
           intros [C|C]; [|exact (Hnot C)].
           specialize (Hfrom H). lia.
      * simpl. intros [H|[]] _. subst j. rewrite Hfn. split; [reflexivity|].
        intros [C|[]]. lia.
Qed.

(** C8.  [withRetry] calls [fn] at least once and at most [retries] times
    (for [retries] at least 1), one attempt after the other; it sleeps once
    between two attempts, [delay] first and twice the previous sleep each
    time after.  An attempt that fails with a quota-class error while an
    attempt is left is followed by the warning, by a sleep of the doubled
    delay and by the next attempt; an attempt other than the first is made
    only when the attempt before it failed with a quota-class error.  A
    failure of any other class is the result of [withRetry] itself, with no
    attempt made after it, and so are the value of an attempt that resolves
    and the failure of the last attempt allowed. *)
Theorem withRetry_retries_only_quota (delay : Z) :
  let trace := fst (withRetry fn retries delay) in
  let outcome := snd (withRetry fn retries delay) in
  (exists n, n <= retries /\ (0 < retries -> 0 < n) /\
     calls trace = seq 0 n /\ sleeps trace = backoff delay (pred n)) /\
  (forall j error, In j (calls trace) -> fn j = Rejected error ->
     isQuotaError error = true -> S j < retries ->
     exists before after,
       trace = before
               ++ Call j
                  :: Warn (retry_warning (delay * 2 ^ Z.of_nat j) j retries)
                  :: Sleep (delay * 2 ^ Z.of_nat j)
                  :: Call (S j) :: after) /\
  (forall j, In (S j) (calls trace) ->
     exists error, fn j = Rejected error /\ isQuotaError error = true) /\
  (forall j error, In j (calls trace) -> fn j = Rejected error ->
     isQuotaError error = false ->
     outcome = Rejected error /\ ~ In (S j) (calls trace)) /\
  (forall j value, In j (calls trace) -> fn j = Resolved value ->
     outcome = Resolved value /\ ~ In (S j) (calls trace)) /\
  (forall j error, In j (calls trace) -> fn j = Rejected error ->
     retries <= S j ->
     outcome = Rejected error /\ ~ In (S j) (calls trace)).
Proof.
  unfold withRetry. cbv zeta. split; [|split; [|split; [|split; [|split]]]].
  - destruct (retry_loop_shape retries 0 delay) as [n [Hn [Hpos [Hc Hs]]]]; [lia|].
    exists n. auto.
  - intros j error Hin Hj Hquota Hleft.
    destruct (retry_loop_goes_on retries 0 delay j error eq_refl Hin Hj Hquota Hleft)
      as [before [after Htrace]].
    exists before, after. rewrite Nat.sub_0_r in Htrace. exact Htrace.
  - intros j. apply retry_loop_retries_quota. lia.
  - intros j error. apply retry_loop_propagates.
  - intros j value Hin Hj.
    destruct (retry_loop_ends_at retries 0 delay j Hin) as [Hout Hlast].
    + intros error Herr. congruence.
    + rewrite Hout, Hj. now split.
  - intros j error Hin Hj Hlast.
    destruct (retry_loop_ends_at retries 0 delay j Hin) as [Hout Hno].
    + intros error' _. apply andb_false_iff. right. apply Nat.ltb_ge. lia.
    + rewrite Hout, Hj. now split.
Qed.

End Retry.

(** A rate-limited call is tried again after 1000 ms and after 2000 ms; a
    network failure on the second attempt ends the run there. *)
Example withRetry_third_time_lucky :
  Gemini.withRetry Samples.third_time_lucky 3 1000
  = ([Gemini.Call 0;
      Gemini.Warn "Gemini Quota exceeded, retrying in 1000ms... (Attempt 1/3)";
      Gemini.Sleep 1000;
      Gemini.Call 1;
      Gemini.Warn "Gemini Quota exceeded, retrying in 2000ms... (Attempt 2/3)";
      Gemini.Sleep 2000;
      Gemini.Call 2],
     Gemini.Resolved "ok"%string).
Proof. vm_compute. reflexivity. Qed.

Example withRetry_quota_then_network :
  Gemini.withRetry Samples.quota_then_network 3 1000
  = ([Gemini.Call 0;
      Gemini.Warn "Gemini Quota exceeded, retrying in 1000ms... (Attempt 1/3)";
      Gemini.Sleep 1000;
      Gemini.Call 1],
     Gemini.Rejected Samples.network_error).
Proof. vm_compute. reflexivity. Qed.

(** ** [runCode] *)

Section RunCode.
Import JS CodeIDE.
Local Open Scope string_scope.

Variable F : Type.
Variable env : collaborators F.

(** The capturing function appends one line per call, in call order, and
    touches nothing else. *)
Lemma capture_all (calls : list (list string)) (w : world F) :
  fold_left (fun w args => capture F args w) calls w
  = set_logs F (logs w ++ map (join " ") calls)%list w.
Proof.
  revert w. induction calls as [|args rest IH]; intros w; simpl.
  - rewrite app_nil_r. destruct w; reflexivity.
  - rewrite IH. unfold capture, set_logs. simpl.
    rewrite <- app_assoc. reflexivity.
Qed.

(** The JavaScript branch, in closed form *)
Lemma run_javascript_eq (code : string) (w : world F) :
  let ev := eval env code in
  let lines := map (join " ") (console_calls ev) in
  run_javascript F env code w
  = (set_console_log F (console_log w)
       (setOutput F
          match raised ev with
          | None => or_else (join newline lines) "Code executed successfully (no output)."
          | Some err => "Error: " ++ formatError err
          end
          (set_logs F lines w)),
     inl tt).
Proof.
  simpl. unfold run_javascript, bind, update, try_finally, try_catch, eval_code.
  rewrite capture_all. simpl.
  destruct (raised (eval env code)); reflexivity.
Qed.

Lemma execute_never_throws (lesson : Lesson) (code : string) (w : world F) :
  snd (execute F env lesson code w) = inl tt.
Proof.
  unfold execute.
  destruct (String.eqb (language lesson) "javascript").
  - rewrite run_javascript_eq. reflexivity.
  - destruct (String.eqb (language lesson) "html"); [reflexivity|].
    destruct (String.eqb (language lesson) "python"); [|reflexivity].
    unfold run_python, try_catch, update, throw.
    destruct (pyodide w); simpl; [|reflexivity].
    destruct (runPythonAsync env code); reflexivity.
Qed.

Lemma run_only_never_throws (lesson : Lesson) (code : string) (w : world F) :
  snd (run_only F env lesson code w) = inl tt.
Proof. unfold run_only, bind, update. apply execute_never_throws. Qed.

(** [runCode] is the run, then the request, then one of two endings. *)
Lemma runCode_eq (lesson : Lesson) (code : string) (w : world F) :
  let asked :=
    record_request F
      {| fr_lesson := lesson; fr_code := code; fr_output := output w |}
      (fst (run_only F env lesson code w)) in
  runCode F env lesson code w
  = match getCodeFeedback env lesson code (output w) with
    | inl feedback => (setIsRunning F false (onFeedback F feedback asked), inl tt)
    | inr err =>
        (setIsRunning F false
           (setOutput F ("System Error: " ++ formatError err) asked),
         inl tt)
    end.
Proof.
  simpl. unfold runCode, run_only, request_feedback, bind, update, try_finally,
    try_catch, throw.
  pose proof (execute_never_throws lesson code
                (setOutput F "" (setIsRunning F true w))) as Hok.
  destruct (execute F env lesson code (setOutput F "" (setIsRunning F true w)))
    as [shown r]. simpl in *. subst r.
  destruct (getCodeFeedback env lesson code (output w)); reflexivity.
Qed.

(** C5.  In a run of a JavaScript lesson every call of [console.log] is
    captured as one line, in call order.  When the code returns, the output
    is these lines joined by line breaks (and the fixed notice in place of
    an empty text).  When it throws, the output is ["Error: "] followed by
    the formatted fault, and nothing propagates.  In both cases
    [console.log] is put back to the value it had before the run, whatever
    the code left in it; it has that value at the end of [runCode] too. *)
Theorem javascript_run_captures_and_restores (lesson : Lesson) (code : string)
  (w : world F) :
  language lesson = "javascript" ->
  let ev := eval env code in
  let lines := map (join " ") (console_calls ev) in
  let shown := fst (run_only F env lesson code w) in
  snd (run_only F env lesson code w) = inl tt /\
  logs shown = lines /\
  output shown =
    match raised ev with
    | None => or_else (join newline lines) "Code executed successfully (no output)."
    | Some err => "Error: " ++ formatError err
    end /\
  (raised ev = None -> join newline lines <> "" ->
   output shown = join newline lines) /\
  console_log shown = console_log w /\
  snd (runCode F env lesson code w) = inl tt /\
  console_log (fst (runCode F env lesson code w)) = console_log w.
Proof.
  intros Hjs. simpl.
  assert (Hshown : run_only F env lesson code w
                   = run_javascript F env code (setOutput F "" (setIsRunning F true w))).
  { unfold run_only, bind, update, execute. rewrite Hjs. reflexivity. }
  split; [apply run_only_never_throws|].
  rewrite runCode_eq. rewrite Hshown. rewrite run_javascript_eq. simpl.
  split; [reflexivity|]. split; [reflexivity|]. split.
  - intros Hreturned Hlines. rewrite Hreturned. unfold or_else, truthy.
    destruct (String.eqb_spec (join newline (map (join " ") (console_calls (eval env code)))) "")
      as [Hempty|_]; [contradiction | reflexivity].
  - repeat split; destruct (getCodeFeedback env lesson code (output w)); reflexivity.
Qed.

(** C9.  A run of a Python lesson while the interpreter is not loaded sets
    the output to the "not ready" text and throws nothing, neither in the
    run nor in [runCode]; with the feedback request answered, that text is
    the output [runCode] ends with. *)
Theorem python_run_before_runtime_is_ready (lesson : Lesson) (code : string)
  (w : world F) :
  language lesson = "python" ->
  pyodide w = false ->
  snd (run_only F env lesson code w) = inl tt /\
  output (fst (run_only F env lesson code w)) = "Python runtime not ready." /\
  snd (runCode F env lesson code w) = inl tt /\
  (forall feedback,
     getCodeFeedback env lesson code (output w) = inl feedback ->
     output (fst (runCode F env lesson code w)) = "Python runtime not ready.").
Proof.
  intros Hpy Hnot.
  assert (Hshown : run_only F env lesson code w
                   = (setOutput F "Python runtime not ready."
                        (setOutput F "" (setIsRunning F true w)), inl tt)).
  { unfold run_only, bind, update, execute, run_python. rewrite Hpy. simpl.
    rewrite Hnot. reflexivity. }
  rewrite runCode_eq. rewrite Hshown. simpl.
  repeat split.
  - destruct (getCodeFeedback env lesson code (output w)); reflexivity.
  - intros feedback Hfb. rewrite Hfb. reflexivity.
Qed.

(** C4, as amended.  After every run, whatever the language and whether the
    user code returned or threw, [runCode] sends one feedback request, for
    this lesson and this code.  [runCode] itself never throws and ends with
    [isRunning] false.  When the request is answered, the answer goes to
    [onFeedback] and the output of the run stays.  When the request fails,
    nothing goes to [onFeedback] and the output of the run is replaced by
    ["System Error: "] followed by the formatted failure. *)
Theorem runCode_requests_feedback (lesson : Lesson) (code : string) (w : world F) :
  let shown := fst (run_only F env lesson code w) in
  let final := fst (runCode F env lesson code w) in
  snd (runCode F env lesson code w) = inl tt /\
  isRunning final = false /\
  exists request,
    requests final = (requests shown ++ [request])%list /\
    fr_lesson request = lesson /\
    fr_code request = code /\
    match getCodeFeedback env (fr_lesson request) (fr_code request) (fr_output request) with
    | inl feedback =>
        output final = output shown /\
        delivered final = (delivered shown ++ [feedback])%list
    | inr err =>
        output final = "System Error: " ++ formatError err /\
        delivered final = delivered shown
    end.
Proof.
  simpl. rewrite runCode_eq. simpl.
  destruct (getCodeFeedback env lesson code (output w)) as [feedback|err] eqn:Hfb.
  - repeat split.
    exists {| fr_lesson := lesson; fr_code := code; fr_output := output w |}.
    simpl. rewrite Hfb. repeat split.
  - repeat split.
    exists {| fr_lesson := lesson; fr_code := code; fr_output := output w |}.
    simpl. rewrite Hfb. repeat split.
Qed.

(** The output a request carries is the one the component showed when
    [runCode] was called, not the one the run has just produced. *)
Lemma runCode_forwards_rendered_output (lesson : Lesson) (code : string) (w : world F) :
  requests (fst (runCode F env lesson code w))
  = (requests (fst (run_only F env lesson code w))
     ++ [{| fr_lesson := lesson; fr_code := code; fr_output := output w |}])%list.
Proof.
  rewrite runCode_eq. simpl.
  destruct (getCodeFeedback env lesson code (output w)); reflexivity.
Qed.

End RunCode.

(** C5 on a run that logs two lines: the output is the two lines, and
    [console.log] is the native function again. *)
Lemma javascript_run_sample :
  CodeIDE.language Samples.js_lesson = "javascript"%string /\
  (let env := Samples.service_answers Samples.logs_two_lines in
   let code := "console.log('hello', 'world'); console.log(2)"%string in
   let w := Samples.after_earlier_run in
   let ev := CodeIDE.eval env code in
   let lines := map (JS.join " ") (CodeIDE.console_calls ev) in
   let shown := fst (CodeIDE.run_only string env Samples.js_lesson code w) in
   snd (CodeIDE.run_only string env Samples.js_lesson code w) = inl tt /\
   CodeIDE.logs shown = lines /\
   CodeIDE.output shown =
     match CodeIDE.raised ev with
     | None => JS.or_else (JS.join JS.newline lines)
                 "Code executed successfully (no output)."
     | Some err => ("Error: " ++ CodeIDE.formatError err)%string
     end /\
   (CodeIDE.raised ev = None -> JS.join JS.newline lines <> ""%string ->
    CodeIDE.output shown = JS.join JS.newline lines) /\
   CodeIDE.console_log shown = CodeIDE.console_log w /\
   snd (CodeIDE.runCode string env Samples.js_lesson code w) = inl tt /\
   CodeIDE.console_log (fst (CodeIDE.runCode string env Samples.js_lesson code w))
   = CodeIDE.console_log w).
Proof.
  split; [reflexivity|].
  apply (javascript_run_captures_and_restores string
           (Samples.service_answers Samples.logs_two_lines) Samples.js_lesson
           "console.log('hello', 'world'); console.log(2)" Samples.after_earlier_run).
  reflexivity.
Defined.

(** The same run, and a run that logs, replaces [console.log] and throws,
    by evaluation. *)
Example javascript_run_outputs :
  CodeIDE.output
    (fst (CodeIDE.run_only string (Samples.service_answers Samples.logs_two_lines)
            Samples.js_lesson "console.log('hello', 'world'); console.log(2)"
            Samples.after_earlier_run))
  = ("hello world" ++ JS.newline ++ "2")%string /\
  (let thrown_run :=
     fst (CodeIDE.run_only string (Samples.service_answers Samples.logs_then_throws)
            Samples.js_lesson "console.log('hi'); console.log = f; throw new Error('boom')"
            Samples.after_earlier_run) in
   CodeIDE.output thrown_run = "Error: boom"%string /\
   CodeIDE.logs thrown_run = ["hi"%string] /\
   CodeIDE.console_log thrown_run = CodeIDE.native_log).
Proof. vm_compute. repeat split. Qed.

(** C9 on the Python lesson, runtime not loaded *)
Lemma python_run_before_runtime_is_ready_sample :
  CodeIDE.language Samples.python_lesson = "python"%string /\
  CodeIDE.pyodide Samples.after_earlier_run = false /\
  (let env := Samples.service_answers Samples.logs_hi in
   let code := "print(1)"%string in
   let w := Samples.after_earlier_run in
   snd (CodeIDE.run_only string env Samples.python_lesson code w) = inl tt /\
   CodeIDE.output (fst (CodeIDE.run_only string env Samples.python_lesson code w))
   = "Python runtime not ready."%string /\
   snd (CodeIDE.runCode string env Samples.python_lesson code w) = inl tt /\
   (forall feedback,
      CodeIDE.getCodeFeedback env Samples.python_lesson code (CodeIDE.output w)
      = inl feedback ->
      CodeIDE.output (fst (CodeIDE.runCode string env Samples.python_lesson code w))
      = "Python runtime not ready."%string)).
Proof.
  split; [reflexivity|]. split; [reflexivity|].
  apply (python_run_before_runtime_is_ready string
           (Samples.service_answers Samples.logs_hi) Samples.python_lesson
           "print(1)" Samples.after_earlier_run); reflexivity.
Defined.

(** C4 as stated fails.  The code logs [hi] and returns, the feedback
    request fails for quota: the output [hi] of the run is replaced by the
    error text of the request.  (The request carried the output of the
    earlier run.) *)
Lemma runCode_feedback_failure_overwrites_output :
  let env := Samples.service_out_of_quota Samples.logs_hi in
  let code := "console.log('hi')"%string in
  let w := Samples.after_earlier_run in
  let shown := fst (CodeIDE.run_only string env Samples.js_lesson code w) in
  let final := fst (CodeIDE.runCode string env Samples.js_lesson code w) in
  CodeIDE.getCodeFeedback env Samples.js_lesson code (CodeIDE.output w)
  = inr (CodeIDE.ErrorObject "429 quota exceeded") /\
  CodeIDE.output shown = "hi"%string /\
  CodeIDE.output final = "System Error: 429 quota exceeded"%string /\
  CodeIDE.output final <> CodeIDE.output shown /\
  map CodeIDE.fr_output (CodeIDE.requests final) = ["previous output"%string].
Proof. vm_compute. repeat split. discriminate. Qed.

(** ** [POST /api/courses] followed by [GET /api/courses] *)

Section CourseRoundTrip.
Import Store Sql Server JS.

Variable policy : arity_policy.
Variable env : environment.

(** One iteration of the lesson loop *)
Lemma insert_lessons_cons (moduleId : string) (b : lesson_body) (rest : list lesson_body)
  (k : nat) (d : database) :
  insert_lessons policy env moduleId (b :: rest) k d =
  match insert_lesson
          (or_else (lb_id b)
             ("l" ++ string_of_Z (Date_now env (S k)) ++ "_" ++ Math_random_base36 env k)%string)
          moduleId (lb_title b) (lb_concept b) (lb_example b) (lb_practice_guided b)
          (lb_practice_independent b) (lb_language b) d with
  | Returned d1 =>
      insert_lessons policy env moduleId rest (if truthy (lb_id b) then k else S k) d1
  | Thrown e => (d, Thrown e)
  end.
Proof.
  unfold insert_lessons. simpl. unfold bind. rewrite run_exact.
  destruct (insert_lesson _ _ _ _ _ _ _ _ d); reflexivity.
Qed.

(** One iteration of the module loop *)
Lemma insert_modules_cons (courseId : string) (b : module_body) (rest : list module_body)
  (k : nat) (d : database) :
  insert_modules policy env courseId (b :: rest) k d =
  let moduleId :=
    or_else (mb_id b)
      ("m" ++ string_of_Z (Date_now env (S k)) ++ "_" ++ Math_random_base36 env k)%string in
  match insert_module moduleId courseId (mb_title b) d with
  | Returned d1 =>
      match insert_lessons policy env moduleId (mb_lessons b)
              (if truthy (mb_id b) then k else S k) d1 with
      | (d2, Returned k2) => insert_modules policy env courseId rest k2 d2
      | (d2, Thrown e) => (d2, Thrown e)
      end
  | Thrown e => (d, Thrown e)
  end.
Proof.
  unfold insert_modules. simpl. unfold bind. rewrite run_exact.
  destruct (insert_module _ _ _ d); reflexivity.
Qed.

(** Whatever the outcome, the lesson loop only appends lesson rows, all
    under the given module. *)
Lemma insert_lessons_appends (moduleId : string) (body_lessons : list lesson_body) :
  forall (k : nat) (d : database),
  exists rows,
    fst (insert_lessons policy env moduleId body_lessons k d)
    = with_lessons d (lessons d ++ rows) /\
    Forall (fun r => l_module_id r = moduleId) rows.
Proof.
  induction body_lessons as [|b rest IH]; intros k d.
  - exists []. rewrite app_nil_r. destruct d; split; [reflexivity | constructor].
  - rewrite insert_lessons_cons. unfold insert_lesson.
    destruct (existsb _ (lessons d)).
    + exists []. rewrite app_nil_r. destruct d; split; [reflexivity | constructor].
    + match goal with
      | |- context [insert_lessons policy env moduleId rest ?k1 ?d1] =>
          destruct (IH k1 d1) as [rows [Hd Hunder]]
      end.
      eexists (_ :: rows). rewrite Hd. split.
      * destruct d; simpl. rewrite <- app_assoc. reflexivity.
      * constructor; [reflexivity | exact Hunder].
Qed.

(** Whatever the outcome, the module loop only appends module rows of the
    given course and lesson rows of those modules. *)
Lemma insert_modules_appends (courseId : string) (body_modules : list module_body) :
  forall (k : nat) (d : database),
  exists new_modules new_lessons,
    fst (insert_modules policy env courseId body_modules k d)
    = with_lessons (with_modules d (modules d ++ new_modules))
        (lessons d ++ new_lessons) /\
    Forall (fun m => m_course_id m = courseId) new_modules /\
    Forall (fun l => In (l_module_id l) (map m_id new_modules)) new_lessons.
Proof.
  induction body_modules as [|b rest IH]; intros k d.
  - exists [], []. rewrite !app_nil_r. destruct d; repeat split; constructor.
  - rewrite insert_modules_cons. simpl. unfold insert_module.
    destruct (existsb _ (modules d)).
    + exists [], []. rewrite !app_nil_r. destruct d; repeat split; constructor.
    + match goal with
      | |- context [insert_lessons policy env ?mid ?ls ?k1 ?d1] =>
          destruct (insert_lessons_appends mid ls k1 d1) as [rows [Hd2 Hunder]];
          destruct (insert_lessons policy env mid ls k1 d1) as [d2 [k2|e]]
      end; simpl in Hd2; subst d2.
      * match goal with
        | |- context [insert_modules policy env courseId rest k2 ?d2] =>
            destruct (IH k2 d2) as [ms [ls [Hd [Hcourse Hmods]]]]
        end.
        eexists (_ :: ms), (rows ++ ls). rewrite Hd. split; [|split].
        -- destruct d; simpl. rewrite <- !app_assoc. reflexivity.
        -- constructor; [reflexivity | exact Hcourse].
        -- apply Forall_app. split.
           ++ eapply Forall_impl; [|exact Hunder].
              intros l Hl. simpl. left. symmetry. exact Hl.
           ++ eapply Forall_impl; [|exact Hmods].
              intros l Hl. simpl. right. exact Hl.
      * eexists [_], rows. split; [|split].
        -- destruct d; reflexivity.
        -- constructor; [reflexivity | constructor].
        -- eapply Forall_impl; [|exact Hunder].
           intros l Hl. simpl. left. symmetry. exact Hl.
Qed.

(** [POST /api/courses] keeps the references resolved, whether it returns
    or throws half way: the hypothesis of the round trip below is an
    invariant of the handler. *)
Lemma post_courses_keeps_references (body : course_body) (d : database) :
  references_resolve d ->
  references_resolve (fst (post_courses policy env body d)).
Proof.
  intros [Hmodules Hlessons].
  unfold post_courses, bind. rewrite run_exact. unfold insert_course.
  destruct (existsb _ (courses d)); [split; assumption|].
  match goal with
  | |- context [insert_modules policy env ?cid ?ms ?k1 ?d1] =>
      destruct (insert_modules_appends cid ms k1 d1) as [nm [nl [Hd [Hcourse Hmods]]]];
      destruct (insert_modules policy env cid ms k1 d1) as [d2 r]
  end.
  simpl in Hd.
  assert (Hfst : fst (match r with
                      | Returned _ => ret ("c" ++ string_of_Z (Date_now env 0))%string d2
                      | Thrown e => (d2, Thrown e)
                      end) = d2) by (destruct r; reflexivity).
  rewrite Hfst. subst d2. simpl.
  rewrite Forall_forall in Hcourse, Hmods.
  split.
  - intros m Hm. simpl in *. rewrite map_app, in_app_iff.
    apply in_app_iff in Hm. destruct Hm as [Hm|Hm].
    + left. now apply Hmodules.
    + right. simpl. left. symmetry. now apply Hcourse.
  - intros l Hl. simpl in *. rewrite map_app, in_app_iff.
    apply in_app_iff in Hl. destruct Hl as [Hl|Hl].
    + left. now apply Hlessons.
    + right. now apply Hmods.
Qed.

(** A lesson loop that returned has appended one row per posted lesson, in
    order, each with the posted fields and under the given module. *)
Lemma insert_lessons_returned (moduleId : string) (body_lessons : list lesson_body) :
  forall (k : nat) (d d' : database) (k' : nat),
  insert_lessons policy env moduleId body_lessons k d = (d', Returned k') ->
  exists rows,
    d' = with_lessons d (lessons d ++ rows) /\
    Forall2 lesson_matches body_lessons rows /\
    Forall (fun r => l_module_id r = moduleId) rows.
Proof.
  induction body_lessons as [|b rest IH]; intros k d d' k' Hrun.
  - unfold insert_lessons in Hrun. simpl in Hrun. inversion Hrun; subst.
    exists []. rewrite app_nil_r. destruct d'; repeat split; constructor.
  - rewrite insert_lessons_cons in Hrun.
    unfold insert_lesson in Hrun.
    destruct (existsb _ (lessons d)); [discriminate|].
    apply IH in Hrun. destruct Hrun as [rows [Hd' [Hmatch Hunder]]].
    eexists (_ :: rows). split; [|split].
    + rewrite Hd'. destruct d; simpl. rewrite <- app_assoc. reflexivity.
    + constructor; [|exact Hmatch].
      unfold lesson_matches, or_else. simpl.
      repeat split. intros Hid. now rewrite Hid.
    + constructor; [reflexivity | exact Hunder].
Qed.

(** A module loop that returned has appended one module row per posted
    module and, for each, the rows of its lessons; the module ids are new
    and pairwise distinct. *)
Lemma insert_modules_returned (courseId : string) (body_modules : list module_body) :
  forall (k : nat) (d d' : database) (k' : nat),
  insert_modules policy env courseId body_modules k d = (d', Returned k') ->
  exists groups : list group,
    d' = with_lessons (with_modules d (modules d ++ map fst groups))
           (lessons d ++ flat_map snd groups) /\
    Forall2 (group_matches courseId) body_modules groups /\
    NoDup (map group_id groups) /\
    Forall (fun g => ~ In (group_id g) (map m_id (modules d))) groups.
Proof.
  induction body_modules as [|b rest IH]; intros k d d' k' Hrun.
  - unfold insert_modules in Hrun. simpl in Hrun. inversion Hrun; subst.
    exists []. simpl. rewrite !app_nil_r. destruct d'; repeat split; constructor.
  - rewrite insert_modules_cons in Hrun. simpl in Hrun.
    unfold insert_module in Hrun.
    destruct (existsb _ (modules d)) eqn:Hkey; [discriminate|].
    apply key_is_new in Hkey.
    match type of Hrun with
    | context [insert_lessons policy env ?mid ?ls ?k1 ?d1] =>
        destruct (insert_lessons policy env mid ls k1 d1) as [d2 [k2|e]] eqn:Hlessons
    end; [|discriminate].
    apply insert_lessons_returned in Hlessons.
    destruct Hlessons as [rows [Hd2 [Hmatch Hunder]]].
    apply IH in Hrun.
    destruct Hrun as [groups [Hd' [Hgroups [Hnodup Hnew]]]].
    subst d2. simpl in *.
    eexists ((_, rows) :: groups). split; [|split; [|split]].
    + rewrite Hd'. destruct d; simpl. rewrite <- !app_assoc. reflexivity.
    + constructor; [|exact Hgroups].
      unfold group_matches, module_matches, group_id, or_else. simpl.
      repeat split; auto. intros Hid. now rewrite Hid.
    + simpl. constructor; [|exact Hnodup].
      intros Hin. apply in_map_iff in Hin. destruct Hin as [g [Hg Hin]].
      rewrite Forall_forall in Hnew. apply (Hnew g Hin).
      rewrite map_app, in_app_iff. right. simpl. left. symmetry. exact Hg.
    + constructor.
      * exact Hkey.
      * rewrite Forall_forall in *. intros g Hin Hold.
        apply (Hnew g Hin). rewrite map_app, in_app_iff. left. exact Hold.
Qed.

(** Among rows grouped under pairwise distinct module ids, the rows under
    the id of one group are the rows of that group. *)
Lemma filter_by_group (groups : list group) :
  NoDup (map group_id groups) ->
  Forall (fun g => Forall (fun r => l_module_id r = group_id g) (snd g)) groups ->
  forall g, In g groups ->
  filter (fun r => String.eqb (l_module_id r) (group_id g)) (flat_map snd groups)
  = snd g.
Proof.
  induction groups as [|g0 rest IH]; intros Hnodup Hunder g Hin; [destruct Hin|].
  simpl. rewrite filter_app.
  inversion Hnodup as [|? ? Hnotin Hnodup']; subst.
  inversion Hunder as [|? ? Hunder0 Hunder']; subst.
  rewrite Forall_forall in Hunder0.
  destruct Hin as [Heq | Hin].
  - subst g0.
    rewrite filter_everything
      by (intros r Hr; apply String.eqb_eq; now apply Hunder0).
    rewrite filter_nothing; [now rewrite app_nil_r|].
    intros r Hr. apply in_flat_map in Hr. destruct Hr as [g' [Hg' Hr]].
    apply String.eqb_neq. intros Heq.
    rewrite Forall_forall in Hunder'. specialize (Hunder' g' Hg').
    rewrite Forall_forall in Hunder'. rewrite (Hunder' r Hr) in Heq.
    apply Hnotin. rewrite <- Heq. now apply in_map.
  - rewrite filter_nothing.
    + simpl. now apply IH.
    + intros r Hr. apply String.eqb_neq. intros Heq.
      rewrite (Hunder0 r Hr) in Heq.
      apply Hnotin. rewrite Heq. now apply in_map.
Qed.

(** C7, as amended.  In a database whose references resolve, a
    [POST /api/courses] that returns is followed by a [GET /api/courses]
    that returns, among its courses, one whose id is the id the [POST]
    answered, whose title and description are the posted ones, and whose
    modules and lessons are the posted ones in the posted order, with equal
    [title], [concept], [example], [practice_guided],
    [practice_independent] and [language].  A module or lesson keeps the id
    it was posted with and gets a generated one when it was posted with
    none.  The course id is always the generated ["c" + Date.now()]: an id
    in the posted course is not read. *)
Theorem post_then_get_courses (body : course_body) (d d' : database) (id : string) :
  references_resolve d ->
  post_courses policy env body d = (d', Returned id) ->
  id = ("c" ++ string_of_Z (Date_now env 0))%string /\
  exists views view,
    get_courses policy d' = (d', Returned views) /\
    In view views /\
    c_id (cj_course view) = id /\
    course_matches body view.
Proof.
  intros [Hmodules Hlessons] Hpost.
  unfold post_courses, bind in Hpost. rewrite run_exact in Hpost.
  unfold insert_course in Hpost.
  destruct (existsb _ (courses d)) eqn:Hkey; [discriminate|].
  apply key_is_new in Hkey.
  match type of Hpost with
  | context [insert_modules policy env ?cid ?ms ?k1 ?d1] =>
      destruct (insert_modules policy env cid ms k1 d1) as [d2 [k2|e]] eqn:Hloop
  end; [|discriminate].
  unfold ret in Hpost. inversion Hpost; subst d2 id. clear Hpost.
  split; [reflexivity|].
  apply insert_modules_returned in Hloop.
  destruct Hloop as [groups [Hd' [Hgroups [Hnodup Hnew]]]]. simpl in Hd', Hnew.
  set (cid := ("c" ++ string_of_Z (Date_now env 0))%string) in *.
  set (row := {| c_id := cid; c_title := cb_title body;
                 c_description := cb_description body;
                 c_image_url := or_else (cb_image_url body)
                   ("https://picsum.photos/seed/" ++ cid ++ "/800/450")%string;
                 c_created_at := CURRENT_TIMESTAMP env |}) in *.
  assert (Hcourses : courses d' = courses d ++ [row]) by (subst d'; reflexivity).
  assert (Hmods : modules d' = modules d ++ map fst groups) by (subst d'; reflexivity).
  assert (Hless : lessons d' = lessons d ++ flat_map snd groups) by (subst d'; reflexivity).
  assert (Hunder : Forall (fun g => Forall (fun r => l_module_id r = group_id g) (snd g))
                     groups).
  { eapply Forall2_right; [exact Hgroups|]. intros b g Hg. apply Hg. }
  assert (Hcourse : Forall (fun g => m_course_id (fst g) = cid) groups).
  { eapply Forall2_right; [exact Hgroups|]. intros b g Hg. apply Hg. }
  assert (Hselected : select_modules_where_course_id cid d' = map fst groups).
  { unfold select_modules_where_course_id. rewrite Hmods, filter_app.
    rewrite filter_nothing.
    - simpl. apply filter_everything. intros m Hm.
      apply in_map_iff in Hm. destruct Hm as [g [Hg Hin]]. subst m.
      rewrite Forall_forall in Hcourse. apply String.eqb_eq. now apply Hcourse.
    - intros m Hm. apply String.eqb_neq. intros Heq.
      apply Hkey. rewrite <- Heq. now apply Hmodules. }
  assert (Hview : forall g, In g groups -> module_view d' (fst g) = group_json g).
  { intros g Hin. unfold module_view, group_json. f_equal.
    unfold select_lessons_where_module_id. rewrite Hless, filter_app.
    rewrite filter_nothing.
    - simpl. now apply (filter_by_group groups).
    - intros l Hl. apply String.eqb_neq. intros Heq.
      rewrite Forall_forall in Hnew. apply (Hnew g Hin).
      unfold group_id. rewrite <- Heq. now apply Hlessons. }
  exists (map (course_view d') (courses d')), (course_view d' row).
  split; [apply get_courses_eq|].
  split; [apply in_map; rewrite Hcourses, in_app_iff; right; left; reflexivity|].
  split; [reflexivity|].
  unfold course_matches, course_view. simpl.
  split; [reflexivity|]. split; [reflexivity|].
  fold cid. rewrite Hselected, map_map.
  rewrite (map_ext_in _ group_json) by exact Hview.
  apply Forall2_map_right.
  eapply Forall2_impl; [|exact Hgroups].
  intros b g Hg. apply Hg.
Qed.

End CourseRoundTrip.

(** C7 on the imported course, posted to a database that holds a course of
    one module and eight lessons *)
Lemma post_then_get_courses_sample :
  let d := Samples.eight_lessons_23_steps in
  let d' := fst (Server.post_courses Sql.Strict Samples.clock Samples.imported_course d) in
  let id := "c1700000000000"%string in
  Server.references_resolve d /\
  Server.post_courses Sql.Strict Samples.clock Samples.imported_course d
  = (d', Sql.Returned id) /\
  (id = ("c" ++ JS.string_of_Z (Server.Date_now Samples.clock 0))%string /\
   exists views view,
     Server.get_courses Sql.Strict d' = (d', Sql.Returned views) /\
     In view views /\
     Store.c_id (Server.cj_course view) = id /\
     Server.course_matches Samples.imported_course view).
Proof.
  assert (Hrefs : Server.references_resolve Samples.eight_lessons_23_steps).
  { split; intros x Hin; vm_compute in Hin;
      repeat (destruct Hin as [Hx | Hin]; [subst x; vm_compute; auto|]);
      destruct Hin. }
  split; [exact Hrefs|].
  split; [vm_compute; reflexivity|].
  apply (post_then_get_courses Sql.Strict Samples.clock Samples.imported_course
           Samples.eight_lessons_23_steps
           (fst (Server.post_courses Sql.Strict Samples.clock Samples.imported_course
                   Samples.eight_lessons_23_steps))
           "c1700000000000").
  - exact Hrefs.
  - vm_compute. reflexivity.
Defined.

(** C7 as stated fails on the course id.  The imported course is posted
    with the id [webdev]; the handler answers a generated id, and no course
    read back carries the posted one. *)
Lemma posted_course_id_is_replaced :
  let body := Samples.imported_course in
  let d' := fst (Server.post_courses Sql.Strict Samples.clock body Store.empty) in
  JS.truthy (Server.cb_id body) = true /\
  Server.post_courses Sql.Strict Samples.clock body Store.empty
  = (d', Sql.Returned "c1700000000000"%string) /\
  exists views,
    Server.get_courses Sql.Strict d' = (d', Sql.Returned views) /\
    Forall (fun view => Store.c_id (Server.cj_course view) <> Server.cb_id body) views.
Proof.
  split; [reflexivity|]. split; [vm_compute; reflexivity|].
  eexists. split; [vm_compute; reflexivity|].
  repeat constructor. vm_compute. discriminate.
Qed.

(* ================================================================= *)
(** * Part III: further facts about the server *)
(* ================================================================= *)

(** ** What a handler keeps *)

Section Keeps.
Import Store Sql Server Startup.
Local Open Scope nat_scope.

Lemma keeps_ret {A} (P : database -> Prop) (a : A) : keeps P (ret a).
Proof. intros d H. exact H. Qed.

Lemma keeps_bind {A B} (P : database -> Prop) (m : handler A) (k : A -> handler B) :
  keeps P m -> (forall a, keeps P (k a)) -> keeps P (bind m k).
Proof.
  intros Hm Hk d H. unfold bind.
  specialize (Hm d H). destruct (m d) as [d1 [a|e]]; simpl in *.
  - now apply Hk.
  - exact Hm.
Qed.

Lemma keeps_query {R} (P : database -> Prop) (policy : arity_policy) (n k : nat)
  (q : database -> R) :
  keeps P (query policy n k q).
Proof.
  intros d H. unfold query. destruct (bind_parameters policy n k); exact H.
Qed.

Lemma keeps_run (P : database -> Prop) (policy : arity_policy) (n k : nat)
  (u : database -> outcome database) :
  (forall d d', P d -> u d = Returned d' -> P d') ->
  keeps P (run policy n k u).
Proof.
  intros Hu d H. unfold run. destruct (bind_parameters policy n k); [|exact H].
  destruct (u d) as [d'|e] eqn:E; simpl; [now apply (Hu d) | exact H].
Qed.

Lemma keeps_forM_ {A} (P : database -> Prop) (l : list A) (f : A -> handler unit) :
  (forall x, In x l -> keeps P (f x)) -> keeps P (forM_ l f).
Proof.
  induction l as [|x rest IH]; intros Hf; simpl.
  - apply keeps_ret.
  - apply keeps_bind; [apply Hf; now left|].
    intros _. apply IH. intros y Hy. apply Hf. now right.
Qed.

End Keeps.

(** ** Reading the catalogue *)

Section CatalogueFacts.
Import Store Sql Server Startup.
Local Open Scope nat_scope.

(** X1.  [GET /api/courses] never throws and never writes.  It answers one
    entry per course row, in table order; an entry lists exactly the module
    rows whose [course_id] is the id of the course, each with exactly the
    lesson rows whose [module_id] is the id of the module, and its progress
    is computed from the ids of these lessons and the whole [step_progress]
    table. *)
Theorem get_courses_reads_only (policy : arity_policy) (d : database) :
  exists views,
    get_courses policy d = (d, Returned views) /\
    map cj_course views = courses d /\
    Forall (fun view =>
              (forall m, In m (map mj_module (cj_modules view)) <->
                         In m (modules d) /\ m_course_id m = c_id (cj_course view)) /\
              Forall (fun mj =>
                        forall l, In l (mj_lessons mj) <->
                                  In l (lessons d) /\ l_module_id l = m_id (mj_module mj))
                     (cj_modules view) /\
              cj_progress view
              = progress (lesson_ids_of (cj_modules view)) (step_progress d))
           views.
Proof.
  exists (map (course_view d) (courses d)).
  split; [apply get_courses_eq|]. split.
  - rewrite map_map. simpl. apply map_id.
  - apply Forall_forall. intros view Hview.
    apply in_map_iff in Hview. destruct Hview as [c [Hc _]]. subst view. simpl.
    split; [|split; [|reflexivity]].
    + intros m. rewrite map_map. simpl. rewrite map_id.
      unfold select_modules_where_course_id. rewrite filter_In, String.eqb_eq.
      reflexivity.
    + apply Forall_forall. intros mj Hmj.
      apply in_map_iff in Hmj. destruct Hmj as [m [Hm _]]. subst mj. simpl.
      intros l. unfold select_lessons_where_module_id.
      rewrite filter_In, String.eqb_eq. reflexivity.
Qed.

End CatalogueFacts.

(** ** Writing the catalogue *)

Section CatalogueWrites.
Import Store Sql Server Startup JS.
Local Open Scope nat_scope.

Lemma key_is_absent {A} (key : A -> string) (id : string) (table : list A) :
  ~ In id (map key table) ->
  existsb (fun x => String.eqb (key x) id) table = false.
Proof.
  intros Habsent.
  destruct (existsb (fun x => String.eqb (key x) id) table) eqn:E; [|reflexivity].
  exfalso. apply Habsent. apply existsb_exists in E. destruct E as [x [Hx Heq]].
  apply String.eqb_eq in Heq. rewrite <- Heq. now apply in_map.
Qed.

(** Whatever the outcome, [POST /api/courses] only appends rows to the
    three catalogue tables, at most one of them a course row. *)
Lemma post_courses_appends (policy : arity_policy) (env : environment)
  (body : course_body) (d : database) :
  exists new_courses new_modules new_lessons,
    fst (post_courses policy env body d)
    = with_lessons
        (with_modules (with_courses d (courses d ++ new_courses))
           (modules d ++ new_modules))
        (lessons d ++ new_lessons) /\
    length new_courses <= 1.
Proof.
  unfold post_courses, bind. rewrite run_exact. unfold insert_course.
  destruct (existsb _ (courses d)).
  - exists [], [], []. rewrite !app_nil_r. destruct d; split; [reflexivity | simpl; lia].
  - match goal with
    | |- context [insert_modules policy env ?cid ?ms ?k1 ?d1] =>
        destruct (insert_modules_appends policy env cid ms k1 d1) as [nm [nl [Hd _]]];
        destruct (insert_modules policy env cid ms k1 d1) as [d2 r]
    end.
    simpl in Hd. subst d2.
    eexists [_], nm, nl. split; [|simpl; lia].
    destruct r; destruct d; reflexivity.
Qed.

Lemma group_lessons_count (courseId : string) (body_modules : list module_body)
  (groups : list group) :
  Forall2 (group_matches courseId) body_modules groups ->
  length (flat_map snd groups) = length (flat_map mb_lessons body_modules).
Proof.
  intros H. induction H as [|b g bs gs Hg _ IH]; [reflexivity|].
  simpl. rewrite !length_app, IH. f_equal.
  destruct Hg as [_ [_ [_ [_ Hlessons]]]]. simpl in Hlessons.
  symmetry. exact (Forall2_length Hlessons).
Qed.

(** X2.  [POST /api/courses] never removes or changes a row: after it, each
    catalogue table is the table before followed by new rows, and the
    [step_progress] and [settings] tables are as before.  When it returns
    it has added one course row, one module row per posted module and one
    lesson row per posted lesson. *)
Theorem post_courses_only_appends (policy : arity_policy) (env : environment)
  (body : course_body) (d : database) :
  let d' := fst (post_courses policy env body d) in
  exists new_courses new_modules new_lessons,
    courses d' = courses d ++ new_courses /\
    modules d' = modules d ++ new_modules /\
    lessons d' = lessons d ++ new_lessons /\
    step_progress d' = step_progress d /\
    settings d' = settings d /\
    length new_courses <= 1 /\
    (forall id, snd (post_courses policy env body d) = Returned id ->
       length new_courses = 1 /\
       length new_modules = length (cb_modules body) /\
       length new_lessons = length (flat_map mb_lessons (cb_modules body))).
Proof.
  simpl.
  destruct (post_courses_appends policy env body d) as [cs [ms [ls [Hd Hcs]]]].
  exists cs, ms, ls. rewrite Hd. simpl.
  repeat (split; [reflexivity|]). split; [exact Hcs|].
  intros id Hreturned.
  assert (Hrun : post_courses policy env body d
                 = (fst (post_courses policy env body d), Returned id)).
  { rewrite <- Hreturned. destruct (post_courses policy env body d); reflexivity. }
  clear Hreturned. rewrite Hd in Hrun.
  unfold post_courses, bind in Hrun. rewrite run_exact in Hrun.
  unfold insert_course in Hrun.
  destruct (existsb _ (courses d)); [discriminate|].
  match type of Hrun with
  | context [insert_modules policy env ?cid ?bm ?k1 ?d1] =>
      destruct (insert_modules policy env cid bm k1 d1) as [d2 [k2|e]] eqn:Hloop
  end; [|discriminate].
  apply insert_modules_returned in Hloop.
  destruct Hloop as [groups [Hd2 [Hgroups [_ _]]]].
  unfold ret in Hrun. inversion Hrun as [[Hstate Hid]]. clear Hrun.
  rewrite Hd2 in Hstate. simpl in Hstate.
  assert (Hc : courses d ++ [ {| c_id := id; c_title := cb_title body;
                                 c_description := cb_description body;
                                 c_image_url :=
                                   or_else (cb_image_url body)
                                     ("https://picsum.photos/seed/" ++ id ++ "/800/450")%string;
                                 c_created_at := CURRENT_TIMESTAMP env |} ]
               = courses d ++ cs).
  { rewrite <- Hid. exact (f_equal courses Hstate). }
  assert (Hm : modules d ++ map fst groups = modules d ++ ms)
    by exact (f_equal modules Hstate).
  assert (Hl : lessons d ++ flat_map snd groups = lessons d ++ ls)
    by exact (f_equal lessons Hstate).
  apply app_inv_head in Hc, Hm, Hl. subst cs ms ls.
  split; [reflexivity|]. split.
  - rewrite length_map. symmetry. exact (Forall2_length Hgroups).
  - now apply (group_lessons_count _ _ _ Hgroups).
Qed.

(** X3.  A [POST /api/courses] that fails is not rolled back.  When the
    first posted module starts with two lessons that carry the same id, and
    the generated course id, the id of that module and the id of the
    lessons are new, the request throws on the primary key of [lessons] and
    the database keeps the course row, the module row and the first lesson
    row it had inserted by then. *)
Theorem post_courses_is_not_rolled_back (policy : arity_policy) (env : environment)
  (body : course_body) (d : database)
  (first : module_body) (others : list module_body)
  (l1 l2 : lesson_body) (more : list lesson_body) :
  let courseId := ("c" ++ string_of_Z (Date_now env 0))%string in
  let moduleId :=
    or_else (mb_id first)
      ("m" ++ string_of_Z (Date_now env 1) ++ "_" ++ Math_random_base36 env 0)%string in
  cb_modules body = first :: others ->
  mb_lessons first = l1 :: l2 :: more ->
  truthy (lb_id l1) = true ->
  lb_id l2 = lb_id l1 ->
  ~ In courseId (map c_id (courses d)) ->
  ~ In moduleId (map m_id (modules d)) ->
  ~ In (lb_id l1) (map l_id (lessons d)) ->
  snd (post_courses policy env body d)
  = Thrown (SqliteError "SQLITE_CONSTRAINT_PRIMARYKEY") /\
  map c_id (courses (fst (post_courses policy env body d)))
  = map c_id (courses d) ++ [courseId] /\
  map m_id (modules (fst (post_courses policy env body d)))
  = map m_id (modules d) ++ [moduleId] /\
  map l_id (lessons (fst (post_courses policy env body d)))
  = map l_id (lessons d) ++ [lb_id l1].
Proof.
  intros courseId moduleId Hmodules Hlessons Hid1 Hid2 Hc Hm Hl.
  assert (Hkeep : forall fresh, or_else (lb_id l1) fresh = lb_id l1)
    by (intros fresh; unfold or_else; now rewrite Hid1).
  assert (Hrun : exists c m l,
             post_courses policy env body d
             = (with_lessons
                  (with_modules (with_courses d (courses d ++ [c])) (modules d ++ [m]))
                  (lessons d ++ [l]),
                Thrown (SqliteError "SQLITE_CONSTRAINT_PRIMARYKEY")) /\
             c_id c = courseId /\ m_id m = moduleId /\ l_id l = lb_id l1).
  { unfold post_courses, bind. rewrite run_exact. unfold insert_course.
    fold courseId. rewrite (key_is_absent c_id courseId (courses d) Hc).
    rewrite Hmodules, insert_modules_cons. fold moduleId. cbv zeta.
    unfold insert_module.
    cbn [modules with_courses with_modules with_lessons courses lessons].
    rewrite (key_is_absent m_id moduleId (modules d) Hm).
    rewrite Hlessons, insert_lessons_cons. rewrite Hkeep.
    unfold insert_lesson at 1.
    cbn [modules with_courses with_modules with_lessons courses lessons].
    rewrite (key_is_absent l_id (lb_id l1) (lessons d) Hl).
    rewrite insert_lessons_cons, Hid2, Hkeep.
    unfold insert_lesson.
    cbn [modules with_courses with_modules with_lessons courses lessons].
    rewrite existsb_app. cbn [existsb l_id].
    rewrite String.eqb_refl, orb_true_r.
    eexists _, _, _. split; [reflexivity|]. repeat split. }
  destruct Hrun as [c [m [l [Hrun [Hcid [Hmid Hlid]]]]]].
  rewrite Hrun. cbn [fst snd modules with_courses with_modules with_lessons courses lessons].
  rewrite !map_app. cbn [map]. rewrite Hcid, Hmid, Hlid. repeat split.
Qed.

Lemma post_courses_is_not_rolled_back_sample :
  snd (post_courses Strict Samples.clock Samples.same_lesson_twice Store.empty)
  = Thrown (SqliteError "SQLITE_CONSTRAINT_PRIMARYKEY") /\
  map c_id (courses (fst (post_courses Strict Samples.clock Samples.same_lesson_twice
                            Store.empty)))
  = ["c1700000000000"%string] /\
  map m_id (modules (fst (post_courses Strict Samples.clock Samples.same_lesson_twice
                            Store.empty)))
  = ["m1767225600000"%string] /\
  map l_id (lessons (fst (post_courses Strict Samples.clock Samples.same_lesson_twice
                            Store.empty)))
  = ["l1767225600123"%string].
Proof.
  refine (post_courses_is_not_rolled_back Strict Samples.clock Samples.same_lesson_twice
            Store.empty _ [] _ _ [] eq_refl eq_refl eq_refl eq_refl _ _ _);
    simpl; tauto.
Defined.

End CatalogueWrites.

(** ** The schema constraints as an invariant *)

Section Invariant.
Import Store Sql Server Startup JS.
Local Open Scope nat_scope.

Lemma keeps_foldM {A S} (P : database -> Prop) (f : S -> A -> handler S) (l : list A) :
  (forall s x, keeps P (f s x)) -> forall s, keeps P (foldM f l s).
Proof.
  intros Hf. induction l as [|x rest IH]; intros s; simpl.
  - apply keeps_ret.
  - apply keeps_bind; [apply Hf | exact IH].
Qed.

(** *** Each handler keeps what its statements keep *)

Lemma post_courses_keeps (P : database -> Prop) (policy : arity_policy)
  (env : environment) (body : course_body) :
  (forall now id title description image_url,
     statement_keeps P (insert_course now id title description image_url)) ->
  (forall id course_id title, statement_keeps P (insert_module id course_id title)) ->
  (forall id module_id title concept example guided independent language,
     statement_keeps P
       (insert_lesson id module_id title concept example guided independent language)) ->
  keeps P (post_courses policy env body).
Proof.
  intros Hcourse Hmodule Hlesson. unfold post_courses.
  apply keeps_bind; [apply keeps_run; apply Hcourse|]. intros _.
  apply keeps_bind; [|intros; apply keeps_ret].
  unfold insert_modules. apply keeps_foldM. intros k mod_.
  apply keeps_bind; [apply keeps_run; apply Hmodule|]. intros _.
  unfold insert_lessons. apply keeps_foldM. intros k' lesson.
  apply keeps_bind; [apply keeps_run; apply Hlesson | intros; apply keeps_ret].
Qed.

Lemma post_progress_keeps (P : database -> Prop) (policy : arity_policy)
  (env : environment) (body : progress_body) :
  (forall now status lesson_id step_id,
     statement_keeps P (update_step_progress_where_pair now status lesson_id step_id)) ->
  (forall now lesson_id step_id status,
     statement_keeps P (insert_step_progress now lesson_id step_id status)) ->
  keeps P (post_progress policy env body).
Proof.
  intros Hupdate Hinsert. unfold post_progress.
  apply keeps_bind; [apply keeps_query|]. intros [found|].
  - apply keeps_bind; [apply keeps_run; apply Hupdate | intros; apply keeps_ret].
  - apply keeps_bind; [apply keeps_run; apply Hinsert | intros; apply keeps_ret].
Qed.

Lemma get_settings_keeps (P : database -> Prop) (policy : arity_policy) :
  statement_keeps P insert_settings_id_1 ->
  keeps P (get_settings policy).
Proof.
  intros Hinsert. unfold get_settings.
  apply keeps_bind; [apply keeps_query|]. intros [row|].
  - apply keeps_ret.
  - apply keeps_bind; [apply keeps_run; apply Hinsert | intros; apply keeps_query].
Qed.

Lemma post_settings_keeps (P : database -> Prop) (policy : arity_policy)
  (body : settings_body) :
  (forall theme voice_enabled,
     statement_keeps P (update_settings_where_id_1 theme voice_enabled)) ->
  keeps P (post_settings policy body).
Proof.
  intros Hupdate. unfold post_settings.
  apply keeps_bind; [apply keeps_run; apply Hupdate | intros; apply keeps_ret].
Qed.

(** *** What each statement keeps *)

Lemma appended_key_is_distinct {A} (key : A -> string) (row : A) (table : list A) :
  NoDup (map key table) ->
  existsb (fun x => String.eqb (key x) (key row)) table = false ->
  NoDup (map key (table ++ [row])).
Proof.
  intros Hdistinct Hnew. rewrite map_app. apply NoDup_app; [exact Hdistinct | |].
  - simpl. constructor; [intros [] | constructor].
  - intros a Ha [Heq|[]]. subst a. exact (key_is_new key (key row) table Hnew Ha).
Qed.

Lemma largest_id_bounds (ids : list Z) (id : Z) :
  In id ids -> (id <= fold_right Z.max 0 ids)%Z.
Proof.
  induction ids as [|x rest IH]; simpl; [intros []|].
  intros [->|Hin]; [lia|]. specialize (IH Hin). lia.
Qed.

Lemma next_progress_id_is_new (d : database) :
  ~ In (next_progress_id d) (map p_id (step_progress d)).
Proof.
  unfold next_progress_id. intros Hin. apply largest_id_bounds in Hin. lia.
Qed.

Lemma unmatched_pair_is_new (lesson_id step_id : string) (T : list progress_row) :
  existsb (pair_matches (Some lesson_id) (Some step_id)) T = false ->
  ~ In (lesson_id, step_id) (map pair_of T).
Proof.
  intros Hnone Hin. apply in_map_iff in Hin. destruct Hin as [r [Hpair Hr]].
  assert (Hsome : existsb (pair_matches (Some lesson_id) (Some step_id)) T = true).
  { apply existsb_exists. exists r. split; [exact Hr|]. now apply pair_matches_iff. }
  congruence.
Qed.

Lemma overwrite_keeps_id (now status lesson_id step_id : string) (r : progress_row) :
  p_id (overwrite now status lesson_id step_id r) = p_id r.
Proof. unfold overwrite. destruct (pair_matches _ _ r); reflexivity. Qed.

Lemma insert_course_well_keyed (now id title description image_url : string) :
  statement_keeps well_keyed (insert_course now id title description image_url).
Proof.
  intros d d' [Hseeded [[Hc [Hm [Hl [Hp Hu]]]] Hsettings]] Hrun.
  unfold insert_course in Hrun.
  destruct (existsb _ (courses d)) eqn:Hnew; [discriminate|].
  inversion Hrun; subst d'; clear Hrun.
  split; [|split; [repeat split|]]; simpl; try assumption.
  - intros Hnil. now apply app_eq_nil in Hnil.
  - now apply (appended_key_is_distinct c_id).
Qed.

Lemma insert_module_well_keyed (id course_id title : string) :
  statement_keeps well_keyed (insert_module id course_id title).
Proof.
  intros d d' [Hseeded [[Hc [Hm [Hl [Hp Hu]]]] Hsettings]] Hrun.
  unfold insert_module in Hrun.
  destruct (existsb _ (modules d)) eqn:Hnew; [discriminate|].
  inversion Hrun; subst d'; clear Hrun.
  split; [|split; [repeat split|]]; simpl; try assumption.
  now apply (appended_key_is_distinct m_id).
Qed.

Lemma insert_lesson_well_keyed
  (id module_id title concept example guided independent language : string) :
  statement_keeps well_keyed
    (insert_lesson id module_id title concept example guided independent language).
Proof.
  intros d d' [Hseeded [[Hc [Hm [Hl [Hp Hu]]]] Hsettings]] Hrun.
  unfold insert_lesson in Hrun.
  destruct (existsb _ (lessons d)) eqn:Hnew; [discriminate|].
  inversion Hrun; subst d'; clear Hrun.
  split; [|split; [repeat split|]]; simpl; try assumption.
  now apply (appended_key_is_distinct l_id).
Qed.

Lemma update_step_progress_well_keyed (now status lesson_id step_id : string) :
  statement_keeps well_keyed
    (update_step_progress_where_pair now status lesson_id step_id).
Proof.
  intros d d' [Hseeded [[Hc [Hm [Hl [Hp Hu]]]] Hsettings]] Hrun.
  unfold update_step_progress_where_pair in Hrun.
  inversion Hrun; subst d'; clear Hrun.
  split; [|split; [repeat split|]]; simpl; try assumption.
  - rewrite map_map.
    rewrite (map_ext _ p_id (overwrite_keeps_id now status lesson_id step_id)).
    exact Hp.
  - rewrite map_map.
    rewrite (map_ext _ pair_of (overwrite_keeps_pair now status lesson_id step_id)).
    exact Hu.
Qed.

Lemma insert_step_progress_well_keyed (now lesson_id step_id status : string) :
  statement_keeps well_keyed (insert_step_progress now lesson_id step_id status).
Proof.
  intros d d' [Hseeded [[Hc [Hm [Hl [Hp Hu]]]] Hsettings]] Hrun.
  unfold insert_step_progress in Hrun.
  destruct (existsb _ (step_progress d)) eqn:Hnew; [discriminate|].
  inversion Hrun; subst d'; clear Hrun.
  split; [|split; [repeat split|]]; simpl; try assumption.
  - rewrite map_app. apply NoDup_app; [exact Hp | |].
    + simpl. constructor; [intros [] | constructor].
    + intros a Ha [Heq|[]]. subst a. exact (next_progress_id_is_new d Ha).
  - rewrite map_app. apply NoDup_app; [exact Hu | |].
    + simpl. constructor; [intros [] | constructor].
    + intros a Ha [Heq|[]]. subst a.
      exact (unmatched_pair_is_new lesson_id step_id _ Hnew Ha).
Qed.

Lemma insert_settings_well_keyed : statement_keeps well_keyed insert_settings_id_1.
Proof.
  intros d d' [Hseeded [Hkeys Hsettings]] Hrun.
  unfold insert_settings_id_1 in Hrun.
  destruct (existsb _ (settings d)) eqn:Hnew; [discriminate|].
  inversion Hrun; subst d'; clear Hrun.
  split; [|split]; simpl; try assumption.
  destruct Hsettings as [Hnone | [theme [voice [Hone _]]]].
  - right. exists "dark"%string, 1%Z. rewrite Hnone. split; [reflexivity | now right].
  - rewrite Hone in Hnew. discriminate.
Qed.

Lemma update_settings_well_keyed (theme : string) (flag : bool) :
  statement_keeps well_keyed
    (update_settings_where_id_1 theme (if flag then 1 else 0)%Z).
Proof.
  intros d d' [Hseeded [Hkeys Hsettings]] Hrun.
  unfold update_settings_where_id_1 in Hrun.
  inversion Hrun; subst d'; clear Hrun.
  split; [|split]; simpl; try assumption.
  destruct Hsettings as [Hnone | [theme0 [voice0 [Hone _]]]].
  - left. now rewrite Hnone.
  - right. exists theme, (if flag then 1 else 0)%Z. rewrite Hone. simpl.
    split; [reflexivity | destruct flag; auto].
Qed.

(** The statements on [step_progress] and [settings] leave the catalogue as
    it is. *)
Lemma update_step_progress_references (now status lesson_id step_id : string) :
  statement_keeps references_resolve
    (update_step_progress_where_pair now status lesson_id step_id).
Proof. intros d d' H Hrun. inversion Hrun; subst d'. exact H. Qed.

Lemma insert_step_progress_references (now lesson_id step_id status : string) :
  statement_keeps references_resolve
    (insert_step_progress now lesson_id step_id status).
Proof.
  intros d d' H Hrun. unfold insert_step_progress in Hrun.
  destruct (existsb _ (step_progress d)); [discriminate|].
  inversion Hrun; subst d'. exact H.
Qed.

Lemma insert_settings_references : statement_keeps references_resolve insert_settings_id_1.
Proof.
  intros d d' H Hrun. unfold insert_settings_id_1 in Hrun.
  destruct (existsb _ (settings d)); [discriminate|].
  inversion Hrun; subst d'. exact H.
Qed.

Lemma update_settings_references (theme : string) (voice_enabled : Z) :
  statement_keeps references_resolve (update_settings_where_id_1 theme voice_enabled).
Proof. intros d d' H Hrun. inversion Hrun; subst d'. exact H. Qed.

(** *** Seeding *)

(** With a course in the table the seeding block does nothing. *)
Lemma seed_skips (policy : arity_policy) (now : string) (d : database) :
  courses d <> [] -> seed policy now d = (d, Returned tt).
Proof.
  intros Hseeded. unfold seed, bind. rewrite query_exact. unfold count_courses.
  destruct (courses d); [contradiction | reflexivity].
Qed.

Lemma bind_establishes {A B} (P : database -> Prop) (m : handler A)
  (k : A -> handler B) :
  (forall d, P (fst (m d))) -> (forall a, keeps P (k a)) ->
  forall d, P (fst (bind m k d)).
Proof.
  intros Hm Hk d. unfold bind. specialize (Hm d).
  destruct (m d) as [d1 [a|e]]; simpl in *; [now apply Hk | exact Hm].
Qed.

Lemma forM__establishes {A} (P : database -> Prop) (x : A) (rest : list A)
  (f : A -> handler unit) :
  (forall d, P (fst (f x d))) -> (forall y, In y rest -> keeps P (f y)) ->
  forall d, P (fst (forM_ (x :: rest) f d)).
Proof.
  intros Hx Hrest. simpl. apply bind_establishes; [exact Hx|].
  intros _. now apply keeps_forM_.
Qed.

Lemma seed_module_keeps_courses (policy : arity_policy) (course : course_body)
  (mod_ : module_body) :
  keeps (fun d => courses d <> []) (seed_module policy course mod_).
Proof.
  unfold seed_module. apply keeps_bind.
  - apply keeps_run. intros d1 d2 H1 Hrun. unfold insert_module in Hrun.
    destruct (existsb _ (modules d1)); [discriminate|]. inversion Hrun. exact H1.
  - intros _. apply keeps_forM_. intros lesson _. unfold seed_lesson.
    apply keeps_run. intros d1 d2 H1 Hrun. unfold insert_lesson in Hrun.
    destruct (existsb _ (lessons d1)); [discriminate|]. inversion Hrun. exact H1.
Qed.

(** After the [INSERT INTO courses] of one seed course the table is not
    empty: the insert fails only on a row that is there. *)
Lemma seed_course_leaves_a_course (policy : arity_policy) (now : string)
  (course : course_body) (d : database) :
  courses (fst (seed_course policy now course d)) <> [].
Proof.
  unfold seed_course. apply bind_establishes.
  - intros d0. rewrite run_exact. unfold insert_course.
    destruct (existsb _ (courses d0)) eqn:Hthere; simpl.
    + destruct (courses d0); [discriminate Hthere | discriminate].
    + intros Hnil. now apply app_eq_nil in Hnil.
  - intros _. apply keeps_forM_. intros mod_ _. apply seed_module_keeps_courses.
Qed.

(** Once the first [INSERT INTO courses] has run the table is not empty,
    whatever happens to the rest of the block. *)
Lemma seed_inserts_a_course (policy : arity_policy) (now : string) (d : database) :
  courses (fst (seed policy now d)) <> [].
Proof.
  destruct (courses d) as [|c rest] eqn:Hcourses.
  - unfold seed, bind at 1. rewrite query_exact. unfold count_courses.
    rewrite Hcourses. cbn [length Nat.eqb].
    unfold seed_courses.
    apply (forM__establishes (fun d => courses d <> [])).
    + apply seed_course_leaves_a_course.
    + intros course _ d1 _. apply seed_course_leaves_a_course.
  - rewrite seed_skips; simpl; rewrite Hcourses; discriminate.
Qed.

End Invariant.

Section Reachable.
Import Store Sql Server Startup JS.
Local Open Scope nat_scope.

(** On a new database file the seeding block runs to its end, and leaves
    two courses, three modules and three lessons that satisfy the
    constraints of the schema. *)
Lemma seed_of_new_file (policy : arity_policy) (now : string) :
  snd (seed policy now Store.empty) = Returned tt /\
  consistent (fst (seed policy now Store.empty)).
Proof.
  assert (Hsame : seed policy now Store.empty = seed Strict now Store.empty).
  { destruct policy; [reflexivity | vm_compute; reflexivity]. }
  rewrite Hsame. clear Hsame.
  let x := eval vm_compute in (seed Strict now Store.empty) in
  change (seed Strict now Store.empty) with x.
  split; [reflexivity|].
  unfold consistent, well_keyed, keys_unique, references_resolve, settings_singleton.
  cbn [fst courses modules lessons step_progress settings map
       c_id m_id l_id p_id m_course_id l_module_id].
  repeat split.
  - discriminate.
  - repeat constructor; simpl; intuition discriminate.
  - repeat constructor; simpl; intuition discriminate.
  - repeat constructor; simpl; intuition discriminate.
  - constructor.
  - constructor.
  - now left.
  - intros m [<-|[<-|[<-|[]]]]; simpl; auto.
  - intros l [<-|[<-|[<-|[]]]]; simpl; auto.
Qed.

(** Every route keeps the key constraints and the settings row. *)
Lemma after_well_keyed (policy : arity_policy) (r : request) (d : database) :
  well_keyed d -> well_keyed (after policy r d).
Proof.
  intros H. destruct r as [|env body| |env body| |body]; simpl.
  - now rewrite get_courses_eq.
  - revert d H. apply post_courses_keeps.
    + apply insert_course_well_keyed.
    + apply insert_module_well_keyed.
    + apply insert_lesson_well_keyed.
  - revert d H. exact (keeps_query _ policy 0 0 select_step_progress).
  - revert d H. apply post_progress_keeps.
    + apply update_step_progress_well_keyed.
    + apply insert_step_progress_well_keyed.
  - revert d H. apply get_settings_keeps. apply insert_settings_well_keyed.
  - revert d H.
    change (keeps well_keyed (post_settings policy body)). unfold post_settings.
    apply keeps_bind; [|intros; apply keeps_ret].
    apply keeps_run. apply update_settings_well_keyed.
Qed.

(** Every route keeps the two references resolved. *)
Lemma after_references (policy : arity_policy) (r : request) (d : database) :
  references_resolve d -> references_resolve (after policy r d).
Proof.
  intros H. destruct r as [|env body| |env body| |body]; simpl.
  - now rewrite get_courses_eq.
  - now apply post_courses_keeps_references.
  - revert d H. exact (keeps_query _ policy 0 0 select_step_progress).
  - revert d H. apply post_progress_keeps.
    + apply update_step_progress_references.
    + apply insert_step_progress_references.
  - revert d H. apply get_settings_keeps. apply insert_settings_references.
  - revert d H. apply (post_settings_keeps references_resolve policy body).
    apply update_settings_references.
Qed.

(** X4.  The constraints of the schema are an invariant of the server.  In
    every database the server can reach from a new file (seeding at the
    first start, then any sequence of requests to the six database routes
    and of restarts, with any request bodies, whether the requests succeed
    or throw half way) there is at least one course; course, module and
    lesson ids and progress ids are unique; [step_progress] holds one row
    per (lesson_id, step_id); every module row names an existing course and
    every lesson row an existing module, although no handler checks it; and
    [settings] is empty or holds the one row with id 1, with a voice flag
    of 0 or 1. *)
Theorem reachable_is_consistent (policy : arity_policy) (d : database) :
  reachable policy d -> consistent d.
Proof.
  intros Hreach. induction Hreach as [now | now d Hreach IH | r d Hreach IH].
  - apply seed_of_new_file.
  - destruct IH as [[Hseeded Hrest] Hrefs].
    rewrite seed_skips by exact Hseeded. exact (conj (conj Hseeded Hrest) Hrefs).
  - destruct IH as [Hkeyed Hrefs]. split.
    + now apply after_well_keyed.
    + now apply after_references.
Qed.

Lemma reachable_is_consistent_sample :
  consistent
    (after Strict (POST_courses Samples.clock Samples.same_lesson_twice)
       (after Strict GET_settings
          (fst (seed Strict "2026-01-01 00:00:00" Store.empty)))).
Proof.
  apply (reachable_is_consistent Strict).
  apply served. apply served. apply first_start.
Defined.

(** X5.  Seeding happens at most once per database file.  Whatever the
    tables hold, after the seeding block there is a course row, also when
    the block threw half way; from then on the block does nothing, so that a
    seeding that failed is never completed.  On a new file it runs to its
    end and inserts the courses [c1] and [c2], the modules [m1], [m2], [m3]
    and the lessons [l1], [l2], [l3]; with a course in the table it writes
    nothing. *)
Theorem seed_runs_once (policy : arity_policy) (now later : string) (d : database) :
  let seeded := fst (seed policy now d) in
  courses seeded <> [] /\
  seed policy later seeded = (seeded, Returned tt) /\
  (courses d <> [] -> seed policy now d = (d, Returned tt)) /\
  (d = Store.empty ->
   snd (seed policy now d) = Returned tt /\
   map c_id (courses seeded) = ["c1"; "c2"]%string /\
   map m_id (modules seeded) = ["m1"; "m2"; "m3"]%string /\
   map l_id (lessons seeded) = ["l1"; "l2"; "l3"]%string /\
   step_progress seeded = [] /\ settings seeded = []).
Proof.
  simpl. split; [apply seed_inserts_a_course|].
  split; [apply seed_skips, seed_inserts_a_course|].
  split; [apply seed_skips|].
  intros ->.
  assert (Hsame : seed policy now Store.empty = seed Strict now Store.empty).
  { destruct policy; [reflexivity | vm_compute; reflexivity]. }
  rewrite Hsame.
  let x := eval vm_compute in (seed Strict now Store.empty) in
  change (seed Strict now Store.empty) with x.
  repeat split.
Qed.

End Reachable.

(** ** Settings, once the row exists *)

Section SettingsRoundTrip.
Import Store Sql Server Startup JS.
Local Open Scope nat_scope.

Lemma find_none_existsb {A} (f : A -> bool) (l : list A) :
  find f l = None -> existsb f l = false.
Proof.
  induction l as [|x rest IH]; simpl; [reflexivity|].
  destruct (f x); [discriminate | exact IH].
Qed.

Lemma find_after_append {A} (f : A -> bool) (l : list A) (x : A) :
  find f l = None -> find f (l ++ [x]) = find f [x].
Proof.
  induction l as [|y rest IH]; simpl; [reflexivity|].
  destruct (f y); [discriminate | exact IH].
Qed.

(** [GET /api/settings] returns the row with id 1 from every table, and
    leaves a table in which the lookup finds that row. *)
Lemma get_settings_finds (policy : arity_policy) (d : database) :
  exists row,
    get_settings policy d
    = (match select_settings_where_id_1 d with
       | Some _ => d
       | None => with_settings d (settings d ++ [Samples.default_settings])
       end, Returned (Some row)) /\
    s_id row = 1%Z /\
    select_settings_where_id_1
      (match select_settings_where_id_1 d with
       | Some _ => d
       | None => with_settings d (settings d ++ [Samples.default_settings])
       end) = Some row.
Proof.
  unfold get_settings, bind. rewrite query_exact.
  destruct (select_settings_where_id_1 d) as [row|] eqn:Hfound.
  - exists row. split; [reflexivity|]. split; [|exact Hfound].
    unfold select_settings_where_id_1 in Hfound.
    apply find_some in Hfound. now apply Z.eqb_eq.
  - exists Samples.default_settings.
    rewrite run_exact. unfold insert_settings_id_1.
    unfold select_settings_where_id_1 in Hfound.
    rewrite (find_none_existsb _ _ Hfound). rewrite query_exact.
    unfold select_settings_where_id_1. simpl.
    rewrite !(find_after_append _ _ _ Hfound). simpl.
    repeat split.
Qed.

Lemma find_updated (theme : string) (voice_enabled : Z) (rows : list settings_row)
  (row : settings_row) :
  find (fun r => Z.eqb (s_id r) 1) rows = Some row ->
  find (fun r => Z.eqb (s_id r) 1)
       (map (fun r =>
               if Z.eqb (s_id r) 1
               then {| s_id := s_id r; s_theme := theme;
                       s_voice_enabled := voice_enabled |}
               else r) rows)
  = Some {| s_id := 1; s_theme := theme; s_voice_enabled := voice_enabled |}.
Proof.
  induction rows as [|r rest IH]; simpl; [discriminate|].
  destruct (Z.eqb (s_id r) 1) eqn:Hid; simpl.
  - intros _. rewrite Hid. apply Z.eqb_eq in Hid. now rewrite Hid.
  - rewrite Hid. exact IH.
Qed.

(** X6.  Settings round trip.  From every database, [GET /api/settings]
    returns a row with id 1 (it never answers null and never throws), and
    asking again returns the same row and writes nothing.  After that GET, a
    [POST /api/settings] succeeds, and the next GET returns the posted theme
    with voice_enabled 1 when the posted flag is true and 0 otherwise. *)
Theorem settings_round_trip (policy : arity_policy) (body : settings_body)
  (d : database) :
  exists row d1 d2,
    get_settings policy d = (d1, Returned (Some row)) /\
    s_id row = 1%Z /\
    get_settings policy d1 = (d1, Returned (Some row)) /\
    post_settings policy body d1 = (d2, Returned Success) /\
    get_settings policy d2
    = (d2, Returned (Some {| s_id := 1; s_theme := sb_theme body;
                             s_voice_enabled :=
                               if sb_voice_enabled body then 1%Z else 0%Z |})).
Proof.
  destruct (get_settings_finds policy d) as [row [Hget [Hid Hfound]]].
  set (d1 := match select_settings_where_id_1 d with
             | Some _ => d
             | None => with_settings d (settings d ++ [Samples.default_settings])
             end) in *.
  exists row, d1.
  eexists. split; [exact Hget|]. split; [exact Hid|].
  assert (Hagain : forall d0 r, select_settings_where_id_1 d0 = Some r ->
                     get_settings policy d0 = (d0, Returned (Some r))).
  { intros d0 r Hr. unfold get_settings, bind. rewrite query_exact, Hr. reflexivity. }
  split; [now apply Hagain|].
  unfold post_settings, bind. rewrite run_exact.
  unfold update_settings_where_id_1. split; [reflexivity|].
  apply Hagain. unfold select_settings_where_id_1. simpl.
  now apply (find_updated _ _ _ row).
Qed.

End SettingsRoundTrip.

(** ** The chat proxy *)

Section ChatProxy.
Import JS ModalChat.
Local Open Scope string_scope.

Variable Messages Json : Type.

Lemma not_ok_is_not_200 (r : upstream_response Json) :
  ok Json r = false -> status Json r <> 200%Z.
Proof.
  unfold ok. intros Hbad Hstatus. rewrite Hstatus in Hbad. discriminate.
Qed.

(** X7.  [POST /api/modal-chat] makes at most one upstream call, and none
    when [MODAL_API_KEY] is unset or empty; the call is a POST that carries
    the key as bearer token, the messages of the request unchanged, and
    max_tokens 500.  The reply has status 200 exactly when the key is set,
    the upstream answered with an ok status and its body parsed, and the
    reply is then that body; in every other case the reply is an error
    object.  [console.error] is called exactly when an upstream call was made
    and the reply is not 200. *)
Theorem modal_chat_replies (modalApiKey : string) (messages : Messages)
  (fetch : upstream_request Messages -> fetched Json) :
  let h := modal_chat Messages Json modalApiKey messages fetch in
  (calls _ _ h = [] <-> truthy modalApiKey = false) /\
  (length (calls _ _ h) <= 1)%nat /\
  Forall (fun c => method _ c = "POST" /\
                   authorization _ c = "Bearer " ++ modalApiKey /\
                   body_messages _ c = messages /\
                   body_max_tokens _ c = 500%Z) (calls _ _ h) /\
  (reply_status _ (answer _ _ h) = 200%Z <->
   exists call r data,
     truthy modalApiKey = true /\ calls _ _ h = [call] /\
     fetch call = Answered _ r /\ ok _ r = true /\ json _ r = Some data /\
     reply_json _ (answer _ _ h) = Data _ data) /\
  (reply_status _ (answer _ _ h) <> 200%Z ->
   exists message details, reply_json _ (answer _ _ h) = Error _ message details) /\
  (errors_logged _ _ h = 1%nat <->
   calls _ _ h <> [] /\ reply_status _ (answer _ _ h) <> 200%Z) /\
  (errors_logged _ _ h <= 1)%nat.
Proof.
  unfold modal_chat.
  destruct (truthy modalApiKey) eqn:Hkey; simpl.
  - match goal with
    | |- context [fetch ?c] => set (sent := c)
    end.
    assert (Hshape : Forall (fun c => method _ c = "POST" /\
                   authorization _ c = "Bearer " ++ modalApiKey /\
                   body_messages _ c = messages /\
                   body_max_tokens _ c = 500%Z) [sent])
      by (repeat constructor).
    destruct (fetch sent) as [|r] eqn:Hfetch; simpl.
    + split; [split; intros; discriminate|]. split; [lia|]. split; [exact Hshape|].
      split; [split; [intros; discriminate|]|].
      { intros [call [r [data [_ [Hcall [Hr _]]]]]].
        inversion Hcall; subst call. congruence. }
      split; [eauto|]. split; [|lia].
      split; [intros _; split; discriminate | reflexivity].
    + destruct (ok Json r) eqn:Hok; simpl.
      * destruct (json Json r) as [data|] eqn:Hjson; simpl.
        -- split; [split; intros; discriminate|]. split; [lia|]. split; [exact Hshape|].
           split; [split|].
           { intros _. exists sent, r, data. repeat split; assumption. }
           { reflexivity. }
           split; [intros H; now contradiction H|]. split; [|lia].
           split; [intros; discriminate | intros [_ H]; now contradiction H].
        -- split; [split; intros; discriminate|]. split; [lia|]. split; [exact Hshape|].
           split; [split; [intros; discriminate|]|].
           { intros [call [r' [data [_ [Hcall [Hr [_ [Hdata _]]]]]]]].
             inversion Hcall; subst call. congruence. }
           split; [eauto|]. split; [|lia].
           split; [intros _; split; discriminate | reflexivity].
      * pose proof (not_ok_is_not_200 r Hok) as Hstatus.
        destruct (text Json r) as [errorText|] eqn:Htext; simpl.
        -- split; [split; intros; discriminate|]. split; [lia|]. split; [exact Hshape|].
           split; [split; [intros H; now contradiction Hstatus|]|].
           { intros [call [r' [data [_ [Hcall [Hr [Hok' _]]]]]]].
             inversion Hcall; subst call. congruence. }
           split; [eauto|]. split; [|lia].
           split; [intros _; split; [discriminate | exact Hstatus] | reflexivity].
        -- split; [split; intros; discriminate|]. split; [lia|]. split; [exact Hshape|].
           split; [split; [intros; discriminate|]|].
           { intros [call [r' [data [_ [Hcall [Hr [Hok' _]]]]]]].
             inversion Hcall; subst call. congruence. }
           split; [eauto|]. split; [|lia].
           split; [intros _; split; discriminate | reflexivity].
  - split; [split; reflexivity|]. split; [lia|]. split; [constructor|].
    split; [split; [intros; discriminate|]|].
    { intros [call [r [data [H _]]]]. discriminate. }
    split; [eauto|]. split; [|lia].
    split; [intros; discriminate | intros [H _]; now contradiction H].
Qed.

End ChatProxy.

(* ================================================================= *)
(** * Part IV: the client *)
(* ================================================================= *)

(** ** The sidebar and the course percentage *)

Section SidebarFacts.
Import Store Sql Server Sidebar.
Local Open Scope nat_scope.

Lemma completed_steps_of_spec (T : list progress_row) (lessonId : string)
  (r : progress_row) :
  In r (completed_steps_of T lessonId) <->
  In r T /\ p_lesson_id r = lessonId /\ p_status r = "completed"%string.
Proof.
  unfold completed_steps_of. rewrite !filter_In, !String.eqb_eq. tauto.
Qed.

(** The step ids of the counted rows of a lesson are distinct when the
    table has one row per pair. *)
Lemma completed_steps_distinct (T : list progress_row) (lessonId : string) :
  NoDup (map pair_of T) ->
  NoDup (map p_step_id (completed_steps_of T lessonId)).
Proof.
  intros Hdistinct. unfold completed_steps_of.
  induction T as [|r rest IH]; simpl; [constructor|].
  apply NoDup_cons_iff in Hdistinct. destruct Hdistinct as [Hnew Hrest].
  specialize (IH Hrest).
  destruct (String.eqb (p_lesson_id r) lessonId) eqn:Hlesson; simpl; [|exact IH].
  destruct (String.eqb (p_status r) "completed"); simpl; [|exact IH].
  constructor; [|exact IH].
  intros Hin. apply in_map_iff in Hin. destruct Hin as [r' [Hstep Hr']].
  apply Hnew. apply in_map_iff. exists r'.
  rewrite !filter_In, !String.eqb_eq in Hr'. destruct Hr' as [[Hin' Hl'] _].
  apply String.eqb_eq in Hlesson.
  split; [|exact Hin']. unfold pair_of. congruence.
Qed.

(** X8.  With one row per (lesson_id, step_id) and every completed row of
    the lesson carrying one of the five stages, the sidebar shows a lesson as
    completed exactly when each of the five stages has a completed row for
    it, and as not started exactly when it has no completed row. *)
Theorem getLessonStatus_completed_iff (T : list progress_row) (lessonId : string) :
  NoDup (map pair_of T) ->
  (forall r, In r T -> p_lesson_id r = lessonId -> p_status r = "completed"%string ->
             In (p_step_id r) lesson_steps) ->
  (getLessonStatus T lessonId = status_completed <->
   forall step, In step lesson_steps ->
     exists r, In r T /\ p_lesson_id r = lessonId /\ p_step_id r = step /\
               p_status r = "completed"%string) /\
  (getLessonStatus T lessonId = status_not_started <->
   forall r, In r T -> p_lesson_id r = lessonId -> p_status r <> "completed"%string).
Proof.
  intros Hdistinct Hstages.
  pose proof (completed_steps_distinct T lessonId Hdistinct) as Hnodup.
  assert (Hincl : incl (map p_step_id (completed_steps_of T lessonId)) lesson_steps).
  { intros s Hs. apply in_map_iff in Hs. destruct Hs as [r [<- Hr]].
    apply completed_steps_of_spec in Hr. destruct Hr as [Hin [Hl Hc]].
    now apply Hstages. }
  assert (Hstatus : getLessonStatus T lessonId
                    = if Nat.eqb (length (map p_step_id (completed_steps_of T lessonId))) 5
                      then status_completed
                      else if Nat.ltb 0 (length (map p_step_id (completed_steps_of T lessonId)))
                           then status_in_progress else status_not_started).
  { rewrite length_map. reflexivity. }
  rewrite Hstatus. clear Hstatus.
  set (ids := map p_step_id (completed_steps_of T lessonId)) in *.
  split; split.
  - intros Hfive step Hstep.
    destruct (Nat.eqb (length ids) 5) eqn:Hlen;
      [|destruct (Nat.ltb 0 (length ids)); discriminate].
    apply Nat.eqb_eq in Hlen.
    assert (Hback : incl lesson_steps ids).
    { apply NoDup_length_incl; [exact Hnodup | rewrite Hlen; simpl; lia | exact Hincl]. }
    specialize (Hback step Hstep). apply in_map_iff in Hback.
    destruct Hback as [r [Hr Hin]]. apply completed_steps_of_spec in Hin.
    exists r. tauto.
  - intros Hall.
    assert (Hback : incl lesson_steps ids).
    { intros step Hstep. destruct (Hall step Hstep) as [r [Hin [Hl [Hs Hc]]]].
      apply in_map_iff. exists r. split; [exact Hs|].
      apply completed_steps_of_spec. tauto. }
    assert (Hge : length lesson_steps <= length ids).
    { apply NoDup_incl_length; [|exact Hback].
      unfold lesson_steps. repeat constructor; simpl; intuition discriminate. }
    assert (Hle : length ids <= length lesson_steps)
      by (apply NoDup_incl_length; assumption).
    simpl in Hge, Hle.
    replace (length ids) with 5 by lia. reflexivity.
  - intros Hnone r Hin Hl Hc.
    assert (Hr : In (p_step_id r) ids).
    { apply in_map. apply completed_steps_of_spec. tauto. }
    destruct ids as [|i rest]; [destruct Hr|]. simpl in Hnone.
    destruct (Nat.eqb (length rest) 4); discriminate.
  - intros Hnone.
    destruct ids as [|i rest] eqn:Hids; [reflexivity|]. exfalso.
    assert (Hi : In i ids) by (rewrite Hids; now left).
    apply in_map_iff in Hi. destruct Hi as [r [_ Hr]].
    apply completed_steps_of_spec in Hr. destruct Hr as [Hin [Hl Hc]].
    exact (Hnone r Hin Hl Hc).
Qed.

Lemma getLessonStatus_completed_iff_sample :
  (getLessonStatus (Samples.first_completed 7) "l1" = status_completed <->
   forall step, In step lesson_steps ->
     exists r, In r (Samples.first_completed 7) /\ p_lesson_id r = "l1"%string /\
               p_step_id r = step /\ p_status r = "completed"%string) /\
  (getLessonStatus (Samples.first_completed 7) "l1" = status_not_started <->
   forall r, In r (Samples.first_completed 7) -> p_lesson_id r = "l1"%string ->
             p_status r <> "completed"%string).
Proof.
  apply (getLessonStatus_completed_iff (Samples.first_completed 7) "l1").
  - vm_compute. repeat (constructor; [simpl; intuition discriminate|]). constructor.
  - vm_compute. intros r H _ _.
    repeat (destruct H as [<-|H]; [simpl; tauto|]). destruct H.
Defined.

(** The rows counted for a list of lessons are the rows counted for its
    first lesson and those counted for the others. *)
Lemma completed_rows_cons (l : string) (L : list string) (T : list progress_row) :
  ~ In l L ->
  length (completed_rows (l :: L) T)
  = length (completed_steps_of T l) + length (completed_rows L T).
Proof.
  intros Hnew. unfold completed_rows, completed_steps_of, is_completed_for.
  induction T as [|r rest IH]; simpl in *; [reflexivity|].
  destruct (String.eqb (p_lesson_id r) l) eqn:Hl; simpl.
  - assert (Hother : existsb (String.eqb (p_lesson_id r)) L = false).
    { destruct (existsb (String.eqb (p_lesson_id r)) L) eqn:E; [|reflexivity].
      exfalso. apply Hnew. apply existsb_exists in E. destruct E as [x [Hx Heq]].
      apply String.eqb_eq in Hl, Heq. congruence. }
    rewrite Hother. simpl.
    destruct (String.eqb (p_status r) "completed"); simpl; rewrite IH; reflexivity.
  - destruct (existsb (String.eqb (p_lesson_id r)) L && String.eqb (p_status r) "completed");
      simpl; rewrite IH; lia.
Qed.

Lemma fl_respects (x y : Q) : (0 <= x)%Q -> (x == y)%Q -> (Binary64.fl x == Binary64.fl y)%Q.
Proof.
  intros Hx Hxy. apply Qle_antisym; apply fl_mono; lra.
Qed.

(** All of its steps completed is 100 percent, for every number of steps. *)
Lemma percentage_full (t : Z) : (0 < t)%Z -> percentage t t = 100%Z.
Proof.
  intros Ht. unfold percentage.
  destruct (0 <? t)%Z eqn:E; [|apply Z.ltb_ge in E; lia].
  unfold Binary64.js_mul, Binary64.js_div, Binary64.Math_round.
  assert (Hone : (inject_Z t / inject_Z t == 1)%Q).
  { apply Qmult_inv_r. intros H. apply (inject_Z_injective t 0) in H. lia. }
  assert (Hq : (Binary64.fl (inject_Z t / inject_Z t) == 1)%Q).
  { apply Qeq_trans with (Binary64.fl 1); [apply fl_respects; lra | exact fl_one]. }
  assert (Hp : (Binary64.fl (Binary64.fl (inject_Z t / inject_Z t) * inject_Z 100)
                == inject_Z 100)%Q).
  { apply Qeq_trans with (Binary64.fl (inject_Z 100)); [|exact fl_hundred].
    apply fl_respects.
    - rewrite Hq. vm_compute. discriminate.
    - rewrite Hq. ring. }
  rewrite Hp. reflexivity.
Qed.

(** X9.  The sidebar and the course percentage agree at both ends.  For a
    course whose lesson ids are distinct and which has at least one lesson:
    when the sidebar shows every lesson as completed, [GET /api/courses]
    gives the course progress 100, whatever the number of lessons; when it
    shows every lesson as not started, the progress is 0. *)
Theorem sidebar_agrees_with_progress (L : list string) (T : list progress_row) :
  NoDup L -> L <> [] ->
  ((forall l, In l L -> getLessonStatus T l = status_completed) ->
   progress L T = 100%Z) /\
  ((forall l, In l L -> getLessonStatus T l = status_not_started) ->
   progress L T = 0%Z).
Proof.
  intros Hdistinct Hlessons.
  assert (Hcount : forall n,
             (forall l, In l L -> length (completed_steps_of T l) = n) ->
             length (completed_rows L T) = n * length L).
  { intros n. clear Hlessons. induction L as [|l rest IH]; intros Hall.
    - simpl. unfold completed_rows, is_completed_for.
      rewrite filter_nothing; [simpl; lia | intros; reflexivity].
    - apply NoDup_cons_iff in Hdistinct. destruct Hdistinct as [Hnew Hrest].
      rewrite completed_rows_cons by exact Hnew.
      rewrite (Hall l) by now left.
      rewrite IH; [simpl; lia | exact Hrest | intros; apply Hall; now right]. }
  assert (Hlen : 0 < length L) by (destruct L; [contradiction | simpl; lia]).
  split; intros Hall.
  - unfold progress.
    destruct (Nat.ltb 0 (length L)) eqn:E; [|apply Nat.ltb_ge in E; lia].
    rewrite (Hcount 5).
    + replace (Z.of_nat (5 * length L)) with (Z.of_nat (length L) * 5)%Z by lia.
      apply percentage_full. lia.
    + intros l Hl. specialize (Hall l Hl). unfold getLessonStatus in Hall.
      fold (completed_steps_of T l) in Hall.
      destruct (Nat.eqb (length (completed_steps_of T l)) 5) eqn:Hfive.
      * now apply Nat.eqb_eq.
      * destruct (Nat.ltb 0 (length (completed_steps_of T l))); discriminate.
  - unfold progress.
    destruct (Nat.ltb 0 (length L)); [|apply percentage_zero].
    rewrite (Hcount 0); [apply percentage_zero|].
    intros l Hl. specialize (Hall l Hl). unfold getLessonStatus in Hall.
    fold (completed_steps_of T l) in Hall.
    destruct (Nat.eqb (length (completed_steps_of T l)) 5) eqn:Hfive; [discriminate|].
    destruct (Nat.ltb 0 (length (completed_steps_of T l))) eqn:Hpos; [discriminate|].
    apply Nat.ltb_ge in Hpos. lia.
Qed.

Lemma sidebar_agrees_with_progress_sample :
  ((forall l, In l ["l1"%string] ->
      getLessonStatus (Samples.first_completed 5) l = status_completed) ->
   progress ["l1"%string] (Samples.first_completed 5) = 100%Z) /\
  ((forall l, In l ["l1"%string] ->
      getLessonStatus (Samples.first_completed 5) l = status_not_started) ->
   progress ["l1"%string] (Samples.first_completed 5) = 0%Z).
Proof.
  apply (sidebar_agrees_with_progress ["l1"%string] (Samples.first_completed 5)).
  - repeat constructor. simpl. tauto.
  - discriminate.
Defined.

End SidebarFacts.

(** ** The dashboard counters *)

Section DashboardFacts.
Import Store Sql Server Dashboard.
Local Open Scope nat_scope.

Lemma or_0_same (n : Z) : or_0 n = n.
Proof. unfold or_0. destruct (Z.eqb n 0) eqn:E; [apply Z.eqb_eq in E; now subst | reflexivity]. Qed.

(** X10.  The dashboard counters on what [GET /api/courses] returns.
    "Available Courses" is the number of course rows, and every course is
    in exactly one of four classes: offered with "Start Course" (progress 0),
    counted under "Active Learning", counted under "Completed Courses", or
    with a progress above 100, which no counter includes.  When the table has
    one row per (lesson_id, step_id) and all completed rows carry one of the
    five stages, the last class is empty and the three others add up to the
    number of courses. *)
Theorem dashboard_counters (policy : arity_policy) (d : database) :
  exists fetched,
    snd (get_courses policy d) = Returned fetched /\
    available_courses fetched = length (courses d) /\
    available_courses fetched
    = length (filter (fun c => String.eqb (button_label c) "Start Course") fetched)
      + active_learning fetched + completed_courses fetched
      + length (filter (fun c => (100 <? cj_progress c)%Z) fetched) /\
    (NoDup (map pair_of (step_progress d)) ->
     (forall r, In r (step_progress d) -> p_status r = "completed"%string ->
                In (p_step_id r) lesson_steps) ->
     available_courses fetched
     = length (filter (fun c => String.eqb (button_label c) "Start Course") fetched)
       + active_learning fetched + completed_courses fetched).
Proof.
  rewrite get_courses_eq. simpl.
  exists (map (course_view d) (courses d)).
  split; [reflexivity|].
  split; [unfold available_courses; now rewrite length_map|].
  assert (Hsplit : forall fetched : list course_json,
             Forall (fun c => (0 <= cj_progress c)%Z) fetched ->
             available_courses fetched
             = length (filter (fun c => String.eqb (button_label c) "Start Course") fetched)
               + active_learning fetched + completed_courses fetched
               + length (filter (fun c => (100 <? cj_progress c)%Z) fetched)).
  { intros fetched Hnonneg.
    unfold available_courses, active_learning, completed_courses, button_label.
    induction Hnonneg as [|c rest Hc _ IH]; simpl; [reflexivity|].
    rewrite or_0_same.
    destruct (0 <? cj_progress c)%Z eqn:Hpos; simpl.
    - apply Z.ltb_lt in Hpos.
      destruct (cj_progress c <? 100)%Z eqn:Hlt; simpl.
      + apply Z.ltb_lt in Hlt.
        destruct (cj_progress c =? 100)%Z eqn:Heq; [apply Z.eqb_eq in Heq; lia|].
        destruct (100 <? cj_progress c)%Z eqn:Hgt; [apply Z.ltb_lt in Hgt; lia|].
        simpl. lia.
      + apply Z.ltb_ge in Hlt.
        destruct (cj_progress c =? 100)%Z eqn:Heq; simpl.
        * apply Z.eqb_eq in Heq.
          destruct (100 <? cj_progress c)%Z eqn:Hgt; [apply Z.ltb_lt in Hgt; lia|].
          simpl. lia.
        * apply Z.eqb_neq in Heq.
          destruct (100 <? cj_progress c)%Z eqn:Hgt; [|apply Z.ltb_ge in Hgt; lia].
          simpl. lia.
    - apply Z.ltb_ge in Hpos.
      destruct (cj_progress c =? 100)%Z eqn:Heq; [apply Z.eqb_eq in Heq; lia|].
      destruct (100 <? cj_progress c)%Z eqn:Hgt; [apply Z.ltb_lt in Hgt; lia|].
      simpl. lia. }
  assert (Hnonneg : Forall (fun c => (0 <= cj_progress c)%Z)
                      (map (course_view d) (courses d))).
  { apply Forall_forall. intros c Hc. apply in_map_iff in Hc.
    destruct Hc as [row [<- _]]. simpl.
    unfold progress. apply percentage_nonneg.
    destruct (Nat.ltb 0 (length _)); lia. }
  split; [now apply Hsplit|].
  intros Hdistinct Hstages.
  rewrite (Hsplit _ Hnonneg).
  rewrite (filter_nothing (fun c => (100 <? cj_progress c)%Z)); [simpl; lia|].
  intros c Hc. apply in_map_iff in Hc. destruct Hc as [row [<- _]]. simpl.
  apply Z.ltb_ge. apply progress_le_100. apply completed_rows_bounded; [exact Hdistinct|].
  intros r Hr. unfold completed_rows in Hr. apply filter_In in Hr.
  destruct Hr as [Hin Hc]. unfold is_completed_for in Hc.
  apply andb_true_iff in Hc. destruct Hc as [_ Hc]. apply String.eqb_eq in Hc.
  now apply Hstages.
Qed.

End DashboardFacts.

(** ** Selecting a course and a lesson *)

Section SelectionFacts.
Import Store Sql Server App Catalogue.
Local Open Scope nat_scope.

Lemma findLesson_in_spec (course_modules : list module_json) (lessonId : string) :
  (forall found, findLesson_in course_modules lessonId = Some found ->
     l_id found = lessonId /\ In found (flat_map mj_lessons course_modules)) /\
  (findLesson_in course_modules lessonId = None ->
   forall l, In l (flat_map mj_lessons course_modules) -> l_id l <> lessonId).
Proof.
  induction course_modules as [|m rest [IHsome IHnone]]; simpl.
  - split; [discriminate | intros _ l []].
  - destruct (find _ (mj_lessons m)) as [hit|] eqn:Hfind.
    + split; [|discriminate].
      intros found Hfound. inversion Hfound; subst found.
      apply find_some in Hfind. destruct Hfind as [Hin Heq].
      apply String.eqb_eq in Heq. split; [exact Heq|]. apply in_or_app. now left.
    + split.
      * intros found Hfound. destruct (IHsome found Hfound) as [Hid Hin].
        split; [exact Hid|]. apply in_or_app. now right.
      * intros Hrest l Hl. apply in_app_or in Hl. destruct Hl as [Hl|Hl].
        -- pose proof (find_none _ _ Hfind l Hl) as Hneq.
           now apply String.eqb_neq in Hneq.
        -- now apply IHnone.
Qed.

Lemma findLesson_sound (courses : list course_json) (lessonId : string) :
  (forall found, findLesson courses lessonId = Some found ->
     l_id found = lessonId /\ In found (all_lessons courses)) /\
  (findLesson courses lessonId = None ->
   forall l, In l (all_lessons courses) -> l_id l <> lessonId).
Proof.
  induction courses as [|c rest [IHsome IHnone]]; simpl.
  - split; [discriminate | intros _ l []].
  - destruct (findLesson_in_spec (cj_modules c) lessonId) as [Hsome Hnone].
    destruct (findLesson_in (cj_modules c) lessonId) as [hit|].
    + split; [|discriminate].
      intros found Hfound. inversion Hfound; subst found.
      destruct (Hsome hit eq_refl) as [Hid Hin].
      split; [exact Hid|]. apply in_or_app. now left.
    + split.
      * intros found Hfound. destruct (IHsome found Hfound) as [Hid Hin].
        split; [exact Hid|]. apply in_or_app. now right.
      * intros Hrest l Hl. apply in_app_or in Hl. destruct Hl as [Hl|Hl].
        -- now apply Hnone.
        -- now apply IHnone.
Qed.

(** Two rows of a table with distinct keys that carry the same key are the
    same row. *)
Lemma same_key_same_row {A} (key : A -> string) (table : list A) (x y : A) :
  NoDup (map key table) -> In x table -> In y table -> key x = key y -> x = y.
Proof.
  induction table as [|z rest IH]; simpl; [intros _ []|].
  intros Hdistinct Hx Hy Hkey.
  apply NoDup_cons_iff in Hdistinct. destruct Hdistinct as [Hnew Hrest].
  destruct Hx as [Hx|Hx], Hy as [Hy|Hy]; subst.
  - reflexivity.
  - exfalso. apply Hnew. rewrite Hkey. now apply in_map.
  - exfalso. apply Hnew. rewrite <- Hkey. now apply in_map.
  - now apply IH.
Qed.

Lemma findLesson_of_distinct (courses : list course_json) :
  NoDup (map l_id (all_lessons courses)) ->
  forall l, In l (all_lessons courses) -> findLesson courses (l_id l) = Some l.
Proof.
  intros Hdistinct l Hl.
  destruct (findLesson_sound courses (l_id l)) as [Hsome Hnone].
  destruct (findLesson courses (l_id l)) as [found|] eqn:E.
  - destruct (Hsome found eq_refl) as [Hid Hin]. f_equal.
    now apply (same_key_same_row l_id (all_lessons courses)).
  - now destruct (Hnone eq_refl l Hl).
Qed.

Lemma find_in_app {A} (f : A -> bool) (l1 l2 : list A) :
  find f (l1 ++ l2) = match find f l1 with
                      | Some x => Some x
                      | None => find f l2
                      end.
Proof.
  induction l1 as [|x l1 IH]; simpl; [reflexivity|].
  destruct (f x); [reflexivity | exact IH].
Qed.

Lemma findLesson_in_is_find (course_modules : list module_json) (lessonId : string) :
  findLesson_in course_modules lessonId
  = find (fun l => String.eqb (l_id l) lessonId) (flat_map mj_lessons course_modules).
Proof.
  induction course_modules as [|m rest IH]; simpl; [reflexivity|].
  rewrite find_in_app, IH. reflexivity.
Qed.

(** X11.  [findLesson] returns the first lesson with the given id, in the
    order courses, modules, lessons: a lesson it returns has that id and
    belongs to a fetched course; it returns null exactly when no fetched
    lesson has the id; and when the fetched lesson ids are distinct (as they
    are in every database the server can reach) it finds each fetched lesson
    by its id. *)
Theorem findLesson_finds (courses : list course_json) (lessonId : string) :
  findLesson courses lessonId
  = find (fun l => String.eqb (l_id l) lessonId) (all_lessons courses) /\
  (forall found, findLesson courses lessonId = Some found ->
     l_id found = lessonId /\ In found (all_lessons courses)) /\
  (findLesson courses lessonId = None <->
   forall l, In l (all_lessons courses) -> l_id l <> lessonId) /\
  (NoDup (map l_id (all_lessons courses)) ->
   forall l, In l (all_lessons courses) -> findLesson courses (l_id l) = Some l).
Proof.
  destruct (findLesson_sound courses lessonId) as [Hsome Hnone].
  split.
  { unfold all_lessons. induction courses as [|c rest IH]; simpl; [reflexivity|].
    rewrite find_in_app, <- findLesson_in_is_find.
    destruct (findLesson_in (cj_modules c) lessonId); [reflexivity|].
    apply IH; apply findLesson_sound. }
  split; [exact Hsome|]. split; [split; [exact Hnone|]|].
  - intros Habsent. destruct (findLesson courses lessonId) as [found|] eqn:E; [|reflexivity].
    destruct (Hsome found eq_refl) as [Hid Hin]. now destruct (Habsent found Hin).
  - apply findLesson_of_distinct.
Qed.

(** X12.  Selecting a course on the dashboard.  With distinct fetched
    lesson ids, when the selected course has a first module with a first
    lesson, the application opens that lesson at the explanation stage and
    loads its example into the editor.  When the first module has no lesson,
    or the course no module, only the current course changes: no lesson is
    opened and the view stays, also when a later module has lessons. *)
Theorem handleSelectCourse_opens_first_lesson (courseId : string) (st : state)
  (course : course_json) :
  NoDup (map l_id (all_lessons (courses st))) ->
  find (fun c => String.eqb (c_id (cj_course c)) courseId) (courses st) = Some course ->
  match cj_modules course with
  | first_module :: _ =>
      match mj_lessons first_module with
      | first_lesson :: _ =>
          handleSelectCourse courseId st
          = {| courses := courses st; stepProgress := stepProgress st;
               currentCourseId := Some courseId;
               currentLessonId := Some (l_id first_lesson);
               activeView := lesson; currentStep := explanation;
               userCode := l_example first_lesson;
               voiceEnabled := voiceEnabled st; isLoading := isLoading st |}
      | [] => handleSelectCourse courseId st = setCurrentCourseId (Some courseId) st
      end
  | [] => handleSelectCourse courseId st = setCurrentCourseId (Some courseId) st
  end.
Proof.
  intros Hdistinct Hcourse. unfold handleSelectCourse. simpl. rewrite Hcourse.
  destruct (cj_modules course) as [|first_module others] eqn:Hmodules; [reflexivity|].
  destruct (mj_lessons first_module) as [|first_lesson more] eqn:Hlessons; [reflexivity|].
  unfold handleSelectLesson. simpl.
  assert (Hin : In first_lesson (all_lessons (courses st))).
  { apply find_some in Hcourse. destruct Hcourse as [Hin _].
    unfold all_lessons. apply in_flat_map. exists course. split; [exact Hin|].
    rewrite Hmodules. simpl. rewrite Hlessons. now left. }
  rewrite (findLesson_of_distinct (courses st) Hdistinct first_lesson Hin). reflexivity.
Qed.

Lemma handleSelectCourse_opens_first_lesson_sample :
  currentLessonId (handleSelectCourse "c1" ClientSamples.at_home) = Some "l1"%string /\
  activeView (handleSelectCourse "c1" ClientSamples.at_home) = lesson.
Proof.
  assert (Hdistinct : NoDup (map l_id (all_lessons (courses ClientSamples.at_home)))).
  { vm_compute. repeat (constructor; [simpl; intuition discriminate|]). constructor. }
  pose proof (handleSelectCourse_opens_first_lesson "c1" ClientSamples.at_home _
                Hdistinct eq_refl) as Hopens.
  simpl in Hopens. rewrite Hopens. split; reflexivity.
Defined.

End SelectionFacts.

(** ** Walking a lesson with "Next Step" *)

Section NextStep.
Import Store Sql Server App InstructorPanel Catalogue Sidebar.
Local Open Scope nat_scope.

Lemma next_step_click_eq {S} (currentStep : LessonStep)
  (onStepChange : LessonStep -> S -> S) (s : S) :
  next_step_click currentStep onStepChange s
  = match currentStep with
    | explanation => onStepChange example s
    | example => onStepChange guided s
    | guided => onStepChange independent s
    | independent => onStepChange feedback s
    | feedback => s
    end.
Proof. destruct currentStep; reflexivity. Qed.

(** What [handleStepChange] does with a lesson open *)
Lemma handleStepChange_eq (policy : arity_policy) (env : environment)
  (step : LessonStep) (st : state) (d : database) (lessonId : string) :
  currentLessonId st = Some lessonId ->
  handleStepChange policy env step (st, d)
  = if JS.truthy lessonId
    then
      let d1 := fst (post_progress policy env
                       {| pb_lesson_id := lessonId; pb_step_id := step_name step;
                          pb_status := "completed" |} d) in
      (setStepProgress (step_progress d1)
         (setCourses (map (course_view d1) (Store.courses d1)) (setCurrentStep step st)),
       d1)
    else (setCurrentStep step st, d).
Proof.
  intros Hopen. unfold handleStepChange. simpl. rewrite Hopen.
  destruct (JS.truthy lessonId); [|reflexivity].
  rewrite get_courses_eq. reflexivity.
Qed.

Lemma rows_of_lesson_app (lessonId : string) (T1 T2 : list progress_row) :
  rows_of_lesson lessonId (T1 ++ T2)
  = rows_of_lesson lessonId T1 ++ rows_of_lesson lessonId T2.
Proof. unfold rows_of_lesson. apply filter_app. Qed.

(** Recording a stage other than [explanation] keeps the rows of the
    lesson among the stages "Next Step" can enter. *)
Lemma post_progress_entered (policy : arity_policy) (env : environment)
  (lessonId : string) (step : LessonStep) (d : database) :
  step <> explanation ->
  only_entered_by_next lessonId (step_progress d) ->
  only_entered_by_next lessonId
    (step_progress
       (fst (post_progress policy env
               {| pb_lesson_id := lessonId; pb_step_id := step_name step;
                  pb_status := "completed" |} d))).
Proof.
  intros Hstep [Hdistinct Hentered]. rewrite post_progress_eq.
  destruct policy; simpl; [split; assumption|].
  unfold insert_step_progress.
  destruct (existsb _ (step_progress d)) eqn:Hnew; simpl; [split; assumption|].
  pose proof (unmatched_pair_is_new _ _ _ Hnew) as Habsent.
  split.
  - rewrite rows_of_lesson_app. unfold rows_of_lesson at 2. simpl.
    rewrite String.eqb_refl. rewrite map_app. simpl.
    apply NoDup_app; [exact Hdistinct | repeat constructor; intros [] |].
    intros s Hs [Heq|[]]. subst s. apply Habsent.
    apply in_map_iff in Hs. destruct Hs as [r [Hr Hin]].
    unfold rows_of_lesson in Hin. apply filter_In in Hin. destruct Hin as [Hin Hl].
    apply String.eqb_eq in Hl. apply in_map_iff. exists r.
    split; [unfold pair_of; congruence | exact Hin].
  - intros r Hr Hl. apply in_app_or in Hr. destruct Hr as [Hr|[<-|[]]].
    + now apply Hentered.
    + simpl. unfold entered_by_next. destruct step; simpl; auto. now contradiction Hstep.
Qed.

Lemma entered_at_most_four (lessonId : string) (T : list progress_row) :
  only_entered_by_next lessonId T ->
  length (rows_of_lesson lessonId T) <= 4.
Proof.
  intros [Hdistinct Hentered]. rewrite <- (length_map p_step_id).
  change 4 with (length entered_by_next).
  apply NoDup_incl_length; [exact Hdistinct|].
  intros s Hs. apply in_map_iff in Hs. destruct Hs as [r [<- Hr]].
  unfold rows_of_lesson in Hr. apply filter_In in Hr. destruct Hr as [Hin Hl].
  apply String.eqb_eq in Hl. now apply Hentered.
Qed.

Lemma no_row_only_entered (lessonId : string) (T : list progress_row) :
  (forall r, In r T -> p_lesson_id r <> lessonId) ->
  only_entered_by_next lessonId T.
Proof.
  intros Hnone. split.
  - unfold rows_of_lesson. rewrite filter_nothing; [constructor|].
    intros r Hr. apply String.eqb_neq. now apply Hnone.
  - intros r Hr Hl. now destruct (Hnone r Hr).
Qed.

(** One press *)
Lemma press_next_step (policy : arity_policy) (env : environment) (lessonId : string)
  (n : nat) (st : state) (d : database) :
  currentLessonId st = Some lessonId ->
  currentStep st = nth (Nat.min n 4) steps explanation ->
  only_entered_by_next lessonId (stepProgress st) ->
  only_entered_by_next lessonId (step_progress d) ->
  let sys := press_next policy env (st, d) in
  currentLessonId (fst sys) = Some lessonId /\
  currentStep (fst sys) = nth (Nat.min (S n) 4) steps explanation /\
  only_entered_by_next lessonId (stepProgress (fst sys)) /\
  only_entered_by_next lessonId (step_progress (snd sys)).
Proof.
  intros Hopen Hstep Hclient Hserver. unfold press_next. simpl fst.
  rewrite next_step_click_eq, Hstep.
  assert (Hchange : forall step, step <> explanation ->
            let sys := handleStepChange policy env step (st, d) in
            currentLessonId (fst sys) = Some lessonId /\
            currentStep (fst sys) = step /\
            only_entered_by_next lessonId (stepProgress (fst sys)) /\
            only_entered_by_next lessonId (step_progress (snd sys))).
  { intros step Hne. rewrite (handleStepChange_eq _ _ _ _ _ lessonId Hopen).
    destruct (JS.truthy lessonId); simpl.
    - split; [exact Hopen|]. split; [reflexivity|].
      split; now apply post_progress_entered.
    - split; [exact Hopen|]. split; [reflexivity|]. split; assumption. }
  destruct n as [|[|[|[|n]]]].
  - apply (Hchange example). discriminate.
  - apply (Hchange guided). discriminate.
  - apply (Hchange independent). discriminate.
  - apply (Hchange feedback). discriminate.
  - replace (Nat.min (S (S (S (S n)))) 4) with 4 in * by lia.
    replace (Nat.min (S (S (S (S (S n))))) 4) with 4 by lia.
    split; [exact Hopen|]. split; [exact Hstep|]. split; assumption.
Qed.

Lemma press_next_times_steps (policy : arity_policy) (lessonId : string)
  (envs : list environment) :
  forall (n : nat) (st : state) (d : database),
  currentLessonId st = Some lessonId ->
  currentStep st = nth (Nat.min n 4) steps explanation ->
  only_entered_by_next lessonId (stepProgress st) ->
  only_entered_by_next lessonId (step_progress d) ->
  let sys := press_next_times policy envs (st, d) in
  currentStep (fst sys) = nth (Nat.min (n + length envs) 4) steps explanation /\
  only_entered_by_next lessonId (stepProgress (fst sys)) /\
  only_entered_by_next lessonId (step_progress (snd sys)).
Proof.
  induction envs as [|env rest IH]; intros n st d Hopen Hstep Hclient Hserver.
  - simpl. rewrite Nat.add_0_r. split; [exact Hstep|]. split; assumption.
  - destruct (press_next_step policy env lessonId n st d Hopen Hstep Hclient Hserver)
      as [Hopen' [Hstep' [Hclient' Hserver']]].
    unfold press_next_times. simpl.
    destruct (press_next policy env (st, d)) as [st1 d1].
    replace (n + S (length rest)) with (S n + length rest) by lia.
    now apply (IH (S n) st1 d1).
Qed.

(** X13.  Walking a lesson with "Next Step" never completes it.  From a
    lesson just opened (stage explanation) that has no progress row yet,
    after any number of presses, under either driver behaviour: the k-th
    press enters the k-th following stage and presses after the fourth
    change nothing; the stage explanation is never recorded, the lesson has
    at most four progress rows, and the sidebar does not show it as
    completed. *)
Theorem next_step_never_completes (policy : arity_policy) (envs : list environment)
  (st : state) (d : database) (lessonId : string) :
  currentLessonId st = Some lessonId ->
  currentStep st = explanation ->
  (forall r, In r (stepProgress st) -> p_lesson_id r <> lessonId) ->
  (forall r, In r (step_progress d) -> p_lesson_id r <> lessonId) ->
  let sys := press_next_times policy envs (st, d) in
  currentStep (fst sys) = nth (Nat.min (length envs) 4) steps explanation /\
  getLessonStatus (stepProgress (fst sys)) lessonId <> status_completed /\
  length (rows_of_lesson lessonId (step_progress (snd sys))) <= 4 /\
  (forall r, In r (step_progress (snd sys)) -> p_lesson_id r = lessonId ->
     p_step_id r <> "explanation"%string).
Proof.
  intros Hopen Hstep Hclient Hserver.
  destruct (press_next_times_steps policy lessonId envs 0 st d Hopen Hstep
              (no_row_only_entered _ _ Hclient) (no_row_only_entered _ _ Hserver))
    as [Hstep' [Hclient' Hserver']].
  simpl in *. split; [exact Hstep'|]. split; [|split].
  - pose proof (entered_at_most_four _ _ Hclient') as Hfour.
    unfold getLessonStatus. fold (rows_of_lesson lessonId (stepProgress
      (fst (press_next_times policy envs (st, d))))).
    pose proof (filter_length_le (fun p => String.eqb (p_status p) "completed")
                  (rows_of_lesson lessonId
                     (stepProgress (fst (press_next_times policy envs (st, d)))))) as Hle.
    destruct (Nat.eqb _ 5) eqn:Hfive; [apply Nat.eqb_eq in Hfive; lia|].
    destruct (Nat.ltb 0 _); discriminate.
  - now apply entered_at_most_four.
  - intros r Hr Hl Hexplained. destruct Hserver' as [_ Hentered].
    specialize (Hentered r Hr Hl). rewrite Hexplained in Hentered.
    unfold entered_by_next in Hentered. simpl in Hentered. intuition discriminate.
Qed.

Lemma next_step_never_completes_sample :
  let sys := press_next_times PadNull
               [Samples.clock; Samples.clock; Samples.clock; Samples.clock; Samples.clock]
               (handleSelectLesson "l1" ClientSamples.at_home, ClientSamples.seeded) in
  currentStep (fst sys) = feedback /\
  getLessonStatus (stepProgress (fst sys)) "l1" <> status_completed /\
  length (rows_of_lesson "l1" (step_progress (snd sys))) <= 4 /\
  (forall r, In r (step_progress (snd sys)) -> p_lesson_id r = "l1"%string ->
     p_step_id r <> "explanation"%string).
Proof.
  apply (next_step_never_completes PadNull
           [Samples.clock; Samples.clock; Samples.clock; Samples.clock; Samples.clock]
           (handleSelectLesson "l1" ClientSamples.at_home) ClientSamples.seeded "l1").
  - reflexivity.
  - reflexivity.
  - intros r [].
  - intros r [].
Defined.

End NextStep.

(** ** The lesson builder *)

Section BuilderFacts.
Import JS LessonBuilder.
Local Open Scope nat_scope.

Lemma with_lessons_same (m : Module_) : with_lessons m (lessons m) = m.
Proof. destruct m; reflexivity. Qed.

Lemma with_modules_same (c : Course) : with_modules c (modules c) = c.
Proof. destruct c; reflexivity. Qed.

Lemma map_unchanged {A} (f : A -> A) (l : list A) :
  (forall x, In x l -> f x = x) -> map f l = l.
Proof.
  induction l as [|x rest IH]; simpl; intros H; [reflexivity|].
  rewrite (H x) by now left. f_equal. apply IH. intros y Hy. apply H. now right.
Qed.

(** Removing the lesson id just generated undoes the addition, and takes
    with it whatever else carries that id. *)
Lemma remove_after_add (now : Z) (moduleId : string) (c : Course) :
  handleRemoveLesson moduleId ("l" ++ string_of_Z now) (handleAddLesson now moduleId c)
  = handleRemoveLesson moduleId ("l" ++ string_of_Z now) c.
Proof.
  unfold handleRemoveLesson, handleAddLesson, with_modules.
  cbn [course_id course_title description modules]. f_equal.
  rewrite map_map. apply map_ext. intros m.
  destruct (String.eqb (module_id m) moduleId) eqn:Hm; simpl; rewrite Hm; [|reflexivity].
  unfold with_lessons. simpl. f_equal.
  rewrite filter_app. simpl. rewrite String.eqb_refl. simpl. apply app_nil_r.
Qed.

(** X14.  Adding a lesson and removing it again in the builder.  Removing
    the id that [handleAddLesson] generated gives the course that the same
    removal gives without the addition; so it restores the course when no
    lesson of the module carried that id, and when two lessons were added
    within one millisecond (the id is ["l" + Date.now()]) one click on
    "remove" deletes both.  A module id that no module carries leaves the
    course as it is. *)
Theorem add_then_remove_lesson (now : Z) (moduleId : string) (c : Course) :
  let lessonId := ("l" ++ string_of_Z now)%string in
  handleRemoveLesson moduleId lessonId (handleAddLesson now moduleId c)
  = handleRemoveLesson moduleId lessonId c /\
  handleRemoveLesson moduleId lessonId
    (handleAddLesson now moduleId (handleAddLesson now moduleId c))
  = handleRemoveLesson moduleId lessonId c /\
  ((forall m l, In m (modules c) -> module_id m = moduleId -> In l (lessons m) ->
                CodeIDE.id l <> lessonId) ->
   handleRemoveLesson moduleId lessonId (handleAddLesson now moduleId c) = c) /\
  ((forall m, In m (modules c) -> module_id m <> moduleId) ->
   handleAddLesson now moduleId c = c /\ handleRemoveLesson moduleId lessonId c = c).
Proof.
  cbv zeta. split; [apply remove_after_add|].
  split; [now rewrite !remove_after_add|].
  split.
  - intros Hfresh. rewrite remove_after_add.
    unfold handleRemoveLesson. rewrite map_unchanged; [apply with_modules_same|].
    intros m Hm. destruct (String.eqb (module_id m) moduleId) eqn:E; [|reflexivity].
    apply String.eqb_eq in E.
    rewrite filter_everything; [apply with_lessons_same|].
    intros l Hl. apply negb_true_iff. apply String.eqb_neq.
    now apply (Hfresh m l).
  - intros Hnone. split.
    + unfold handleAddLesson. rewrite map_unchanged; [apply with_modules_same|].
      intros m Hm. specialize (Hnone m Hm). apply String.eqb_neq in Hnone.
      now rewrite Hnone.
    + unfold handleRemoveLesson. rewrite map_unchanged; [apply with_modules_same|].
      intros m Hm. specialize (Hnone m Hm). apply String.eqb_neq in Hnone.
      now rewrite Hnone.
Qed.

(** What holds of the modules of a course built in the form *)
Lemma act_keeps_modules (P : CodeIDE.Lesson -> Prop) (c : Course) (a : action) :
  (forall now, P (newLesson now)) ->
  (forall l field v, P l -> P (merge l (only field v))) ->
  Forall (fun m => truthy (module_id m) = true /\ Forall P (lessons m)) (modules c) ->
  Forall (fun m => truthy (module_id m) = true /\ Forall P (lessons m))
         (modules (act c a)).
Proof.
  intros Hnew Hedit Hmodules.
  destruct a as [v|v|moduleId v|now|now moduleId|moduleId lessonId
                |moduleId lessonId field v]; simpl; try exact Hmodules.
  - apply Forall_map. eapply Forall_impl; [|exact Hmodules].
    intros m [Hid Hlessons]. destruct (String.eqb (module_id m) moduleId); now split.
  - apply Forall_app. split; [exact Hmodules|].
    constructor; [|constructor]. split; [reflexivity | constructor].
  - apply Forall_map. eapply Forall_impl; [|exact Hmodules].
    intros m [Hid Hlessons].
    destruct (String.eqb (module_id m) moduleId); simpl; [|now split].
    split; [exact Hid|]. apply Forall_app. split; [exact Hlessons|].
    constructor; [apply Hnew | constructor].
  - apply Forall_map. eapply Forall_impl; [|exact Hmodules].
    intros m [Hid Hlessons].
    destruct (String.eqb (module_id m) moduleId); simpl; [|now split].
    split; [exact Hid|]. apply Forall_forall. intros l Hl.
    apply filter_In in Hl. destruct Hl as [Hl _].
    rewrite Forall_forall in Hlessons. now apply Hlessons.
  - apply Forall_map. eapply Forall_impl; [|exact Hmodules].
    intros m [Hid Hlessons].
    destruct (String.eqb (module_id m) moduleId); simpl; [|now split].
    split; [exact Hid|]. apply Forall_map. eapply Forall_impl; [|exact Hlessons].
    intros l Hl. destruct (String.eqb (CodeIDE.id l) lessonId); [now apply Hedit | exact Hl].
Qed.

(** X15.  What the form of the builder cannot produce.  In a course built
    from a new builder by any sequence of form actions (without an import):
    the course id is the empty string, so that the id of the saved course is
    always the server's; every module and every lesson has a non-empty id,
    which [POST /api/courses] keeps; and the guided practice of every lesson
    is the empty string, the form having no input for it. *)
Theorem built_in_the_form (actions : list action) :
  course_id (built actions) = ""%string /\
  Server.cb_id (posted (built actions)) = ""%string /\
  Forall (fun m =>
            truthy (module_id m) = true /\
            Forall (fun l => truthy (CodeIDE.id l) = true /\
                             CodeIDE.practice_guided l = ""%string) (lessons m))
         (modules (built actions)) /\
  Forall (fun mb =>
            (forall fresh, or_else (Server.mb_id mb) fresh = Server.mb_id mb) /\
            Forall (fun lb =>
                      (forall fresh, or_else (Server.lb_id lb) fresh = Server.lb_id lb) /\
                      Server.lb_practice_guided lb = ""%string) (Server.mb_lessons mb))
         (Server.cb_modules (posted (built actions))).
Proof.
  assert (Hinv : forall c,
             course_id c = ""%string /\
             Forall (fun m =>
                       truthy (module_id m) = true /\
                       Forall (fun l => truthy (CodeIDE.id l) = true /\
                                        CodeIDE.practice_guided l = ""%string) (lessons m))
                    (modules c) ->
             course_id (fold_left act actions c) = ""%string /\
             Forall (fun m =>
                       truthy (module_id m) = true /\
                       Forall (fun l => truthy (CodeIDE.id l) = true /\
                                        CodeIDE.practice_guided l = ""%string) (lessons m))
                    (modules (fold_left act actions c))).
  { induction actions as [|a rest IH]; intros c [Hid Hmodules]; [now split|].
    simpl. apply IH. split.
    - destruct a; simpl; exact Hid.
    - apply act_keeps_modules; try exact Hmodules.
      + intros now. split; reflexivity.
      + intros l field v [Hl Hguided]. destruct field; simpl; now split. }
  destruct (Hinv initial) as [Hid Hmodules]; [split; [reflexivity | constructor]|].
  fold (built actions) in Hid, Hmodules.
  split; [exact Hid|]. split; [exact Hid|]. split; [exact Hmodules|].
  unfold posted. simpl. apply Forall_map. eapply Forall_impl; [|exact Hmodules].
  intros m [Hm Hlessons]. simpl. split.
  - intros fresh. unfold or_else. now rewrite Hm.
  - apply Forall_map. eapply Forall_impl; [|exact Hlessons].
    intros l [Hl Hguided]. simpl. split; [|exact Hguided].
    intros fresh. unfold or_else. now rewrite Hl.
Qed.

End BuilderFacts.

(** ** The result of [withRetry], and speech *)

Section RetryResult.
Import JS Gemini Speech.
Local Open Scope nat_scope.

Variable T : Type.
Variable fn : nat -> result T.
Variable retries : nat.

(** Entered as [withRetry] enters it with an iteration to go, the loop
    ends with the outcome of the last call it made, and has warned once per
    sleep. *)
Lemma retry_loop_last (remaining i : nat) (delay : Z) :
  retries <= i + remaining -> 0 < remaining ->
  exists n,
    n < remaining /\
    calls (fst (retry_loop fn retries remaining i delay)) = seq i (S n) /\
    sleeps (fst (retry_loop fn retries remaining i delay)) = backoff delay n /\
    snd (retry_loop fn retries remaining i delay) = fn (i + n) /\
    (forall j, j < n -> exists error,
        fn (i + j) = Rejected error /\ isQuotaError error = true).
Proof.
  revert i delay. induction remaining as [|remaining IH]; intros i delay Hinv Hpos;
    [lia|]. simpl.
  destruct (fn i) as [value|error] eqn:Hfn.
  - exists 0. rewrite Nat.add_0_r, Hfn. simpl.
    repeat split; [lia | intros j Hj; lia].
  - destruct (isQuotaError error && Nat.ltb i (retries - 1)) eqn:Hretry.
    + apply andb_true_iff in Hretry. destruct Hretry as [Hquota Hlt].
      apply Nat.ltb_lt in Hlt.
      destruct (IH (S i) (delay * 2)%Z) as [n [Hn [Hcalls [Hsleeps [Hlast Hbefore]]]]];
        [lia | lia |].
      destruct (retry_loop fn retries remaining (S i) (delay * 2)) as [later r].
      simpl in *. exists (S n).
      split; [lia|]. split; [now rewrite Hcalls|].
      split; [rewrite backoff_succ; now rewrite Hsleeps|].
      split; [now replace (i + S n) with (S (i + n)) by lia|].
      intros j Hj. destruct j as [|j].
      * exists error. rewrite Nat.add_0_r. now split.
      * replace (i + S j) with (S (i + j)) by lia. apply Hbefore. lia.
    + exists 0. rewrite Nat.add_0_r, Hfn. simpl.
      repeat split; [lia | intros j Hj; lia].
Qed.

(** X16.  [withRetry] settles with the outcome of its last attempt.  With
    [retries] at least 1 it makes between 1 and [retries] calls and resolves
    or rejects exactly as the last of them did, every earlier call having
    failed with a quota-class error: when the quota lasts through all
    attempts the caller receives the quota error of the last one, and the
    error "Max retries exceeded" is produced only for [retries] = 0, where
    [fn] is never called. *)
Theorem withRetry_returns_last_attempt (delay : Z) :
  (retries = 0 ->
   withRetry fn retries delay = ([], Rejected max_retries_exceeded)) /\
  (0 < retries ->
   exists n,
     n < retries /\
     calls (fst (withRetry fn retries delay)) = seq 0 (S n) /\
     sleeps (fst (withRetry fn retries delay)) = backoff delay n /\
     snd (withRetry fn retries delay) = fn n /\
     (forall j, j < n -> exists error,
         fn j = Rejected error /\ isQuotaError error = true)).
Proof.
  unfold withRetry. split.
  - intros ->. reflexivity.
  - intros Hpos. apply (retry_loop_last retries 0 delay); lia.
Qed.

End RetryResult.

Section SpeechFacts.
Import JS Gemini Speech.
Local Open Scope nat_scope.

(** X17.  [generateSpeech] gives up after at most three calls and two
    sleeps, of 1500 ms and 3000 ms.  It resolves to the audio of the last
    call when that call resolved, and to null when it failed, after one
    console message: the quota warning when the message of the error
    contains "quota" or "429", an error log otherwise.  A failure that is of
    the quota class by its status RESOURCE_EXHAUSTED alone is retried like a
    quota failure but logged like any other error. *)
Theorem generateSpeech_gives_up (fn : nat -> result (option string)) :
  (exists n,
     n <= 2 /\
     calls (trace (generateSpeech fn)) = seq 0 (S n) /\
     sleeps (trace (generateSpeech fn)) = firstn n [1500; 3000]%Z /\
     match fn n with
     | Resolved base64Audio =>
         audio (generateSpeech fn) = base64Audio /\
         quota_warnings (generateSpeech fn) = 0 /\
         errors_logged (generateSpeech fn) = 0
     | Rejected err =>
         audio (generateSpeech fn) = None /\
         quota_warnings (generateSpeech fn) + errors_logged (generateSpeech fn) = 1 /\
         (quota_warnings (generateSpeech fn) = 1 <->
          message_includes err "quota" || message_includes err "429" = true)
     end) /\
  ((forall i, fn i = Rejected {| message := None;
                                 status := Some "RESOURCE_EXHAUSTED"%string |}) ->
   calls (trace (generateSpeech fn)) = [0; 1; 2] /\
   audio (generateSpeech fn) = None /\
   quota_warnings (generateSpeech fn) = 0 /\
   errors_logged (generateSpeech fn) = 1).
Proof.
  split.
  - destruct (retry_loop_last _ fn 3 3 0 1500%Z) as [n [Hn [Hcalls [Hsleeps [Hlast _]]]]];
      [lia | lia |].
    exists n. unfold generateSpeech, withRetry.
    destruct (retry_loop fn 3 3 0 1500) as [events outcome]. simpl in *.
    subst outcome.
    assert (Hdelays : backoff 1500 n = firstn n [1500; 3000]%Z).
    { destruct n as [|[|[|n]]]; try reflexivity. lia. }
    destruct (fn n) as [base64Audio|err]; simpl.
    + repeat split; try assumption; try lia. now rewrite <- Hdelays.
    + destruct (message_includes err "quota" || message_includes err "429"); simpl.
      * repeat split; try assumption; try lia. now rewrite <- Hdelays.
      * repeat split; try assumption; try lia; try discriminate.
        now rewrite <- Hdelays.
  - intros Hall. unfold generateSpeech, withRetry. simpl. rewrite !Hall. simpl.
    repeat split.
Qed.

End SpeechFacts.

(** ** The prompt of the instructor *)

Section PromptFacts.
Import JS Instructor.
Local Open Scope nat_scope.

(** X18.  The [contents] of an instructor request are never empty: they
    are the history, role by role and text by text, followed by at most one
    more entry, of role user.  The entry is there exactly when an input or
    code is given or the history is empty; so a request built as
    [handleSend] builds it, from a history that ends with the user's message
    and the editor's code, ends with two user entries when the editor is not
    empty. *)
Theorem contents_shape (lesson : CodeIDE.Lesson) (step : App.LessonStep)
  (history : list ChatMessage) (userInput userCode : option string) :
  let built := contents lesson step history userInput userCode in
  built <> [] /\
  (exists extra,
     built = map of_message history ++ extra /\
     length extra <= 1 /\
     Forall (fun c => content_role c = user) extra /\
     (extra = [] <->
      history <> [] /\ given_truthy userInput = false /\ given_truthy userCode = false)) /\
  (forall messages userMsg code,
     history = messages ++ [userMsg] -> message_role userMsg = user ->
     userInput = None -> userCode = Some code -> truthy code = true ->
     exists earlier prompt,
       built = earlier ++ [ {| content_role := user; part_text := text userMsg |};
                            {| content_role := user; part_text := prompt |} ]).
Proof.
  cbv zeta. unfold contents.
  destruct (given_truthy userInput || given_truthy userCode) eqn:Hgiven.
  - split; [intros H; now apply app_eq_nil in H|]. split.
    + eexists [_]. split; [reflexivity|]. split; [simpl; lia|].
      split; [repeat constructor|].
      split; [discriminate|]. intros [_ [Hi Hc]]. rewrite Hi, Hc in Hgiven. discriminate.
    + intros messages userMsg code -> Hrole -> -> Hcode.
      rewrite map_app. simpl. rewrite <- app_assoc. simpl.
      eexists (map of_message messages), _. unfold of_message at 2. rewrite Hrole.
      reflexivity.
  - apply orb_false_iff in Hgiven. destruct Hgiven as [Hi Hc].
    destruct history as [|h rest]; simpl.
    + split; [discriminate|]. split.
      * eexists [_]. split; [reflexivity|]. split; [simpl; lia|].
        split; [repeat constructor|].
        split; [discriminate|]. intros [H _]. now contradiction H.
      * intros messages userMsg code Hhistory. now destruct messages.
    + split; [discriminate|]. split.
      * exists []. rewrite app_nil_r. split; [reflexivity|]. split; [simpl; lia|].
        split; [constructor|].
        split; [intros _; repeat split; [discriminate | assumption | assumption] | reflexivity].
      * intros messages userMsg code _ _ _ -> Hcode. simpl in Hc. congruence.
Qed.

End PromptFacts.

(** ** Running code in the other languages *)

Section RunCodeLanguages.
Import JS CodeIDE Preview.
Local Open Scope nat_scope.

Variable F : Type.
Variable env : collaborators F.

(** The HTML run up to the feedback request *)
Lemma run_only_html (lesson : Lesson) (code : string) (w : world F) :
  language lesson = "html"%string ->
  run_only F env lesson code w
  = (setOutput F "HTML rendered in preview."
       (write_preview F code
          (setActiveTab F preview (setOutput F "" (setIsRunning F true w)))),
     inl tt).
Proof.
  intros Hhtml. unfold run_only, bind, update, execute. rewrite Hhtml. reflexivity.
Qed.

(** X19.  The first run of an HTML lesson renders nothing.  Started from
    the editor tab, where the iframe is not mounted, [runCode] switches to
    the preview tab and reports "HTML rendered in preview." (when the
    feedback request is answered), but writes the code nowhere: the iframe
    that the next render mounts is empty.  A second run, started from the
    preview tab, writes the code into it. *)
Theorem html_first_run_renders_nothing (lesson : Lesson) (code : string) (w : world F) :
  language lesson = "html"%string ->
  iframe_as_rendered w ->
  activeTab w = editor ->
  let first := fst (runCode F env lesson code w) in
  let second := fst (runCode F env lesson code (render first)) in
  activeTab first = preview /\
  preview_document first = None /\
  (forall feedback, getCodeFeedback env lesson code (output w) = inl feedback ->
     output first = "HTML rendered in preview."%string) /\
  preview_document (render first) = Some ""%string /\
  iframe_as_rendered (render first) /\
  preview_document second = Some code.
Proof.
  intros Hhtml Hrendered Heditor.
  assert (Hunmounted : preview_document w = None) by now apply Hrendered.
  cbv zeta.
  assert (Hfirst : forall w0 : world F,
             activeTab (fst (runCode F env lesson code w0)) = preview /\
             preview_document (fst (runCode F env lesson code w0))
             = match preview_document w0 with Some _ => Some code | None => None end /\
             (forall feedback,
                getCodeFeedback env lesson code (output w0) = inl feedback ->
                output (fst (runCode F env lesson code w0))
                = "HTML rendered in preview."%string)).
  { intros w0. rewrite runCode_eq. rewrite (run_only_html lesson code w0 Hhtml).
    destruct (getCodeFeedback env lesson code (output w0)) as [feedback|err]; simpl.
    - repeat split.
    - repeat split. intros feedback Hfb. discriminate. }
  destruct (Hfirst w) as [Htab [Hdoc Hout]]. rewrite Hunmounted in Hdoc.
  split; [exact Htab|]. split; [exact Hdoc|]. split; [exact Hout|].
  assert (Hmounted : preview_document (render (fst (runCode F env lesson code w)))
                     = Some ""%string).
  { unfold render. simpl. now rewrite Htab, Hdoc. }
  split; [exact Hmounted|]. split.
  - unfold iframe_as_rendered. rewrite Hmounted.
    unfold render. simpl. rewrite Htab. split; discriminate.
  - destruct (Hfirst (render (fst (runCode F env lesson code w)))) as [_ [Hdoc2 _]].
    now rewrite Hmounted in Hdoc2.
Qed.

(** X20.  A lesson in a language [runCode] has no branch for (the seed
    course has a CSS lesson) evaluates nothing: the run clears the output,
    leaves the tab, the preview and [console.log] as they were, and still
    sends the code with the output shown before the run to the feedback
    service, whose answer is delivered and whose failure becomes the
    output. *)
Theorem runCode_without_a_branch (lesson : Lesson) (code : string) (w : world F) :
  runnable (language lesson) = false ->
  let final := fst (runCode F env lesson code w) in
  snd (runCode F env lesson code w) = inl tt /\
  isRunning final = false /\
  activeTab final = activeTab w /\
  preview_document final = preview_document w /\
  console_log final = console_log w /\
  logs final = logs w /\
  requests final
  = requests w ++ [{| fr_lesson := lesson; fr_code := code; fr_output := output w |}] /\
  match getCodeFeedback env lesson code (output w) with
  | inl feedback =>
      output final = ""%string /\ delivered final = delivered w ++ [feedback]
  | inr err =>
      output final = ("System Error: " ++ formatError err)%string /\
      delivered final = delivered w
  end.
Proof.
  intros Hnone. unfold runnable in Hnone.
  apply orb_false_iff in Hnone. destruct Hnone as [Hnone Hpy].
  apply orb_false_iff in Hnone. destruct Hnone as [Hjs Hhtml].
  assert (Hshown : run_only F env lesson code w
                   = (setOutput F "" (setIsRunning F true w), inl tt)).
  { unfold run_only, bind, update, execute. now rewrite Hjs, Hhtml, Hpy. }
  cbv zeta. rewrite runCode_eq, Hshown.
  destruct (getCodeFeedback env lesson code (output w)); simpl; repeat split.
Qed.

(** X21.  A Python run with the runtime loaded shows the text of the
    result, the notice "Code executed successfully." for an empty text, and
    "Python Error: " followed by the formatted fault when the code raises;
    the fault does not leave the branch, and the tab, the preview and
    [console.log] stay as they were. *)
Theorem python_run_with_runtime (lesson : Lesson) (code : string) (w : world F) :
  language lesson = "python"%string ->
  pyodide w = true ->
  let shown := fst (run_only F env lesson code w) in
  snd (run_only F env lesson code w) = inl tt /\
  output shown
  = match runPythonAsync env code with
    | inl result => or_else result "Code executed successfully."
    | inr err => ("Python Error: " ++ formatError err)%string
    end /\
  activeTab shown = activeTab w /\
  preview_document shown = preview_document w /\
  console_log shown = console_log w /\
  (forall feedback, getCodeFeedback env lesson code (output w) = inl feedback ->
     output (fst (runCode F env lesson code w)) = output shown).
Proof.
  intros Hpy Hloaded. cbv zeta.
  assert (Hshown : run_only F env lesson code w
                   = (setOutput F
                        match runPythonAsync env code with
                        | inl result => or_else result "Code executed successfully."
                        | inr err => ("Python Error: " ++ formatError err)%string
                        end
                        (setOutput F "" (setIsRunning F true w)), inl tt)).
  { unfold run_only, bind, update, execute, run_python, try_catch, throw.
    rewrite Hpy. simpl. rewrite Hloaded. simpl.
    destruct (runPythonAsync env code); reflexivity. }
  rewrite runCode_eq, Hshown. simpl. repeat split.
  intros feedback Hfb. rewrite Hfb. reflexivity.
Qed.

End RunCodeLanguages.

Lemma html_first_run_renders_nothing_sample :
  let env := Samples.service_answers Samples.logs_hi in
  let first := fst (CodeIDE.runCode string env ClientSamples.html_lesson "<h1>Hi</h1>"
                      Samples.after_earlier_run) in
  let second := fst (CodeIDE.runCode string env ClientSamples.html_lesson "<h1>Hi</h1>"
                       (Preview.render first)) in
  CodeIDE.activeTab first = CodeIDE.preview /\
  CodeIDE.preview_document first = None /\
  (forall feedback,
     CodeIDE.getCodeFeedback env ClientSamples.html_lesson "<h1>Hi</h1>"
       (CodeIDE.output Samples.after_earlier_run) = inl feedback ->
     CodeIDE.output first = "HTML rendered in preview."%string) /\
  CodeIDE.preview_document (Preview.render first) = Some ""%string /\
  Preview.iframe_as_rendered (Preview.render first) /\
  CodeIDE.preview_document second = Some "<h1>Hi</h1>"%string.
Proof.
  apply (html_first_run_renders_nothing string (Samples.service_answers Samples.logs_hi)
           ClientSamples.html_lesson "<h1>Hi</h1>" Samples.after_earlier_run).
  - reflexivity.
  - split; reflexivity.
  - reflexivity.
Defined.

Lemma runCode_without_a_branch_sample :
  let env := Samples.service_answers Samples.logs_hi in
  let final := fst (CodeIDE.runCode string env ClientSamples.css_lesson "h1 { color: red; }"
                      Samples.after_earlier_run) in
  CodeIDE.output final = ""%string /\
  CodeIDE.requests final
  = [{| CodeIDE.fr_lesson := ClientSamples.css_lesson;
        CodeIDE.fr_code := "h1 { color: red; }";
        CodeIDE.fr_output := "previous output" |}].
Proof.
  pose proof (runCode_without_a_branch string (Samples.service_answers Samples.logs_hi)
                ClientSamples.css_lesson "h1 { color: red; }" Samples.after_earlier_run
                eq_refl) as H.
  cbv zeta in H. destruct H as [_ [_ [_ [_ [_ [_ [Hrequests Hfeedback]]]]]]].
  simpl in Hfeedback. destruct Hfeedback as [Houtput _].
  split; [exact Houtput | exact Hrequests].
Defined.

Lemma python_run_with_runtime_sample :
  let env := Samples.service_answers Samples.logs_hi in
  let w := ClientSamples.runtime_loaded in
  CodeIDE.output (fst (CodeIDE.run_only string env Samples.python_lesson "print(1)" w))
  = "None"%string.
Proof.
  pose proof (python_run_with_runtime string (Samples.service_answers Samples.logs_hi)
                Samples.python_lesson "print(1)" ClientSamples.runtime_loaded
                eq_refl eq_refl) as H.
  cbv zeta in H. destruct H as [_ [Houtput _]]. exact Houtput.
Defined.

(** ** Loading the Python runtime *)

Section LoaderFacts.
Import JS CodeIDE PyodideLoader.
Local Open Scope nat_scope.

(** The loop waits while the script is missing, and not beyond its budget. *)
Lemma poll_spec (p : page) (budget attempts : nat) :
  attempts <= poll p budget attempts <= attempts + budget /\
  (forall k, attempts <= k -> k < poll p budget attempts -> script_loaded p k = false) /\
  (script_loaded p (poll p budget attempts) = false ->
   poll p budget attempts = attempts + budget).
Proof.
  revert attempts. induction budget as [|budget IH]; intros attempts; simpl.
  - destruct (script_loaded p attempts) eqn:Hnow.
    + split; [lia|]. split; [intros; lia | congruence].
    + split; [lia|]. split; [intros; lia | intros; lia].
  - destruct (script_loaded p attempts) eqn:Hnow.
    + split; [lia|]. split; [intros; lia | congruence].
    + destruct (IH (S attempts)) as [Hrange [Hbefore Hexhausted]].
      split; [lia|]. split.
      * intros k Hk Hlt. destruct (Nat.eq_dec k attempts) as [->|Hne]; [exact Hnow|].
        apply Hbefore; lia.
      * intros Hmissing. specialize (Hexhausted Hmissing). lia.
Qed.

(** X22.  Loading the Python runtime polls for the script at most 50
    times, 100 ms apart, and stops at the first poll that finds it.  The
    runtime is set exactly when the script was found and its start
    succeeded, with the output "Python runtime ready."; otherwise the output
    is "Failed to load Python runtime: " followed by the formatted error, the
    error is logged, and nothing is thrown to the caller.  When the script
    never appears the loader has waited 50 times (5 seconds) and reports that
    the script was not found.  With a runtime already set it does nothing. *)
Theorem loadPyodide_polls (p : page) (st : loader) :
  (ld_pyodide st = true -> loadPyodide p st = st) /\
  (ld_pyodide st = false ->
   exists n,
     n <= 50 /\
     ld_waits (loadPyodide p st) = ld_waits st ++ repeat 100%Z n /\
     (forall k, k < n -> script_loaded p k = false) /\
     (ld_pyodide (loadPyodide p st) = true <->
      script_loaded p n = true /\ started p = inl tt) /\
     (ld_pyodide (loadPyodide p st) = true ->
      ld_output (loadPyodide p st) = "Python runtime ready."%string /\
      ld_errors (loadPyodide p st) = ld_errors st) /\
     (ld_pyodide (loadPyodide p st) = false ->
      exists err,
        ld_errors (loadPyodide p st) = ld_errors st ++ [err] /\
        ld_output (loadPyodide p st)
        = ("Failed to load Python runtime: " ++ formatError err)%string /\
        (script_loaded p n = false -> n = 50 /\ err = script_not_found) /\
        (script_loaded p n = true -> started p = inr err))).
Proof.
  split.
  - intros Hset. unfold loadPyodide. now rewrite Hset.
  - intros Hunset. unfold loadPyodide. rewrite Hunset.
    destruct (poll_spec p 50 0) as [Hrange [Hbefore Hexhausted]].
    remember (poll p 50 0) as n eqn:Hn. clear Hn.
    exists n.
    split; [lia|].
    destruct (script_loaded p n) eqn:Hfound; simpl.
    + destruct (started p) as [[]|err] eqn:Hstart; simpl.
      * split; [reflexivity|]. split; [intros k Hk; apply Hbefore; lia|].
        split; [tauto|]. split; [tauto|]. discriminate.
      * split; [reflexivity|]. split; [intros k Hk; apply Hbefore; lia|].
        split; [split; [congruence | intros [_ H]; discriminate]|].
        split; [congruence|]. intros _. exists err.
        split; [reflexivity|]. split; [reflexivity|].
        split; [discriminate | reflexivity].
    + split; [reflexivity|]. split; [intros k Hk; apply Hbefore; lia|].
      split; [split; [congruence | intros [H _]; discriminate]|].
      split; [congruence|]. intros _. exists script_not_found.
      split; [reflexivity|]. split; [reflexivity|].
      split; [|discriminate].
      intros _. specialize (Hexhausted eq_refl). split; [lia | reflexivity].
Qed.

End LoaderFacts.

(** ** Decoding the audio *)

Section PCMFacts.
Import PCM.
Local Open Scope nat_scope.

Lemma store_length (a : list Z) (k : nat) (v : Z) : length (store a k v) = length a.
Proof.
  revert k. induction a as [|x rest IH]; intros k; [reflexivity|].
  destruct k; simpl; [reflexivity | now rewrite IH].
Qed.

Lemma store_outside (a : list Z) (k : nat) (v : Z) : length a <= k -> store a k v = a.
Proof.
  revert k. induction a as [|x rest IH]; intros k Hk; [reflexivity|].
  destruct k; simpl in *; [lia|]. f_equal. apply IH. lia.
Qed.

Lemma store_next (done : list Z) (x v : Z) (rest : list Z) (k : nat) :
  length done = k -> store (done ++ x :: rest) k v = done ++ v :: rest.
Proof.
  intros <-. induction done as [|y done IH]; simpl; [reflexivity | now rewrite IH].
Qed.

(** The loop fills the array from the left with the words at the even
    positions. *)
Lemma fill_spec (s : string) (m : nat) :
  forall (iterations j : nat),
  String.length s <= 2 * j + 2 * iterations ->
  2 * m <= String.length s <= 2 * m + 1 ->
  fill s iterations (2 * j)
       (map (fun k => ToInt16 (word_at s (2 * k))) (seq 0 (Nat.min j m))
        ++ repeat 0%Z (m - j))
  = map (fun k => ToInt16 (word_at s (2 * k))) (seq 0 m).
Proof.
  induction iterations as [|iterations IH]; intros j Hbudget Hm; cbn [fill].
  - replace (Nat.min j m) with m by lia. replace (m - j) with 0 by lia.
    apply app_nil_r.
  - destruct (Nat.ltb (2 * j) (String.length s)) eqn:Hlt.
    + apply Nat.ltb_lt in Hlt.
      replace (2 * j + 2) with (2 * S j) by lia.
      replace (2 * j / 2) with j
        by (replace (2 * j) with (j * 2) by lia; now rewrite Nat.div_mul).
      destruct (Nat.lt_ge_cases j m) as [Hin|Hout].
      * replace (Nat.min j m) with j by lia.
        replace (m - j) with (S (m - S j)) by lia. cbn [repeat].
        rewrite store_next by (now rewrite length_map, length_seq).
        replace (map (fun k => ToInt16 (word_at s (2 * k))) (seq 0 j)
                 ++ ToInt16 (word_at s (2 * j)) :: repeat 0%Z (m - S j))
          with (map (fun k => ToInt16 (word_at s (2 * k))) (seq 0 (Nat.min (S j) m))
                ++ repeat 0%Z (m - S j)).
        -- apply IH; lia.
        -- replace (Nat.min (S j) m) with (S j) by lia.
           rewrite seq_S, map_app, <- app_assoc. reflexivity.
      * rewrite store_outside.
        -- replace (Nat.min j m) with (Nat.min (S j) m) by lia.
           replace (m - j) with (m - S j) by lia.
           apply IH; lia.
        -- rewrite length_app, length_map, length_seq, repeat_length. lia.
    + apply Nat.ltb_ge in Hlt.
      replace (Nat.min j m) with m by lia. replace (m - j) with 0 by lia.
      apply app_nil_r.
Qed.

Lemma int16_of_eq (s : string) :
  int16_of s
  = map (fun k => ToInt16 (word_at s (2 * k))) (seq 0 (String.length s / 2)).
Proof.
  unfold int16_of.
  pose proof (fill_spec s (String.length s / 2) (String.length s) 0) as H.
  rewrite Nat.min_0_l, Nat.sub_0_r in H. apply H; [lia|].
  pose proof (Nat.div_mod_eq (String.length s) 2) as Hdiv.
  pose proof (Nat.mod_upper_bound (String.length s) 2) as Hmod. lia.
Qed.

Lemma ToInt16_range (v : Z) : (-32768 <= ToInt16 v < 32768)%Z.
Proof.
  unfold ToInt16. pose proof (Z.mod_pos_bound v 65536) as H.
  destruct (v mod 65536 <? 32768)%Z eqn:E;
    [apply Z.ltb_lt in E | apply Z.ltb_ge in E]; lia.
Qed.

Lemma ToInt16_of_sample (x : Z) :
  (-32768 <= x < 32768)%Z -> ToInt16 (x mod 65536) = x.
Proof.
  intros Hx. unfold ToInt16. rewrite Z.mod_mod by lia.
  pose proof (Z.mod_pos_bound x 65536 ltac:(lia)) as Hr.
  pose proof (Z.div_mod x 65536 ltac:(lia)) as Hd.
  destruct (x mod 65536 <? 32768)%Z eqn:E;
    [apply Z.ltb_lt in E | apply Z.ltb_ge in E]; lia.
Qed.

(** A high byte shifted by 8 and a low byte do not overlap. *)
Lemma word_of_bytes (hi lo : Z) :
  (0 <= hi)%Z -> (0 <= lo < 256)%Z ->
  Z.lor (Z.shiftl hi 8) lo = (hi * 256 + lo)%Z.
Proof.
  intros Hhi Hlo.
  assert (Hdisjoint : Z.land (Z.shiftl hi 8) lo = 0%Z).
  { apply Z.bits_inj'. intros n Hn. rewrite Z.land_spec, Z.bits_0.
    destruct (Z_lt_le_dec n 8) as [Hlow|Hhigh].
    - rewrite Z.shiftl_spec_low by exact Hlow. reflexivity.
    - destruct (Z.eq_dec lo 0) as [->|Hnz]; [now rewrite Z.bits_0, andb_false_r|].
      rewrite (Z.bits_above_log2 lo n), andb_false_r; [reflexivity | lia |].
      apply Z.log2_lt_pow2; [lia|].
      apply Z.lt_le_trans with (2 ^ 8)%Z; [simpl; lia|].
      apply Z.pow_le_mono_r; lia. }
  rewrite <- Z.lxor_lor by exact Hdisjoint.
  rewrite <- Z.add_nocarry_lxor by exact Hdisjoint.
  rewrite Z.shiftl_mul_pow2 by lia. reflexivity.
Qed.

Lemma byte_code (v : Z) : Z.of_nat (nat_of_ascii (byte v)) = (v mod 256)%Z.
Proof.
  unfold byte. pose proof (Z.mod_pos_bound v 256) as H.
  rewrite nat_ascii_embedding by lia. lia.
Qed.

Lemma word_at_shift (lo hi : ascii) (rest : string) (k : nat) :
  word_at (String lo (String hi rest)) (2 * S k) = word_at rest (2 * k).
Proof.
  unfold word_at, charCodeAt.
  replace (2 * S k + 1) with (S (S (2 * k + 1))) by lia.
  replace (2 * S k) with (S (S (2 * k))) by lia.
  reflexivity.
Qed.

Lemma int16_of_pair (lo hi : ascii) (rest : string) :
  int16_of (String lo (String hi rest))
  = ToInt16 (Z.of_nat (nat_of_ascii hi) * 256 + Z.of_nat (nat_of_ascii lo))
    :: int16_of rest.
Proof.
  rewrite !int16_of_eq.
  replace (String.length (String lo (String hi rest)) / 2)
    with (S (String.length rest / 2)).
  - rewrite <- cons_seq, <- seq_shift, map_cons, map_map. f_equal.
    + unfold word_at, charCodeAt. cbn [Nat.mul Nat.add String.get ToInt32].
      rewrite word_of_bytes; [reflexivity | lia |].
      pose proof (nat_ascii_bounded lo). lia.
    + apply map_ext. intros k. now rewrite word_at_shift.
  - simpl String.length.
    replace (S (S (String.length rest))) with (1 * 2 + String.length rest) by lia.
    rewrite Nat.div_add_l by lia. reflexivity.
Qed.

Lemma string_length_append (s1 s2 : string) :
  String.length (s1 ++ s2) = String.length s1 + String.length s2.
Proof. induction s1 as [|c s1 IH]; simpl; [reflexivity | now rewrite IH]. Qed.

(** X23.  The audio decoder reads 16-bit little-endian signed PCM.  It
    yields one sample for every two characters of the decoded string, a
    trailing odd character being ignored; every sample lies in [-1, 1); and
    decoding the encoding of any sequence of 16-bit samples gives each
    sample divided by 32768. *)
Theorem float32_of_decodes_pcm16le (binaryString : string) :
  length (float32_of binaryString) = String.length binaryString / 2 /\
  Forall (fun q => (-1 <= q)%Q /\ (q < 1)%Q) (float32_of binaryString) /\
  (forall c, Nat.even (String.length binaryString) = true ->
     float32_of (binaryString ++ String c EmptyString) = float32_of binaryString) /\
  (forall samples,
     Forall (fun x => (-32768 <= x < 32768)%Z) samples ->
     float32_of (pcm16le samples) = map (fun x => Qmake x 32768) samples).
Proof.
  split; [|split; [|split]].
  - unfold float32_of. rewrite length_map, int16_of_eq, length_map, length_seq.
    reflexivity.
  - unfold float32_of. apply Forall_map. rewrite int16_of_eq. apply Forall_map.
    apply Forall_forall. intros k _.
    pose proof (ToInt16_range (word_at binaryString (2 * k))) as H.
    unfold Qle, Qlt. cbn [Qnum Qden]. lia.
  - intros c Heven. unfold float32_of. f_equal. rewrite !int16_of_eq.
    apply Nat.even_spec in Heven. destruct Heven as [half Hhalf].
    rewrite string_length_append. simpl String.length. rewrite Hhalf.
    replace ((2 * half + 1) / 2) with half
      by (apply (Nat.div_unique _ 2 half 1); lia).
    replace (2 * half / 2) with half
      by (apply (Nat.div_unique _ 2 half 0); lia).
    apply map_ext_in. intros k Hk. apply in_seq in Hk. f_equal.
    unfold word_at, charCodeAt.
    rewrite <- !(String.append_correct1 binaryString) by lia. reflexivity.
  - intros samples Hrange. unfold float32_of.
    induction Hrange as [|x rest Hx _ IH]; [reflexivity|].
    simpl pcm16le. rewrite int16_of_pair, map_cons, IH. f_equal.
    rewrite !byte_code.
    replace ((x / 256) mod 256 * 256 + x mod 256)%Z with (x mod 65536)%Z.
    + now rewrite ToInt16_of_sample.
    + change 65536%Z with (256 * 256)%Z. rewrite Z.rem_mul_r by lia. lia.
Qed.

End PCMFacts.

(** ** Saving a course from the application *)

Section SaveCourse.
Import Store Sql Server JS App AppData.
Local Open Scope nat_scope.

(** A [POST /api/courses] that returns has appended the course row it
    answers with, and that row only, to [courses]. *)
Lemma post_courses_returned_course (policy : arity_policy) (env : environment)
  (body : course_body) (d : database) (id : string) :
  snd (post_courses policy env body d) = Returned id ->
  Store.courses (fst (post_courses policy env body d))
  = Store.courses d
    ++ [ {| c_id := id; c_title := cb_title body;
            c_description := cb_description body;
            c_image_url :=
              or_else (cb_image_url body)
                ("https://picsum.photos/seed/" ++ id ++ "/800/450")%string;
            c_created_at := CURRENT_TIMESTAMP env |} ] /\
  step_progress (fst (post_courses policy env body d)) = step_progress d /\
  settings (fst (post_courses policy env body d)) = settings d.
Proof.
  unfold post_courses, bind. rewrite run_exact. unfold insert_course.
  destruct (existsb _ (Store.courses d)); [discriminate|].
  match goal with
  | |- context [insert_modules policy env ?cid ?ms ?k1 ?d1] =>
      destruct (insert_modules_appends policy env cid ms k1 d1) as [nm [nl [Hd _]]];
      destruct (insert_modules policy env cid ms k1 d1) as [d2 [k2|e]]
  end; [|discriminate].
  simpl in *. subst d2. intros Hid. inversion Hid; subst id. simpl. repeat split.
Qed.

Lemma fetchData_eq (policy : arity_policy) (st : state) (d : database) :
  exists sett,
    s_id sett = 1%Z /\
    select_settings_where_id_1 (snd (fetchData policy (st, d))) = Some sett /\
    fst (get_settings policy d) = snd (fetchData policy (st, d)) /\
    fst (fetchData policy (st, d))
    = setIsLoading false
        (setVoiceEnabled (Z.eqb (s_voice_enabled sett) 1)
           (setStepProgress (step_progress d)
              (setCourses (map (course_view d) (Store.courses d))
                 (setIsLoading true st)))).
Proof.
  destruct (get_settings_finds policy d) as [sett [Hget [Hid Hfound]]].
  exists sett. unfold fetchData. rewrite get_courses_eq.
  unfold get_progress. rewrite query_exact. rewrite Hget. simpl.
  repeat split; assumption.
Qed.

(** X24.  Saving a course from the application.  When the POST fails the
    application state is left exactly as it was: the builder stays open and
    nothing is shown, although the database may have changed.  When it
    succeeds the application is back on the home view and not loading, with
    the courses of the database followed by the new course (the id the
    server answered, the posted title and description), its progress table
    as in the database, and the voice setting re-read from the settings row
    with id 1, which is created if missing. *)
Theorem handleSaveCourse_outcomes (policy : arity_policy) (env : environment)
  (body : course_body) (st : state) (d : database) :
  let after := handleSaveCourse policy env body (st, d) in
  match snd (post_courses policy env body d) with
  | Thrown _ =>
      fst after = st /\ snd after = fst (post_courses policy env body d)
  | Returned id =>
      activeView (fst after) = home /\
      isLoading (fst after) = false /\
      map cj_course (courses (fst after))
      = Store.courses d
        ++ [ {| c_id := id; c_title := cb_title body;
                c_description := cb_description body;
                c_image_url :=
                  or_else (cb_image_url body)
                    ("https://picsum.photos/seed/" ++ id ++ "/800/450")%string;
                c_created_at := CURRENT_TIMESTAMP env |} ] /\
      stepProgress (fst after) = step_progress d /\
      exists sett,
        select_settings_where_id_1 (snd after) = Some sett /\
        s_id sett = 1%Z /\
        voiceEnabled (fst after) = Z.eqb (s_voice_enabled sett) 1 /\
        (settings d = [] -> voiceEnabled (fst after) = true)
  end.
Proof.
  cbv zeta. unfold handleSaveCourse.
  pose proof (post_courses_returned_course policy env body d) as Hposted.
  destruct (post_courses policy env body d) as [d1 [id|e]]; cbn [fst snd] in *;
    [|split; reflexivity].
  destruct (Hposted id eq_refl) as [Hcourses [Hprogress Hsettings]].
  destruct (fetchData_eq policy st d1) as [sett [Hid [Hfound [Hsame Hstate]]]].
  destruct (fetchData policy (st, d1)) as [st2 d2]. cbn [fst snd] in *. subst st2.
  split; [reflexivity|]. split; [reflexivity|].
  split.
  - cbn [courses setActiveView setIsLoading setVoiceEnabled setStepProgress setCourses].
    rewrite map_map. cbn [cj_course course_view]. rewrite map_id. exact Hcourses.
  - split; [exact Hprogress|]. exists sett.
    split; [exact Hfound|]. split; [exact Hid|]. split; [reflexivity|].
    intros Hempty. rewrite <- Hsettings in Hempty.
    rewrite (get_settings_on_empty policy d1 Hempty) in Hsame. cbn [fst] in Hsame.
    subst d2. unfold select_settings_where_id_1 in Hfound. simpl in Hfound.
    inversion Hfound. reflexivity.
Qed.

End SaveCourse.

(** ** Speaking a message *)

Section SpeakFacts.
Import JS Gemini Speech Voice.
Local Open Scope nat_scope.

Variable stripCodeBlocks : string -> string.
Variable tts : nat -> string -> nat -> result (option string).

(** The second half of [handleSpeak] by the audio that came back. *)
Lemma handleSpeak_goes_on_no_audio (c : suspended) (p : panel) :
  no_audio tts c = true ->
  handleSpeak_goes_on tts c p = fall_back (call_text c) (call_messageId c) p.
Proof.
  unfold no_audio, handleSpeak_goes_on.
  destruct (base64_of tts c) as [data|]; [|reflexivity].
  destruct (truthy data); [discriminate | reflexivity].
Qed.

Lemma handleSpeak_goes_on_audio (c : suspended) (p : panel) (data : string) :
  base64_of tts c = Some data -> truthy data = true ->
  handleSpeak_goes_on tts c p = play (AiVoice data (call_messageId c) (call_cleanText c)) p.
Proof.
  unfold handleSpeak_goes_on. intros -> ->. reflexivity.
Qed.

Lemma handleSpeak_goes_on_cases (c : suspended) (p : panel) :
  handleSpeak_goes_on tts c p = fall_back (call_text c) (call_messageId c) p \/
  exists data, handleSpeak_goes_on tts c p
               = play (AiVoice data (call_messageId c) (call_cleanText c)) p.
Proof.
  unfold handleSpeak_goes_on.
  destruct (base64_of tts c) as [data|]; [|now left].
  destruct (truthy data); [right; now exists data | now left].
Qed.

(** A call of [handleSpeak] by its three cases. *)
Lemma handleSpeak_cases (rendered : voice_type) (text : string) (messageId : Z)
  (p : panel) :
  let started := handleSpeak stripCodeBlocks rendered text messageId p in
  started = p \/
  started = play (LocalVoice (stripCodeBlocks text) messageId) p /\ rendered = local \/
  started = request {| call_request := length (requested p); call_text := text;
                       call_messageId := messageId;
                       call_cleanText := stripCodeBlocks text |} p /\ rendered = ai.
Proof.
  cbv zeta. unfold handleSpeak.
  destruct (negb (truthy (stripCodeBlocks text))); [now left|].
  destruct rendered; [right; right | right; left]; now split.
Qed.

(** Only the AI button selects the AI voice. *)
Lemma step_leaves_voice (a : action) (p : panel) :
  leaves_voice a = true -> voiceType p = local ->
  voiceType (step stripCodeBlocks tts a p) = local.
Proof.
  intros Ha Hlocal. destruct a as [rendered text messageId|n|v|]; simpl.
  - destruct (handleSpeak_cases rendered text messageId p) as [->|[[-> _]|[-> _]]];
      exact Hlocal.
  - destruct (find (is_request n) (awaiting p)) as [c|]; [|exact Hlocal].
    destruct (handleSpeak_goes_on_cases c (resume n p)) as [->|[data ->]];
      [reflexivity | exact Hlocal].
  - destruct v; [discriminate | reflexivity].
  - destruct (toast_timers p); exact Hlocal.
Qed.

Lemma run_leaves_voice (actions : list action) :
  forall p, forallb leaves_voice actions = true -> voiceType p = local ->
  voiceType (run stripCodeBlocks tts actions p) = local.
Proof.
  induction actions as [|a rest IH]; intros p Hall Hlocal; [exact Hlocal|].
  simpl in Hall. apply andb_true_iff in Hall. destruct Hall as [Ha Hrest].
  simpl. apply IH; [exact Hrest|]. now apply step_leaves_voice.
Qed.

(** Only a call of [handleSpeak] from a render with the AI voice makes a
    speech request; with no call suspended, nothing else falls back. *)
Lemma step_local_render (a : action) (p : panel) :
  local_render a = true ->
  requested (step stripCodeBlocks tts a p) = requested p /\
  (awaiting p = [] ->
   awaiting (step stripCodeBlocks tts a p) = [] /\
   fallback_warnings (step stripCodeBlocks tts a p) = fallback_warnings p).
Proof.
  intros Ha. destruct a as [rendered text messageId|n|v|]; simpl.
  - destruct (handleSpeak_cases rendered text messageId p) as [->|[[-> _]|[_ ->]]];
      [now split | now split | discriminate].
  - destruct (find (is_request n) (awaiting p)) as [c|] eqn:Hfind.
    + split.
      * destruct (handleSpeak_goes_on_cases c (resume n p)) as [->|[data ->]];
          reflexivity.
      * intros Hnone. rewrite Hnone in Hfind. discriminate.
    + now split.
  - now split.
  - destruct (toast_timers p); now split.
Qed.

Lemma run_local_render (actions : list action) :
  forall p, forallb local_render actions = true ->
  requested (run stripCodeBlocks tts actions p) = requested p /\
  (awaiting p = [] ->
   fallback_warnings (run stripCodeBlocks tts actions p) = fallback_warnings p).
Proof.
  induction actions as [|a rest IH]; intros p Hall; [now split|].
  simpl in Hall. apply andb_true_iff in Hall. destruct Hall as [Ha Hrest].
  simpl. destruct (step_local_render a p Ha) as [Hreq Hnone].
  destruct (IH (step stripCodeBlocks tts a p) Hrest) as [Hreq' Hnone'].
  split; [now rewrite Hreq'|].
  intros Hempty. destruct (Hnone Hempty) as [Hstill Hwarn].
  now rewrite (Hnone' Hstill).
Qed.

(** A suspended call stays suspended until its request settles. *)
Lemma request_still_awaiting (n : nat) (c c' : suspended) (p : panel) :
  find (is_request n) (awaiting p) = Some c ->
  find (is_request n) (awaiting (request c' p)) = Some c.
Proof.
  simpl. induction (awaiting p) as [|d rest IH]; simpl; [discriminate|].
  destruct (is_request n d); [trivial | exact IH].
Qed.

Lemma resume_still_awaiting (m n : nat) (c : suspended) (p : panel) :
  m <> n ->
  find (is_request n) (awaiting p) = Some c ->
  find (is_request n) (awaiting (resume m p)) = Some c.
Proof.
  intros Hne. simpl. induction (awaiting p) as [|d rest IH]; simpl; [discriminate|].
  destruct (is_request n d) eqn:Hn.
  - intros Hc. inversion Hc; subst d.
    assert (Hm : is_request m c = false).
    { unfold is_request in *. apply Nat.eqb_eq in Hn. apply Nat.eqb_neq. lia. }
    rewrite Hm. simpl. now rewrite Hn.
  - intros Hc. destruct (is_request m d); simpl; [now apply IH|].
    rewrite Hn. now apply IH.
Qed.

Lemma step_still_awaiting (n : nat) (c : suspended) (a : action) (p : panel) :
  other_than n a = true ->
  find (is_request n) (awaiting p) = Some c ->
  find (is_request n) (awaiting (step stripCodeBlocks tts a p)) = Some c.
Proof.
  intros Ha Hc. destruct a as [rendered text messageId|m|v|]; simpl.
  - destruct (handleSpeak_cases rendered text messageId p) as [->|[[-> _]|[-> _]]];
      [exact Hc | exact Hc | now apply request_still_awaiting].
  - simpl in Ha. apply negb_true_iff, Nat.eqb_neq in Ha.
    destruct (find (is_request m) (awaiting p)) as [d|]; [|exact Hc].
    pose proof (resume_still_awaiting m n c p Ha Hc) as Hstill.
    destruct (handleSpeak_goes_on_cases d (resume m p)) as [->|[data ->]];
      exact Hstill.
  - exact Hc.
  - destruct (toast_timers p); exact Hc.
Qed.

Lemma run_still_awaiting (n : nat) (c : suspended) (actions : list action) :
  forall p, forallb (other_than n) actions = true ->
  find (is_request n) (awaiting p) = Some c ->
  find (is_request n) (awaiting (run stripCodeBlocks tts actions p)) = Some c.
Proof.
  induction actions as [|a rest IH]; intros p Hall Hc; [exact Hc|].
  simpl in Hall. apply andb_true_iff in Hall. destruct Hall as [Ha Hrest].
  simpl. apply IH; [exact Hrest|]. now apply step_still_awaiting.
Qed.

(** The call that has just made its request is the one that waits for it. *)
Lemma request_awaiting (c : suspended) (p : panel) :
  well_numbered p = true ->
  call_request c = length (requested p) ->
  find (is_request (length (requested p))) (awaiting (request c p)) = Some c.
Proof.
  unfold well_numbered. intros Hwell Hc. simpl.
  induction (awaiting p) as [|d rest IH]; simpl.
  - unfold is_request. rewrite Hc, Nat.eqb_refl. reflexivity.
  - simpl in Hwell. apply andb_true_iff in Hwell. destruct Hwell as [Hd Hrest].
    apply Nat.ltb_lt in Hd.
    assert (Hno : is_request (length (requested p)) d = false).
    { unfold is_request. apply Nat.eqb_neq. lia. }
    rewrite Hno. now apply IH.
Qed.

(** The panel numbers its requests well, whatever happens in it. *)
Lemma step_well_numbered (a : action) (p : panel) :
  well_numbered p = true -> well_numbered (step stripCodeBlocks tts a p) = true.
Proof.
  unfold well_numbered. intros Hwell.
  rewrite forallb_forall in Hwell. apply forallb_forall. intros c.
  destruct a as [rendered text messageId|n|v|]; simpl.
  - destruct (handleSpeak_cases rendered text messageId p) as [->|[[-> _]|[-> _]]];
      simpl; try apply Hwell.
    rewrite length_app, in_app_iff. simpl. intros [Hin|[<-|[]]].
    + specialize (Hwell c Hin). apply Nat.ltb_lt in Hwell. apply Nat.ltb_lt. lia.
    + simpl. apply Nat.ltb_lt. lia.
  - destruct (find (is_request n) (awaiting p)) as [d|]; [|apply Hwell].
    assert (Hsub : In c (awaiting (resume n p)) -> In c (awaiting p)).
    { simpl. rewrite filter_In. tauto. }
    destruct (handleSpeak_goes_on_cases d (resume n p)) as [->|[data ->]];
      simpl; intros Hin; apply Hwell; apply Hsub; exact Hin.
  - apply Hwell.
  - destruct (toast_timers p); simpl; apply Hwell.
Qed.

Lemma run_well_numbered (actions : list action) :
  forall p, well_numbered p = true ->
  well_numbered (run stripCodeBlocks tts actions p) = true.
Proof.
  induction actions as [|a rest IH]; intros p Hwell; [exact Hwell|].
  simpl. apply IH. now apply step_well_numbered.
Qed.

(** X25.  Speaking a message; [rendered] is the voice type of the render
    whose [handleSpeak] is called.  A text that is empty once its code
    blocks are stripped is not spoken and not requested.  With the local
    voice the stripped text is spoken at once and nothing is requested.
    With the AI voice the stripped text is requested once and the call
    waits; whatever else happens in the panel meanwhile, when the request
    settles the call goes on.  If no audio came back (the request failed,
    or gave nothing or an empty string) the panel warns, switches the voice
    to local, shows the toast, sets the timer of 5000 ms and lets the local
    voice speak the text as it was given, code blocks included; otherwise
    the audio is played for the stripped text and the voice is left as it
    is.  After a fallback the voice stays local as long as the AI button is
    not pressed, and no speech is requested as long as, besides, no call
    comes from a render that still had the AI voice; with no other call
    waiting there is no second fallback either.  The fallback is not for
    good: the AI button selects the AI voice again, and a call from a render
    that still had the AI voice requests speech although the voice of the
    panel is local.  Every panel reached from the initial one numbers its
    requests well. *)
Theorem handleSpeak_falls_back_to_local (rendered : voice_type) (text : string)
  (messageId : Z) (p : panel) :
  let cleanText := stripCodeBlocks text in
  let n := length (requested p) in
  let call := {| call_request := n; call_text := text;
                 call_messageId := messageId; call_cleanText := cleanText |} in
  let started := handleSpeak stripCodeBlocks rendered text messageId p in
  (truthy cleanText = false -> started = p) /\
  (truthy cleanText = true -> rendered = local ->
   started = play (LocalVoice cleanText messageId) p) /\
  (truthy cleanText = true -> rendered = ai ->
   started = request call p /\
   requested started = requested p ++ [cleanText] /\
   voiceType started = voiceType p /\
   played started = played p /\
   (well_numbered p = true ->
    forall between, forallb (other_than n) between = true ->
    let arrived := run stripCodeBlocks tts between started in
    let settled := step stripCodeBlocks tts (SpeechSettles n) arrived in
    (no_audio tts call = true ->
     settled = fall_back text messageId (resume n arrived) /\
     voiceType settled = local /\
     showVoiceToast settled = true /\
     fallback_warnings settled = S (fallback_warnings arrived) /\
     toast_timers settled = toast_timers arrived ++ [5000%Z] /\
     played settled = played arrived ++ [LocalVoice text messageId] /\
     requested settled = requested arrived /\
     (forall later, forallb leaves_voice later = true ->
        voiceType (run stripCodeBlocks tts later settled) = local /\
        (forallb local_render later = true ->
         requested (run stripCodeBlocks tts later settled) = requested arrived /\
         (awaiting settled = [] ->
          fallback_warnings (run stripCodeBlocks tts later settled)
          = S (fallback_warnings arrived)))) /\
     voiceType (step stripCodeBlocks tts (SelectVoice ai) settled) = ai /\
     (forall text' messageId', truthy (stripCodeBlocks text') = true ->
        requested (step stripCodeBlocks tts (Speak ai text' messageId') settled)
        = requested settled ++ [stripCodeBlocks text'])) /\
    (forall data, base64_of tts call = Some data -> truthy data = true ->
     settled = play (AiVoice data messageId cleanText) (resume n arrived) /\
     voiceType settled = voiceType arrived /\
     showVoiceToast settled = showVoiceToast arrived /\
     fallback_warnings settled = fallback_warnings arrived /\
     played settled = played arrived ++ [AiVoice data messageId cleanText]))) /\
  (forall actions, well_numbered (run stripCodeBlocks tts actions initial) = true).
Proof.
  cbv zeta. split; [|split; [|split]].
  - intros Hempty. unfold handleSpeak. now rewrite Hempty.
  - intros Hfull ->. unfold handleSpeak. now rewrite Hfull.
  - intros Hfull ->.
    assert (Hstarted :
      handleSpeak stripCodeBlocks ai text messageId p
      = request {| call_request := length (requested p); call_text := text;
                   call_messageId := messageId;
                   call_cleanText := stripCodeBlocks text |} p).
    { unfold handleSpeak. now rewrite Hfull. }
    rewrite Hstarted.
    split; [reflexivity|]. split; [reflexivity|]. split; [reflexivity|].
    split; [reflexivity|].
    intros Hwell between Hbetween.
    pose proof (run_still_awaiting _ _ between _ Hbetween
                  (request_awaiting
                     {| call_request := length (requested p); call_text := text;
                        call_messageId := messageId;
                        call_cleanText := stripCodeBlocks text |}
                     p Hwell eq_refl)) as Hwaits.
    cbn [step]. rewrite Hwaits.
    split.
    + intros Hnone. rewrite (handleSpeak_goes_on_no_audio _ _ Hnone).
      cbn [call_text call_messageId].
      split; [reflexivity|]. split; [reflexivity|]. split; [reflexivity|].
      split; [reflexivity|]. split; [reflexivity|]. split; [reflexivity|].
      split; [reflexivity|].
      split; [|split].
      * intros later Hlater. split.
        -- now apply run_leaves_voice.
        -- intros Hlocal.
           destruct (run_local_render later
                       (fall_back text messageId
                          (resume (length (requested p))
                             (run stripCodeBlocks tts between
                                (request {| call_request := length (requested p);
                                            call_text := text;
                                            call_messageId := messageId;
                                            call_cleanText := stripCodeBlocks text |}
                                   p))))
                       Hlocal) as [Hreq Hwarn].
           split; [exact Hreq | exact Hwarn].
      * reflexivity.
      * intros text' messageId' Hfull'. unfold handleSpeak. now rewrite Hfull'.
    + intros data Hdata Htruthy.
      rewrite (handleSpeak_goes_on_audio _ _ data Hdata Htruthy).
      cbn [call_cleanText call_messageId]. now repeat split.
  - intros actions. now apply run_well_numbered.
Qed.

End SpeakFacts.

(** The speech service is out of quota: the first message falls back, the
    later ones use the local voice until the AI button is pressed. *)
Lemma handleSpeak_falls_back_to_local_sample :
  let tts := fun (_ : nat) (_ : string) (_ : nat) =>
    @Gemini.Rejected (option string)
      {| Gemini.message := Some "429 quota"%string; Gemini.status := None |} in
  let strip := StripCode.stripCodeBlocks in
  let p := Voice.setVoiceType Voice.ai Voice.initial in
  let started := Voice.handleSpeak strip Voice.ai "Hello"%string 7%Z p in
  let settled := Voice.step strip tts (Voice.SpeechSettles 0) started in
  Voice.requested started = ["Hello"%string] /\
  Voice.voiceType settled = Voice.local /\
  Voice.showVoiceToast settled = true /\
  Voice.played settled = [Voice.LocalVoice "Hello"%string 7%Z] /\
  Voice.voiceType
    (Voice.run strip tts [Voice.Speak Voice.local "Next"%string 8%Z; Voice.ToastTimer]
       settled) = Voice.local /\
  Voice.voiceType (Voice.step strip tts (Voice.SelectVoice Voice.ai) settled) = Voice.ai.
Proof.
  cbv zeta.
  destruct (handleSpeak_falls_back_to_local StripCode.stripCodeBlocks
              (fun _ _ _ => Gemini.Rejected
                 {| Gemini.message := Some "429 quota"%string; Gemini.status := None |})
              Voice.ai "Hello"%string 7%Z (Voice.setVoiceType Voice.ai Voice.initial))
    as [_ [_ [Hai _]]].
  destruct (Hai eq_refl eq_refl) as [_ [Hreq [_ [_ Hsettles]]]].
  destruct (Hsettles eq_refl [] eq_refl) as [Hfalls _].
  destruct (Hfalls eq_refl)
    as [_ [Hvoice [Htoast [_ [_ [Hplayed [_ [Hlater [Hbutton _]]]]]]]]].
  split; [exact Hreq|]. split; [exact Hvoice|]. split; [exact Htoast|].
  split; [exact Hplayed|].
  split; [|exact Hbutton].
  exact (proj1 (Hlater [Voice.Speak Voice.local "Next"%string 8%Z; Voice.ToastTimer]
                  eq_refl)).
Defined.

(** ** What is read aloud *)

Section StripCodeFacts.
Import JS StripCode.
Local Open Scope nat_scope.

Lemma drop_length (n : nat) (s : string) : String.length (drop n s) <= String.length s.
Proof.
  revert s. induction n as [|n IH]; intros s; [simpl; lia|].
  destruct s as [|c rest]; simpl; [lia|]. specialize (IH rest). lia.
Qed.

Lemma after_fence_length (s tail : string) :
  after_fence s = Some tail -> String.length tail <= String.length s.
Proof.
  induction s as [|c rest IH]; cbn [after_fence].
  - simpl. discriminate.
  - destruct (String.prefix fence (String c rest)).
    + intros H. injection H as <-.
      apply (drop_length 3 (String c rest)).
    + intros H. specialize (IH H). simpl. lia.
Qed.

(** Enough fuel is as good as any other amount that is enough. *)
Lemma replace_blocks_fuel (n : nat) :
  forall (m : nat) (s : string),
  String.length s <= n -> String.length s <= m ->
  replace_blocks n s = replace_blocks m s.
Proof.
  induction n as [|n IH]; intros m s Hn Hm.
  - destruct s; [|simpl in Hn; lia]. destruct m; reflexivity.
  - destruct m as [|m]; [destruct s; [reflexivity | simpl in Hm; lia]|].
    destruct s as [|c rest]; [reflexivity|]. cbn [replace_blocks].
    simpl String.length in Hn, Hm.
    destruct (String.prefix fence (String c rest)).
    + destruct (after_fence (drop 3 (String c rest))) as [tail|] eqn:Hclose.
      * apply after_fence_length in Hclose.
        change (drop 3 (String c rest)) with (drop 2 rest) in Hclose.
        pose proof (drop_length 2 rest) as Hd.
        apply IH; lia.
      * f_equal. apply IH; lia.
    + f_equal. apply IH; lia.
Qed.

Lemma replace_blocks_length (n : nat) :
  forall s, String.length (replace_blocks n s) <= String.length s.
Proof.
  induction n as [|n IH]; intros s; [simpl; lia|].
  destruct s as [|c rest]; [simpl; lia|]. cbn [replace_blocks].
  destruct (String.prefix fence (String c rest)).
  - destruct (after_fence (drop 3 (String c rest))) as [tail|] eqn:Hclose.
    + apply after_fence_length in Hclose.
      change (drop 3 (String c rest)) with (drop 2 rest) in Hclose.
      pose proof (drop_length 2 rest) as Hd. specialize (IH tail).
      simpl String.length. lia.
    + simpl. specialize (IH rest). lia.
  - simpl. specialize (IH rest). lia.
Qed.

Lemma trim_start_length (s : string) : String.length (trim_start s) <= String.length s.
Proof.
  induction s as [|c rest IH]; simpl; [lia|].
  destruct (is_space c); simpl; lia.
Qed.

Lemma trim_end_length (s : string) : String.length (trim_end s) <= String.length s.
Proof.
  induction s as [|c rest IH]; simpl; [lia|].
  destruct (trim_end rest); [destruct (is_space c); simpl; lia | simpl in *; lia].
Qed.

Lemma includes_cons (c : ascii) (rest sub : string) :
  includes (String c rest) sub = false ->
  String.prefix sub (String c rest) = false /\ includes rest sub = false.
Proof.
  cbn [includes]. destruct (String.prefix sub (String c rest)); [discriminate | now split].
Qed.

(** A text without a fence is left as it is. *)
Lemma replace_blocks_without_fence (n : nat) :
  forall s, includes s fence = false -> replace_blocks n s = s.
Proof.
  induction n as [|n IH]; intros s Hnone; [reflexivity|].
  destruct s as [|c rest]; [reflexivity|]. cbn [replace_blocks].
  apply includes_cons in Hnone. destruct Hnone as [Hhere Hlater].
  rewrite Hhere. f_equal. now apply IH.
Qed.

(** A prefix test looks at no more characters than the prefix has. *)
Lemma prefix_of_long (p u v : string) :
  String.length p <= String.length u ->
  String.prefix p (u ++ v) = String.prefix p u.
Proof.
  revert u. induction p as [|a p IH]; intros u Hlen;
    [destruct u; [destruct v|]; reflexivity|].
  destruct u as [|b u]; [simpl in Hlen; lia|]. simpl.
  destruct (ascii_dec a b); [|reflexivity]. apply IH. simpl in Hlen. lia.
Qed.

Lemma string_append_assoc (a b c : string) :
  ((a ++ b) ++ c)%string = (a ++ (b ++ c))%string.
Proof. induction a as [|x a IH]; simpl; [reflexivity | now rewrite IH]. Qed.

Lemma prefix_fence_here (c : string) : String.prefix fence (fence ++ c) = true.
Proof. apply prefix_correct. destruct c; reflexivity. Qed.

Lemma after_fence_here (c : string) : after_fence (fence ++ c) = Some c.
Proof.
  pose proof (prefix_fence_here c) as H.
  change (fence ++ c)%string with (String "`" (String "`" (String "`" c))) in *.
  cbn [after_fence]. rewrite H. reflexivity.
Qed.

(** With no fence beginning in [b], the first fence of [b] followed by a
    fence is that fence. *)
Lemma after_fence_found (b c : string) :
  includes (b ++ "``") fence = false ->
  after_fence (b ++ fence ++ c) = Some c.
Proof.
  induction b as [|x b IH]; intros Hnone; [apply after_fence_here|].
  change (String x b ++ "``")%string with (String x (b ++ "``")) in Hnone.
  apply includes_cons in Hnone. destruct Hnone as [Hhere Hlater].
  change (String x b ++ fence ++ c)%string with (String x (b ++ fence ++ c)).
  cbn [after_fence].
  assert (Hprefix : String.prefix fence (String x (b ++ fence ++ c)) = false).
  { change (String x (b ++ fence ++ c)) with ((String x b) ++ "``" ++ ("`" ++ c))%string.
    replace (String x b ++ "``" ++ "`" ++ c)%string
      with ((String x b ++ "``") ++ ("`" ++ c))%string
      by (now rewrite string_append_assoc).
    rewrite prefix_of_long; [exact Hhere|].
    rewrite string_length_append. simpl. lia. }
  rewrite Hprefix. now apply IH.
Qed.

(** With no fence in [b], no fence closes a block. *)
Lemma after_fence_missing (b : string) :
  includes b fence = false -> after_fence b = None.
Proof.
  induction b as [|x b IH]; intros Hnone.
  - reflexivity.
  - apply includes_cons in Hnone. destruct Hnone as [Hhere Hlater].
    cbn [after_fence]. rewrite Hhere. now apply IH.
Qed.

Lemma replace_blocks_block (a b c : string) :
  includes (a ++ "``") fence = false ->
  includes (b ++ "``") fence = false ->
  forall n, String.length (a ++ fence ++ b ++ fence ++ c) <= n ->
  replace_blocks n (a ++ fence ++ b ++ fence ++ c)
  = (a ++ replace_blocks (String.length c) c)%string.
Proof.
  intros Ha Hb. induction a as [|x a IH]; intros n Hn.
  - pose proof (prefix_fence_here (b ++ fence ++ c)) as Hopen.
    change (EmptyString ++ fence ++ b ++ fence ++ c)%string
      with (String "`" (String "`" (String "`" (b ++ fence ++ c)))) in *.
    change (fence ++ b ++ fence ++ c)%string
      with (String "`" (String "`" (String "`" (b ++ fence ++ c)))) in Hopen.
    destruct n as [|n]; [simpl in Hn; lia|]. cbn [replace_blocks].
    rewrite Hopen.
    change (drop 3 (String "`" (String "`" (String "`" (b ++ fence ++ c)))))
      with (b ++ fence ++ c)%string.
    rewrite (after_fence_found b c Hb). simpl append.
    apply replace_blocks_fuel; [|lia].
    assert (Hlen : String.length (b ++ fence ++ c)
                   = String.length b + 3 + String.length c)
      by (rewrite !string_length_append; simpl; lia).
    cbn [String.length] in Hn. lia.
  - change (String x a ++ "``")%string with (String x (a ++ "``")) in Ha.
    apply includes_cons in Ha. destruct Ha as [Hhere Hlater].
    change (String x a ++ fence ++ b ++ fence ++ c)%string
      with (String x (a ++ fence ++ b ++ fence ++ c)) in *.
    destruct n as [|n]; [simpl in Hn; lia|]. cbn [replace_blocks].
    assert (Hprefix : String.prefix fence (String x (a ++ fence ++ b ++ fence ++ c))
                      = false).
    { change (String x (a ++ fence ++ b ++ fence ++ c))
        with ((String x a) ++ "``" ++ ("`" ++ b ++ fence ++ c))%string.
      replace (String x a ++ "``" ++ "`" ++ b ++ fence ++ c)%string
        with ((String x a ++ "``") ++ ("`" ++ b ++ fence ++ c))%string
        by (now rewrite string_append_assoc).
      rewrite prefix_of_long; [exact Hhere|].
      rewrite string_length_append. simpl. lia. }
    rewrite Hprefix. change (String x a ++ replace_blocks (String.length c) c)%string
      with (String x (a ++ replace_blocks (String.length c) c)). f_equal.
    apply (IH Hlater). cbn [String.length] in Hn. lia.
Qed.

Lemma includes_drop (k : nat) :
  forall b, includes b fence = false -> includes (drop k b) fence = false.
Proof.
  induction k as [|k IH]; intros b Hnone; [exact Hnone|].
  destruct b as [|y b]; [exact Hnone|].
  apply includes_cons in Hnone. simpl. apply IH. tauto.
Qed.

(** Where no fence can be closed, nothing is removed. *)
Lemma replace_blocks_unclosed (n : nat) :
  forall t, (forall k, after_fence (drop (3 + k) t) = None) ->
  replace_blocks n t = t.
Proof.
  induction n as [|n IH]; intros t Hopen; [reflexivity|].
  destruct t as [|c rest]; [reflexivity|]. cbn [replace_blocks].
  assert (Hrest : replace_blocks n rest = rest).
  { apply IH. intros k. exact (Hopen (S k)). }
  destruct (String.prefix fence (String c rest)); [|now rewrite Hrest].
  pose proof (Hopen 0) as Hhere. change (3 + 0) with 3 in Hhere.
  rewrite Hhere. now rewrite Hrest.
Qed.

Lemma replace_blocks_open (a b : string) :
  includes (a ++ "``") fence = false ->
  includes b fence = false ->
  forall n, replace_blocks n (a ++ fence ++ b) = (a ++ fence ++ b)%string.
Proof.
  intros Ha Hb. induction a as [|x a IH]; intros n.
  - apply replace_blocks_unclosed. intros k.
    change (drop (3 + k) (EmptyString ++ fence ++ b)) with (drop k b).
    apply after_fence_missing. now apply includes_drop.
  - change (String x a ++ "``")%string with (String x (a ++ "``")) in Ha.
    apply includes_cons in Ha. destruct Ha as [Hhere Hlater].
    change (String x a ++ fence ++ b)%string with (String x (a ++ fence ++ b)).
    destruct n as [|n]; [reflexivity|]. cbn [replace_blocks].
    assert (Hprefix : String.prefix fence (String x (a ++ fence ++ b)) = false).
    { change (String x (a ++ fence ++ b))
        with ((String x a) ++ "``" ++ ("`" ++ b))%string.
      replace (String x a ++ "``" ++ "`" ++ b)%string
        with ((String x a ++ "``") ++ ("`" ++ b))%string
        by (now rewrite string_append_assoc).
      rewrite prefix_of_long; [exact Hhere|].
      rewrite string_length_append. simpl. lia. }
    rewrite Hprefix. f_equal. now apply IH.
Qed.

(** X26.  What [stripCodeBlocks] removes.  A text without a code fence is
    only trimmed.  A fenced block is removed with its fences, and what
    follows it is treated in the same way: a message that is nothing but a
    code block strips to the empty text (and is then not spoken).  A fence
    that is never closed stays in the text, with all that follows it.  The
    result is never longer than the text. *)
Theorem stripCodeBlocks_removes_blocks :
  (forall text, includes text fence = false -> stripCodeBlocks text = trim text) /\
  (forall a b c,
     includes (a ++ "``") fence = false ->
     includes (b ++ "``") fence = false ->
     stripCodeBlocks (a ++ fence ++ b ++ fence ++ c)
     = trim (a ++ replace_blocks (String.length c) c)) /\
  (forall b,
     includes (b ++ "``") fence = false ->
     stripCodeBlocks (fence ++ b ++ fence) = ""%string) /\
  (forall a b,
     includes (a ++ "``") fence = false ->
     includes b fence = false ->
     stripCodeBlocks (a ++ fence ++ b) = trim (a ++ fence ++ b)) /\
  (forall text, String.length (stripCodeBlocks text) <= String.length text).
Proof.
  split; [|split; [|split; [|split]]].
  - intros text Hnone. unfold stripCodeBlocks.
    now rewrite replace_blocks_without_fence.
  - intros a b c Ha Hb. unfold stripCodeBlocks.
    now rewrite (replace_blocks_block a b c Ha Hb).
  - intros b Hb. unfold stripCodeBlocks.
    pose proof (replace_blocks_block EmptyString b EmptyString eq_refl Hb) as H.
    change (EmptyString ++ fence ++ b ++ fence ++ EmptyString)%string
      with (fence ++ b ++ fence)%string in H.
    rewrite H by lia. reflexivity.
  - intros a b Ha Hb. unfold stripCodeBlocks. f_equal.
    now apply replace_blocks_open.
  - intros text. unfold stripCodeBlocks, trim.
    pose proof (replace_blocks_length (String.length text) text) as H1.
    pose proof (trim_start_length (replace_blocks (String.length text) text)) as H2.
    pose proof (trim_end_length
                  (trim_start (replace_blocks (String.length text) text))) as H3.
    lia.
Qed.

End StripCodeFacts.

(** ** Importing a course into the builder *)

Section ImportFacts.
Import JS CourseImport.
Local Open Scope nat_scope.

Variable parse : string -> option json.

(** X27.  What the builder accepts as a course.  "Parse JSON" replaces the
    course exactly when the text parses to an object with a truthy title and
    truthy modules, and then with status success; in every other case the
    course is kept and the status is error.  The upload of a JSON file has
    no such check: every text that parses replaces the course, also null, a
    number or an object without modules.  A document read by the model
    replaces the course exactly when the result is an object with a truthy
    title, modules or not.  Every path sets the timer that puts the status
    back to idle. *)
Theorem import_accepts (jsonInput file_type text : string) (by_model : option json)
  (b : builder) :
  let pasted := handleImportJson parse jsonInput b in
  let uploaded := handleFileUpload parse file_type text by_model b in
  ((exists parsed, parse jsonInput = Some parsed /\ has_title_and_modules parsed /\
                   course pasted = Imported parsed /\ status_of pasted = success) \/
   ((forall parsed, parse jsonInput = Some parsed -> ~ has_title_and_modules parsed) /\
    course pasted = course b /\ status_of pasted = error)) /\
  timers pasted = timers b ++ [3000%Z] /\
  timers uploaded = timers b ++ [3000%Z] /\
  (file_type = "application/json"%string ->
   match parse text with
   | Some parsed => course uploaded = Imported parsed /\ status_of uploaded = success
   | None => course uploaded = course b /\ status_of uploaded = error /\
             alerts uploaded = S (alerts b)
   end) /\
  (file_type <> "application/json"%string ->
   (exists fields, by_model = Some (JObject fields) /\
                   js_truthy (member fields "title") = true /\
                   course uploaded = Imported (JObject fields) /\
                   status_of uploaded = success) \/
   ((forall fields, by_model = Some (JObject fields) ->
                    js_truthy (member fields "title") = false) /\
    course uploaded = course b /\ status_of uploaded = error /\
    alerts uploaded = S (alerts b))).
Proof.
  cbv zeta. split; [|split; [|split; [|split]]].
  - unfold handleImportJson.
    destruct (parse jsonInput) as [parsed|] eqn:Hparse.
    + destruct parsed as [|flag|q|s|items|fields]; simpl;
        try (right; split; [|now split];
             intros parsed Hp [fields [Hobject _]]; congruence).
      destruct (js_truthy (member fields "title")) eqn:Htitle.
      * destruct (js_truthy (member fields "modules")) eqn:Hmodules.
        -- left. exists (JObject fields). split; [reflexivity|].
           split; [exists fields; now repeat split | now split].
        -- right. split; [|now split].
           intros parsed Hp [fields' [Hobject [_ Hm]]].
           rewrite Hobject in Hp. injection Hp as Heq. subst fields'. congruence.
      * right. split; [|now split].
        intros parsed Hp [fields' [Hobject [Ht _]]].
        rewrite Hobject in Hp. injection Hp as Heq. subst fields'. congruence.
    + right. split; [discriminate | now split].
  - unfold handleImportJson.
    destruct (parse jsonInput) as [parsed|]; [|reflexivity].
    destruct (property parsed "title") as [title|]; [|reflexivity].
    destruct (js_truthy title); [|reflexivity].
    destruct (property parsed "modules") as [modules|]; [|reflexivity].
    destruct (js_truthy modules); reflexivity.
  - unfold handleFileUpload.
    destruct (String.eqb file_type "application/json").
    + destruct (parse text); reflexivity.
    + destruct by_model as [parsed|]; [|reflexivity]. cbv zeta.
      destruct (if js_truthy (Some parsed)
                then match property parsed "title" with
                     | Some title => js_truthy title
                     | None => false
                     end
                else false); reflexivity.
  - intros ->. unfold handleFileUpload. simpl.
    destruct (parse text); now repeat split.
  - intros Hother. apply String.eqb_neq in Hother.
    unfold handleFileUpload. rewrite Hother.
    destruct by_model as [parsed|].
    + destruct parsed as [|flag|q|s|items|fields].
      1-5: right; split; [intros fields0 Hp; discriminate|];
        cbv zeta; cbn [property js_truthy];
        try destruct flag; try destruct (negb (Qeq_bool q 0));
        try destruct (truthy s); now repeat split.
      cbv zeta. cbn [property js_truthy].
      destruct (js_truthy (member fields "title")) eqn:Htitle.
      * left. exists fields. now repeat split.
      * right. split; [|now repeat split].
        intros fields' Hp. injection Hp as <-. exact Htitle.
    + right. split; [discriminate | now repeat split].
Qed.

End ImportFacts.
